(** * Hash tables of the fantasy football league

    A shallow embedding of the two hash tables of the repository,
    [hashy_perfection_table.py] (a fixed table of thirteen slots for the
    names of the player statistics) and [hashy_step_table.py] (a growing
    table with double hashing and lazy deletion), and the properties of
    them that the specification states.

    Python objects become records that are passed explicitly, a method
    that mutates [self] becomes a function from the state to an outcome and
    the next state, and an exception becomes the outcome [Raise]. *)

From Stdlib Require Import ZArith Znumtheory Lia String Ascii.
From stdpp Require Import base list numbers.

Open Scope Z_scope.

(** ** Python values *)

Module Py.

(** The exceptions that the two files can run into. *)
Inductive exn : Set :=
| KeyError
| FullError
| IndexError
| ZeroDivisionError
| ValueError
| TypeError.

(** The outcome of a call: a value, an exception, or [OutOfFuel] when a
    loop or a recursion of the model was cut off before the Python code
    would have finished. The theorems show that [OutOfFuel] does not
    happen. *)
Inductive result (A : Type) : Type :=
| Ok (a : A)
| Raise (e : exn)
| OutOfFuel.
Arguments Ok {A} a.
Arguments Raise {A} e.
Arguments OutOfFuel {A}.

Definition rbind {A B} (r : result A) (k : A -> result B) : result B :=
  match r with
  | Ok a => k a
  | Raise e => Raise e
  | OutOfFuel => OutOfFuel
  end.

(** A method of an object with state [S]. *)
Definition M (S A : Type) : Type := S -> result A * S.

Definition ret {S A} (a : A) : M S A := fun s => (Ok a, s).
Definition raise {S A} (e : exn) : M S A := fun s => (Raise e, s).
Definition timeout {S A} : M S A := fun s => (OutOfFuel, s).
Definition bind {S A B} (m : M S A) (k : A -> M S B) : M S B :=
  fun s =>
    match m s with
    | (Ok a, s') => k a s'
    | (Raise e, s') => (Raise e, s')
    | (OutOfFuel, s') => (OutOfFuel, s')
    end.
(** Reading [self] without changing it. *)
Definition call {S A} (f : S -> result A) : M S A := fun s => (f s, s).
Definition modify {S} (f : S -> S) : M S unit := fun s => (Ok tt, f s).

(** [for x in l: body(x)] *)
Fixpoint for_each {S A} (l : list A) (body : A -> M S unit) : M S unit :=
  match l with
  | [] => ret tt
  | x :: l' => bind (body x) (fun _ => for_each l' body)
  end.

(** A [str] is the sequence of its code points; [ord] gives the code
    point of a character. *)
Definition str : Type := list N.
Definition ord (c : N) : Z := Z.of_N c.
Definition len {A} (l : list A) : Z := Z.of_nat (length l).

(** The [str] of a string literal. *)
Definition of_string (s : string) : str :=
  map N_of_ascii (list_ascii_of_string s).

(** [l[i]] for a Python sequence: a negative index counts from the end. *)
Definition seq_getitem {A} (l : list A) (i : Z) : result A :=
  let j := if i <? 0 then i + len l else i in
  if (0 <=? j) && (j <? len l) then
    match l !! Z.to_nat j with
    | Some x => Ok x
    | None => Raise IndexError
    end
  else Raise IndexError.

(** [a % b] on integers. *)
Definition py_mod (a b : Z) : result Z :=
  if b =? 0 then Raise ZeroDivisionError else Ok (a mod b).

(** [range(n)] *)
Definition range (n : Z) : list Z := map Z.of_nat (seq 0 (Z.to_nat n)).

(** Modelled from the spec: [data_structures.referential_array.ArrayR] is
    not among the sources. The backing store is a fixed-length ordered
    sequence of slots, all empty ([None]) when it is allocated; an index
    from [0] up to the length reads or writes that slot. The spec is silent
    on a length below one and on an index outside the array: the model
    refuses the first with [ValueError] and the second with [IndexError].
    The ladders of the spec hold prime capacities, and the tables only
    compute an index as a remainder modulo the length. *)
Definition ArrayR {A} (none : A) (length : Z) : result (list A) :=
  if length <=? 0 then Raise ValueError
  else Ok (replicate (Z.to_nat length) none).

Definition getitem {A} (a : list A) (index : Z) : result A :=
  if (0 <=? index) && (index <? len a) then
    match a !! Z.to_nat index with
    | Some x => Ok x
    | None => Raise IndexError
    end
  else Raise IndexError.

Definition setitem {A} (a : list A) (index : Z) (value : A) : result (list A) :=
  if (0 <=? index) && (index <? len a) then Ok (<[Z.to_nat index := value]> a)
  else Raise IndexError.

End Py.

Import Py.

Declare Scope py_scope.
Delimit Scope py_scope with py.
Notation "x <- m ;; k" := (bind m (fun x => k))
  (at level 20, m at level 99, k at level 200, only parsing) : py_scope.
Notation "m ;; k" := (bind m (fun _ => k))
  (at level 100, k at level 200, right associativity, only parsing) : py_scope.
Notation "x <~ r ;; k" := (rbind r (fun x => k))
  (at level 20, r at level 99, k at level 200, only parsing) : py_scope.
Open Scope py_scope.

(** ** hashy_perfection_table.py *)

Module HashyPerfectionTable.
Section Table.

(** [V] is the type of the values. [PlayerStats key] tells whether
    [PlayerStats(key)] finds a member of the enumeration with that value:
    [constants.py] is not among the sources. *)
Context {V : Type}.
Variable PlayerStats : str -> bool.

(** A slot holds [None] or a tuple [(key, data)]. *)
Record t : Type := mk {
  array : list (option (str * V));
  count : Z
}.

Definition set_array (a : list (option (str * V))) (self : t) : t :=
  {| array := a; count := count self |}.
Definition set_count (c : Z) (self : t) : t :=
  {| array := array self; count := c |}.

Definition __init__ : result t :=
  a <~ ArrayR None 13 ;;
  Ok {| array := a; count := 0 |}.

Definition table_size (self : t) : Z := len (array self).

Definition hash (self : t) (key : str) : result Z :=
  first <~ seq_getitem key 0 ;;
  last <~ seq_getitem key (-1) ;;
  middle <~ seq_getitem key (len key / 2) ;;
  py_mod (ord first * 3 + ord last * 5 + ord middle * 7) (table_size self).

Definition _is_valid_key (key : str) : result bool :=
  if PlayerStats key then Ok true else Raise KeyError.

Definition __len__ (self : t) : Z := count self.

(** The loop of [keys] and of [values]; [proj] picks the component of the
    tuple, [res] is the array that is being filled and [i] the next free
    index of it. *)
Fixpoint collect {A} (proj : str * V -> A) (self : t) (xs : list Z)
    (res : list (option A)) (i : Z) : result (list (option A)) :=
  match xs with
  | [] => Ok res
  | x :: xs' =>
      item <~ getitem (array self) x ;;
      match item with
      | Some kv =>
          res' <~ setitem res i (Some (proj kv)) ;;
          collect proj self xs' res' (i + 1)
      | None => collect proj self xs' res i
      end
  end.

(** [len(self)]: the builtin calls [__len__] and raises [ValueError] when
    the method returns a negative number, which [count] is after the
    deletion of a key that was not in the table. *)
Definition builtin_len (self : t) : result Z :=
  if __len__ self <? 0 then Raise ValueError else Ok (__len__ self).

Definition keys (self : t) : result (list (option str)) :=
  res <~ ArrayR None (len (array self)) ;;
  n <~ builtin_len self ;;
  collect fst self (range n) res 0.

Definition values (self : t) : result (list (option V)) :=
  res <~ ArrayR None (len (array self)) ;;
  n <~ builtin_len self ;;
  collect snd self (range n) res 0.

(** [_is_valid_key] returns [True] or raises, so the [if] around the body
    of [__getitem__] and of [__setitem__] always takes its branch. *)
Definition __getitem__ (self : t) (key : str) : result V :=
  _ <~ _is_valid_key key ;;
  position <~ hash self key ;;
  item <~ getitem (array self) position ;;
  match item with
  | None => Raise KeyError
  | Some (_, data) => Ok data
  end.

Definition __setitem__ (key : str) (data : V) : M t unit :=
  _ <- call (fun _ => _is_valid_key key) ;;
  position <- call (fun self => hash self key) ;;
  item <- call (fun self => getitem (array self) position) ;;
  (if item is None
   then modify (fun self => set_count (count self + 1) self)
   else ret tt) ;;
  a <- call (fun self => setitem (array self) position (Some (key, data))) ;;
  modify (set_array a).

Definition __delitem__ (key : str) : M t unit :=
  position <- call (fun self => hash self key) ;;
  a <- call (fun self => setitem (array self) position None) ;;
  modify (set_array a) ;;
  modify (fun self => set_count (count self - 1) self).

Definition __contains__ (self : t) (key : str) : result bool :=
  match __getitem__ self key with
  | Ok _ => Ok true
  | Raise KeyError => Ok false
  | Raise e => Raise e
  | OutOfFuel => OutOfFuel
  end.

Definition is_empty (self : t) : bool := count self =? 0.
Definition is_full (self : t) : bool := count self =? len (array self).

(** The states a table can be in: it is created by [__init__] and changed
    by [__setitem__] and [__delitem__] only, whatever their outcome. *)
Inductive reachable : t -> Prop :=
| reach_init self :
    __init__ = Ok self -> reachable self
| reach_set key data self r self' :
    reachable self -> __setitem__ key data self = (r, self') ->
    reachable self'
| reach_del key self r self' :
    reachable self -> __delitem__ key self = (r, self') ->
    reachable self'.

End Table.
End HashyPerfectionTable.

(** ** hashy_step_table.py *)

Module HashyStepTable.
Section Table.

Context {V : Type}.

(** A slot holds [None], the sentinel object that marks a deleted entry,
    or a tuple [(key, data)]. *)
Inductive slot : Type :=
| Empty
| Tombstone
| Occupied (key : str) (data : V).

Record t : Type := mk {
  TABLE_SIZES : list Z;
  size_index : nat;
  array : list slot;
  count : Z
}.

Definition set_size_index (i : nat) (self : t) : t :=
  {| TABLE_SIZES := TABLE_SIZES self; size_index := i;
     array := array self; count := count self |}.
Definition set_array (a : list slot) (self : t) : t :=
  {| TABLE_SIZES := TABLE_SIZES self; size_index := size_index self;
     array := a; count := count self |}.
Definition set_count (c : Z) (self : t) : t :=
  {| TABLE_SIZES := TABLE_SIZES self; size_index := size_index self;
     array := array self; count := c |}.

(** The class attributes. *)
Definition default_TABLE_SIZES : list Z :=
  [5; 13; 29; 53; 97; 193; 389; 769; 1543; 3079; 6151; 12289; 24593; 49157;
   98317; 196613; 393241; 786433; 1572869].
Definition HASH_BASE : Z := 31.

Definition __init__ (sizes : option (list Z)) : result t :=
  let TABLE_SIZES := if sizes is Some l then l else default_TABLE_SIZES in
  n <~ seq_getitem TABLE_SIZES 0 ;;
  a <~ ArrayR Empty n ;;
  Ok {| TABLE_SIZES := TABLE_SIZES; size_index := 0; array := a; count := 0 |}.

Definition table_size (self : t) : Z := len (array self).

(** The loop of [hash] over the characters that are left. *)
Fixpoint hash_loop (self : t) (key : str) (value a : Z) : result Z :=
  match key with
  | [] => Ok value
  | char :: key' =>
      value' <~ py_mod (ord char + a * value) (table_size self) ;;
      a' <~ py_mod (a * HASH_BASE) (table_size self - 1) ;;
      hash_loop self key' value' a'
  end.

Definition hash (self : t) (key : str) : result Z :=
  hash_loop self key 0 31415.

Definition hash2 (self : t) (key : str) : result Z :=
  h <~ hash self key ;;
  r <~ py_mod (h * 13 + len key) (table_size self - 1) ;;
  Ok (1 + r).

Definition __len__ (self : t) : Z := count self.

(** [item != self.sentinel and item[0] == key] *)
Definition holds_key (item : slot) (key : str) : bool :=
  match item with
  | Occupied k _ => bool_decide (k = key)
  | _ => false
  end.

(** The [while] loop of [_hashy_probe], started at [position]. One unit
    of [fuel] is used each time the loop goes round. *)
Fixpoint probe_loop (fuel : nat) (self : t) (key : str) (is_insert : bool)
    (step_size initial_position position : Z) : result Z :=
  item <~ getitem (array self) position ;;
  match item with
  | Empty => if is_insert then Ok position else Raise KeyError
  | _ =>
      if holds_key item key then Ok position
      else
        position' <~ py_mod (position + step_size) (table_size self) ;;
        if position' =? initial_position then
          if is_insert then Raise FullError else Raise KeyError
        else
          match fuel with
          | O => OutOfFuel
          | S fuel' =>
              probe_loop fuel' self key is_insert step_size
                initial_position position'
          end
  end.

Definition _hashy_probe (self : t) (key : str) (is_insert : bool) : result Z :=
  position <~ hash self key ;;
  step_size <~ hash2 self key ;;
  probe_loop (length (array self)) self key is_insert step_size position position.

(** [item[i]] for the content of a slot that is not [None]: the sentinel
    is a plain [object()] and cannot be subscripted. *)
Definition item_key (item : slot) : result str :=
  match item with
  | Occupied key _ => Ok key
  | _ => Raise TypeError
  end.
Definition item_data (item : slot) : result V :=
  match item with
  | Occupied _ data => Ok data
  | _ => Raise TypeError
  end.

(** The loop of [keys] and of [values]: [res] is the list built so far. *)
Fixpoint collect {A} (proj : slot -> result A) (self : t) (xs : list Z)
    (res : list A) : result (list A) :=
  match xs with
  | [] => Ok res
  | x :: xs' =>
      item <~ getitem (array self) x ;;
      match item with
      | Empty => collect proj self xs' res
      | _ =>
          y <~ proj item ;;
          collect proj self xs' (res ++ [y])
      end
  end.

Definition keys (self : t) : result (list str) :=
  collect item_key self (range (table_size self)) [].

Definition values (self : t) : result (list V) :=
  collect item_data self (range (table_size self)) [].

Definition __getitem__ (self : t) (key : str) : result V :=
  position <~ _hashy_probe self key false ;;
  item <~ getitem (array self) position ;;
  item_data item.

Definition __contains__ (self : t) (key : str) : result bool :=
  match __getitem__ self key with
  | Ok _ => Ok true
  | Raise KeyError => Ok false
  | Raise e => Raise e
  | OutOfFuel => OutOfFuel
  end.

(** The body of [_rehash], given the method that [self[key] = value]
    calls. *)
Definition _rehash_with (setitem_ : str -> V -> M t unit) : M t unit :=
  old_array <- call (fun self => Ok (array self)) ;;
  modify (fun self => set_size_index (S (size_index self)) self) ;;
  full <- call (fun self =>
    Ok (bool_decide (length (TABLE_SIZES self) <= size_index self)%nat)) ;;
  if (full : bool) then raise FullError
  else
    a <- call (fun self =>
      n <~ seq_getitem (TABLE_SIZES self) (Z.of_nat (size_index self)) ;;
      ArrayR Empty n) ;;
    modify (set_array a) ;;
    modify (set_count 0) ;;
    for_each old_array (fun item =>
      match item with
      | Occupied key value => setitem_ key value
      | _ => ret tt
      end).

(** [__setitem__] and [_rehash] call each other; [fuel] bounds how deep.
    The test [len(self) > self.table_size * 2 / 3] compares an integer
    with the float nearest to two thirds of the table size, which for a
    table of less than [2^52] slots is the comparison of [3 * len(self)]
    with [2 * self.table_size]. *)
Fixpoint __setitem__ (fuel : nat) (key : str) (data : V) : M t unit :=
  position <- call (fun self => _hashy_probe self key true) ;;
  item <- call (fun self => getitem (array self) position) ;;
  (if item is Empty
   then modify (fun self => set_count (count self + 1) self)
   else ret tt) ;;
  a <- call (fun self => setitem (array self) position (Occupied key data)) ;;
  modify (set_array a) ;;
  grow <- call (fun self => Ok (2 * table_size self <? 3 * __len__ self)) ;;
  if (grow : bool) then
    match fuel with
    | O => timeout
    | S fuel' => _rehash_with (__setitem__ fuel')
    end
  else ret tt.

Definition _rehash (fuel : nat) : M t unit :=
  _rehash_with (__setitem__ fuel).

Definition __delitem__ (key : str) : M t unit :=
  position <- call (fun self => _hashy_probe self key false) ;;
  item <- call (fun self => getitem (array self) position) ;;
  match item with
  | Empty | Tombstone => raise KeyError
  | Occupied _ _ =>
      a <- call (fun self => setitem (array self) position Tombstone) ;;
      modify (set_array a) ;;
      modify (fun self => set_count (count self - 1) self)
  end.

Definition is_empty (self : t) : bool := count self =? 0.
Definition is_full (self : t) : bool := count self =? table_size self.

(** *** Vocabulary of the properties *)

(** The states a table can be in: it is created by [__init__] and changed
    by [__setitem__] and [__delitem__] only. A call that raises leaves a
    state behind as well, and the caller can go on from it. *)
Inductive reachable : t -> Prop :=
| reach_init sizes self :
    __init__ sizes = Ok self -> reachable self
| reach_set fuel key data self r self' :
    reachable self -> __setitem__ fuel key data self = (r, self') ->
    r <> OutOfFuel -> reachable self'
| reach_del key self r self' :
    reachable self -> __delitem__ key self = (r, self') ->
    reachable self'.

Definition is_None (item : slot) : bool :=
  if item is Empty then true else false.

(** The state right after the two assignments of [__setitem__] that write
    [(key, data)] at [position], before the load is looked at. *)
Definition stored (self : t) (position : Z) (key : str) (data : V) : t :=
  set_array (<[Z.to_nat position := Occupied key data]> (array self))
    (if array self !! Z.to_nat position is Some Empty
     then set_count (count self + 1) self else self).

(** The position of the probe after [i] steps of
    [position = (position + step_size) % self.table_size]. *)
Fixpoint probe_seq (self : t) (step_size position : Z) (i : nat) : Z :=
  match i with
  | O => position
  | S i' => (probe_seq self step_size position i' + step_size) mod table_size self
  end.

(** The pairs that the occupied slots hold, in the order of the slots. *)
Definition entry (item : slot) : option (str * V) :=
  if item is Occupied key data then Some (key, data) else None.
Definition entries (a : list slot) : list (str * V) := omap entry a.

(** The number of slots that are not [None]. *)
Definition used (a : list slot) : Z :=
  len (filter (fun item => is_None item = false) a).

(** Every pair of the table is where a search for its key ends, and
    [count] is the number of pairs. *)
Definition wf (self : t) : Prop :=
  forall (p : nat) key data,
    array self !! p = Some (Occupied key data) ->
    _hashy_probe self key false = Ok (Z.of_nat p).

Definition inv (self : t) : Prop :=
  wf self /\ count self = len (entries (array self)).

(** Where the probe ends: on the key, or on [None] when inserting. *)
Definition ends_at (self : t) (key : str) (ins : bool) (q : Z) : Prop :=
  exists item, getitem (array self) q = Ok item /\
    (holds_key item key = true \/ (is_None item = true /\ ins = true)).

(** What a slot adds to the number of pairs and to the number of slots
    in use. *)
Definition weight (o : option (str * V)) : Z := if o is Some _ then 1 else 0.
Definition nonempty (item : slot) : Z := if is_None item then 0 else 1.

(** What [_rehash] does with each slot of the old array. *)
Definition reinsert (fuel : nat) (item : slot) : M t unit :=
  match item with
  | Occupied key value => __setitem__ fuel key value
  | _ => ret tt
  end.

(** The table that [_rehash] starts to fill. *)
Definition fresh (self : t) (n : Z) : t :=
  mk (TABLE_SIZES self) (S (size_index self)) (replicate (Z.to_nat n) Empty) 0.

(** The pairs of [a'] are [(key, data)] and the pairs of [a] that have
    another key. *)
Definition updated (a' a : list slot) (key : str) (data : V) : Prop :=
  forall k v,
    (k, v) ∈ entries a' <->
    (k = key /\ v = data) \/ (k <> key /\ (k, v) ∈ entries a).

(** The pairs of the table are those of the list [l]. *)
Definition contents (self : t) (l : list (str * V)) : Prop :=
  forall x, x ∈ entries (array self) <-> x ∈ l.

(** The array has one of the lengths of the ladder. *)
Definition sized (self : t) : Prop := table_size self ∈ TABLE_SIZES self.

(** Every capacity of the ladder has two slots or more. *)
Definition ladder_ok (self : t) : Prop :=
  forall n, n ∈ TABLE_SIZES self -> 2 <= n.

(** [fuel] is enough for [__setitem__] on [self]: one [_rehash] for each
    capacity that is left on the ladder, and one that finds it used up. *)
Definition enough (fuel : nat) (self : t) : Prop :=
  (1 <= fuel)%nat /\ (length (TABLE_SIZES self) <= fuel + size_index self)%nat.

(** What [__setitem__] keeps and does on a well-formed table. *)
Definition setitem_spec_at (fuel : nat) : Prop :=
  forall self key data r self',
    inv self -> __setitem__ fuel key data self = (r, self') ->
    inv self' /\ TABLE_SIZES self' = TABLE_SIZES self /\
    (size_index self <= size_index self')%nat /\
    (r = Ok tt -> updated (array self') (array self) key data).

(** How [__setitem__] can end. *)
Definition setitem_outcome_at (fuel : nat) : Prop :=
  forall self key data r self',
    __setitem__ fuel key data self = (r, self') ->
    TABLE_SIZES self' = TABLE_SIZES self /\
    (size_index self <= size_index self')%nat /\
    (sized self -> sized self') /\
    (sized self -> ladder_ok self ->
     r = Ok tt \/ r = Raise FullError \/ r = OutOfFuel).

(** A call of one of the two methods that change the table, and a run of
    such calls one after the other, whatever their outcome. The fuel of
    [run] is enough for every table. *)
Inductive op : Type :=
| Set_ (key : str) (data : V)
| Del (key : str).

Definition step (o : op) (self : t) : t :=
  match o with
  | Set_ key data => (__setitem__ (S (length (TABLE_SIZES self))) key data self).2
  | Del key => (__delitem__ key self).2
  end.

Definition run (ops : list op) (self : t) : t :=
  fold_left (fun self o => step o self) ops self.

End Table.

Arguments setitem_spec_at V fuel : clear implicits.
Arguments setitem_outcome_at V fuel : clear implicits.

End HashyStepTable.

(** ** Tables of the examples *)

Module Examples.
Import HashyStepTable.

Definition a : str := of_string "a".
Definition b : str := of_string "b".
Definition c : str := of_string "c".
Definition d : str := of_string "d".
Definition Goals : str := of_string "Goals".

(** The fresh table with the ladder [5, 13]. *)
Definition five_slots : @t Z := mk [5; 13] 0 (replicate 5 Empty) 0.

(** The same table after the key [a] was set and deleted five times. *)
Definition five_tombstones : @t Z :=
  run (concat (replicate 5 [Set_ a 1; Del a])) five_slots.

(** The table with the ladder [5] after three keys were set. *)
Definition three_of_five : @t Z :=
  run [Set_ a 1; Set_ b 2; Set_ c 3] (mk [5] 0 (replicate 5 Empty) 0).

(** The table with the default ladder after [a] was set and deleted. *)
Definition one_tombstone : @t Z :=
  run [Set_ a 1; Del a] (mk default_TABLE_SIZES 0 (replicate 5 Empty) 0).

(** The fresh fixed table, and an enumeration with the one value
    [Goals]. *)
Definition thirteen_slots : @HashyPerfectionTable.t Z :=
  HashyPerfectionTable.mk (replicate 13 None) 0.
Definition only_Goals (key : str) : bool := bool_decide (key = Goals).

End Examples.

(** ** A table that never deleted *)

Module StepTableVocabulary.
Import HashyStepTable.
Section Vocabulary.

Context {V : Type}.

(** A well-formed table with a ladder of primes, no mark of a deleted
    entry in its slots and at most two thirds of its slots taken: the
    state of a table that was created with such a ladder and only had
    keys set. *)
Definition healthy (self : @t V) : Prop :=
  inv self /\
  (Tombstone ∉ array self) /\
  Z.prime (table_size self) /\
  3 * count self <= 2 * table_size self /\
  (forall n, n ∈ TABLE_SIZES self -> Z.prime n).

(** How [__setitem__] ends on such a table: it succeeds and leaves such
    a table, or it raises [FullError] with [size_index] past the ladder. *)
Definition healthy_outcome (r : result unit) (self' : @t V) : Prop :=
  (r = Ok tt /\ healthy self') \/
  (r = Raise FullError /\ (length (TABLE_SIZES self') <= size_index self')%nat).

End Vocabulary.
End StepTableVocabulary.

(** ** More tables for the examples *)

Module MoreExamples.
Import HashyStepTable Examples.

Definition e : str := of_string "e".

(** The table with the ladder [5, 13] after three keys were set. *)
Definition three_set : @t Z :=
  run [Set_ a 1; Set_ b 2; Set_ c 3] five_slots.

(** The same ladder, with four slots taken and one of them deleted. *)
Definition three_and_tombstone : @t Z :=
  run [Set_ a 1; Set_ b 2; Del a; Set_ c 3; Set_ d 4] five_slots.

(** The new table with the ladder [1]. *)
Definition one_slot : @t Z := mk [1] 0 [Empty] 0.

(** A key with the hash of [a] in the fixed table, an enumeration that
    has every string, and the fixed table after [a] was set. *)
Definition key_n : str := of_string "n".
Definition any_key (key : str) : bool := true.
Definition one_stat : @HashyPerfectionTable.t Z :=
  (HashyPerfectionTable.__setitem__ any_key a 1 thirteen_slots).2.

(** The fixed table after [a] was deleted from the new table. *)
Definition minus_one : @HashyPerfectionTable.t Z :=
  (HashyPerfectionTable.__delitem__ a thirteen_slots).2.

End MoreExamples.

(** ** The pairs and the listing of the fixed table *)

Module FixedTableVocabulary.
Import HashyPerfectionTable.
Section Vocabulary.

Context {V : Type}.

(** The pairs that the slots hold, in the order of the slots. *)
Definition pairs (a : list (option (str * V))) : list (str * V) := omap id a.

(** An array as long as the one of the table that starts with a component
    of the pairs among the first [len(self)] slots and goes on with
    [None]. *)
Definition listed {A} (proj : str * V -> A) (self : @t V) : list (option A) :=
  let found := proj <$> pairs (take (Z.to_nat (__len__ self)) (array self)) in
  (Some <$> found) ++ replicate (length (array self) - length found) None.

End Vocabulary.
End FixedTableVocabulary.

(** ** [player.py] *)

Module Player.
Section Player.

(** [constants.py] is not among the sources. The enumeration
    [PlayerStats] is taken as a type of members with the [value] of each
    member and the list [members] of the members in the order of their
    definition, which is the order in which [for stat in PlayerStats] goes
    through them; [PlayerPosition] is any type. *)
Context {PlayerStats PlayerPosition : Type}.
Variable value : PlayerStats -> str.
Variable members : list PlayerStats.

(** [PlayerStats(key)] finds a member when [key] is the value of one. *)
Definition by_value (key : str) : bool :=
  bool_decide (key ∈ value <$> members).

Record t : Type := mk {
  name : str;
  position : PlayerPosition;
  age : Z;
  player_statistics : @HashyPerfectionTable.t Z
}.

Definition set_player_statistics (table : @HashyPerfectionTable.t Z) (self : t) : t :=
  {| name := name self; position := position self; age := age self;
     player_statistics := table |}.

(** [self.player_statistics[statistic.value] = value] *)
Definition __setitem__ (statistic : PlayerStats) (v : Z) : M t unit :=
  fun self =>
    let (r, table) :=
      HashyPerfectionTable.__setitem__ by_value (value statistic) v
        (player_statistics self) in
    (r, set_player_statistics table self).

Definition __getitem__ (self : t) (statistic : PlayerStats) : result Z :=
  HashyPerfectionTable.__getitem__ by_value (player_statistics self) (value statistic).

Definition reset_stats : M t unit :=
  for_each members (fun stat => __setitem__ stat 0).

(** The constructor returns the object it has built, or raises. *)
Definition __init__ (name : str) (position : PlayerPosition) (age : Z) : result t :=
  if age <? 18 then Raise ValueError
  else
    table <~ HashyPerfectionTable.__init__ ;;
    match reset_stats
            {| name := name; position := position; age := age;
               player_statistics := table |} with
    | (Ok _, self) => Ok self
    | (Raise e, _) => Raise e
    | (OutOfFuel, _) => OutOfFuel
    end.

Definition get_name (self : t) : str := name self.
Definition get_position (self : t) : PlayerPosition := position self.
Definition get_statistics (self : t) : @HashyPerfectionTable.t Z :=
  player_statistics self.

End Player.

End Player.

(** An enumeration of three statistics for the examples. *)
Module ExampleStats.

Inductive stat : Set := GOALS | ASSISTS | TACKLES.

Definition value (s : stat) : str :=
  match s with
  | GOALS => of_string "Goals"
  | ASSISTS => of_string "Assists"
  | TACKLES => of_string "Tackles"
  end.

Definition members : list stat := [GOALS; ASSISTS; TACKLES].

(** A player before the statistics are set. *)
Definition ann : @Player.t unit :=
  Player.mk (of_string "Ann") tt 20 (HashyPerfectionTable.mk (replicate 13 None) 0).

End ExampleStats.

(** * Properties *)

(** ** Sequences, arrays and remainders *)

Ltac zbool :=
  repeat match goal with
  | |- context [?a <? ?b] => destruct (Z.ltb_spec a b)
  | |- context [?a <=? ?b] => destruct (Z.leb_spec a b)
  | |- context [?a =? ?b] => destruct (Z.eqb_spec a b)
  end.

Section PyFacts.
Context {A : Type}.
Implicit Types (l a : list A) (i : Z).

Lemma seq_getitem_nil i : seq_getitem (@nil A) i = Raise IndexError.
Proof. unfold seq_getitem, len. simpl. zbool; simpl; try reflexivity; lia. Qed.

Lemma seq_getitem_ok l i :
  - len l <= i < len l -> exists x, seq_getitem l i = Ok x.
Proof.
  unfold seq_getitem, len. intros H.
  set (j := if i <? 0 then _ else _).
  assert (0 <= j < Z.of_nat (length l)) as Hj by (subst j; zbool; lia).
  destruct (Z.leb_spec 0 j); [|lia]. destruct (Z.ltb_spec j (Z.of_nat (length l))); [|lia].
  simpl. destruct (l !! Z.to_nat j) eqn:E; eauto.
  apply lookup_ge_None in E. lia.
Qed.

Lemma seq_getitem_nat l (n : nat) :
  seq_getitem l (Z.of_nat n) =
    match l !! n with Some x => Ok x | None => Raise IndexError end.
Proof.
  unfold seq_getitem, len.
  destruct (Z.ltb_spec (Z.of_nat n) 0); [lia|]. rewrite Nat2Z.id.
  destruct (l !! n) eqn:E.
  - apply lookup_lt_Some in E. zbool; simpl; try lia. reflexivity.
  - destruct (_ && _); reflexivity.
Qed.

Lemma getitem_Ok a i x :
  getitem a i = Ok x <-> 0 <= i /\ a !! Z.to_nat i = Some x.
Proof.
  unfold getitem, len. split.
  - zbool; simpl; try discriminate. destruct (a !! _); [|discriminate]. intros [= ->]. auto.
  - intros [H1 H2]. pose proof (lookup_lt_Some _ _ _ H2).
    zbool; simpl; try lia. rewrite H2. reflexivity.
Qed.

Lemma getitem_in_range a i :
  0 <= i < len a -> exists x, getitem a i = Ok x /\ a !! Z.to_nat i = Some x.
Proof.
  intros H. unfold len in H. destruct (a !! Z.to_nat i) eqn:E.
  - exists a0. split; [apply getitem_Ok|]; auto. split; [lia|auto].
  - apply lookup_ge_None in E. lia.
Qed.

Lemma setitem_in_range a i x :
  0 <= i < len a -> setitem a i x = Ok (<[Z.to_nat i := x]> a).
Proof. unfold setitem. intros. zbool; simpl; try lia. reflexivity. Qed.

Lemma py_mod_Ok x m : m <> 0 -> py_mod x m = Ok (x mod m).
Proof. unfold py_mod. intros. zbool; [lia | reflexivity]. Qed.

Lemma len_insert a (n : nat) x : len (<[n := x]> a) = len a.
Proof. unfold len. rewrite length_insert. reflexivity. Qed.

Lemma len_replicate (n : nat) (x : A) : len (replicate n x) = Z.of_nat n.
Proof. unfold len. rewrite length_replicate. reflexivity. Qed.
End PyFacts.

(** Two capacities of the ladder. *)

Lemma prime_5 : Z.prime 5.
Proof.
  split; [lia|]. intros n Hn [k Hk].
  assert (n = 2 \/ n = 3 \/ n = 4) as [-> | [-> | ->]] by lia; lia.
Qed.

Lemma prime_13 : Z.prime 13.
Proof.
  split; [lia|]. intros n Hn [k Hk].
  assert (n = 2 \/ n = 3 \/ n = 4 \/ n = 5 \/ n = 6 \/ n = 7 \/ n = 8 \/
          n = 9 \/ n = 10 \/ n = 11 \/ n = 12)
    as [-> | [-> | [-> | [-> | [-> | [-> | [-> | [-> | [-> | [-> | ->]]]]]]]]]]
    by lia; lia.
Qed.

(** ** The fixed table *)

Module FixedKeyTable.
Import HashyPerfectionTable.
Section Facts.

Context {V : Type}.
Variable PlayerStats : str -> bool.
Implicit Types (self : @t V) (key : str) (data : V).

Lemma perfect_hash_Ok self key :
  key <> [] -> 0 < table_size self ->
  exists position,
    hash self key = Ok position /\ 0 <= position < table_size self.
Proof.
  intros Hk Hn. unfold hash.
  assert (0 < len key) as Hl
    by (unfold len; destruct key; [congruence | simpl; lia]).
  destruct (seq_getitem_ok key 0) as [c0 ->]; [lia|].
  destruct (seq_getitem_ok key (-1)) as [c1 ->]; [lia|].
  destruct (seq_getitem_ok key (len key / 2)) as [c2 ->].
  { pose proof (Z.div_pos (len key) 2). pose proof (Z.div_lt (len key) 2). lia. }
  simpl. rewrite py_mod_Ok by lia. eexists. split; [reflexivity|].
  apply Z.mod_pos_bound. assumption.
Qed.

Lemma perfect_hash_size self self' key :
  table_size self = table_size self' -> hash self key = hash self' key.
Proof. intros E. unfold hash. rewrite E. reflexivity. Qed.

Lemma perfect_setitem_size key data self r self' :
  __setitem__ PlayerStats key data self = (r, self') ->
  table_size self' = table_size self.
Proof.
  unfold __setitem__, bind, call, modify, ret, _is_valid_key.
  destruct (PlayerStats key); [|intros [= <- <-]; reflexivity].
  destruct (hash self key) as [position| |];
    try (intros [= <- <-]; reflexivity).
  destruct (getitem (array self) position) as [item| |];
    try (intros [= <- <-]; reflexivity).
  destruct item; simpl; unfold setitem; zbool; simpl; intros [= <- <-];
    try reflexivity; unfold table_size; simpl; apply len_insert.
Qed.

Lemma perfect_delitem_size key self r self' :
  __delitem__ key self = (r, self') -> table_size self' = table_size self.
Proof.
  unfold __delitem__, bind, call, modify, ret.
  destruct (hash self key) as [position| |];
    try (intros [= <- <-]; reflexivity).
  unfold setitem. zbool; simpl; intros [= <- <-]; try reflexivity.
  unfold table_size. simpl. apply len_insert.
Qed.

(** The capacity never changes after construction. *)
Lemma reachable_size self : reachable PlayerStats self -> table_size self = 13.
Proof.
  induction 1 as [self H | key data self r self' _ IH H | key self r self' _ IH H].
  - injection H as <-. reflexivity.
  - rewrite (perfect_setitem_size _ _ _ _ _ H). exact IH.
  - rewrite (perfect_delitem_size _ _ _ _ H). exact IH.
Qed.

Lemma perfect_delitem_Ok self key :
  key <> [] -> 0 < table_size self ->
  exists position,
    hash self key = Ok position /\ 0 <= position < table_size self /\
    __delitem__ key self =
      (Ok tt, mk (<[Z.to_nat position := None]> (array self)) (count self - 1)).
Proof.
  intros Hk Hn. destruct (perfect_hash_Ok self key Hk Hn) as (position & Hh & Hp).
  exists position. split; [exact Hh|]. split; [exact Hp|].
  unfold __delitem__, bind, call, modify. rewrite Hh.
  rewrite setitem_in_range by exact Hp. reflexivity.
Qed.

Lemma perfect_delitem_repeat (n : nat) self key :
  key <> [] -> 0 < table_size self ->
  exists self',
    for_each (replicate n key) __delitem__ self = (Ok tt, self') /\
    table_size self' = table_size self /\
    count self' = count self - Z.of_nat n.
Proof.
  intros Hk. revert self. induction n as [|n IH]; intros self Hn.
  - exists self. simpl. unfold ret. repeat split; lia.
  - destruct (perfect_delitem_Ok self key Hk Hn) as (position & _ & _ & Hd).
    pose proof (perfect_delitem_size _ _ _ _ Hd) as Hs.
    destruct (IH _ ltac:(rewrite Hs; exact Hn)) as (self' & Hf & Hs' & Hc).
    exists self'. simpl. unfold bind at 1. rewrite Hd, Hf.
    split; [reflexivity|]. split; [congruence|]. rewrite Hc. simpl. lia.
Qed.

Lemma perfect_set_get self key data self' :
  __setitem__ PlayerStats key data self = (Ok tt, self') ->
  __getitem__ PlayerStats self' key = Ok data.
Proof.
  intros H. pose proof (perfect_setitem_size _ _ _ _ _ H) as Hs. revert H.
  unfold __setitem__, __getitem__, bind, call, modify, ret, _is_valid_key.
  destruct (PlayerStats key); [|discriminate]. simpl.
  rewrite (perfect_hash_size self' self key Hs).
  destruct (hash self key) as [position| |]; try discriminate. simpl.
  destruct (getitem (array self) position) as [item| |] eqn:Hg; try discriminate.
  apply getitem_Ok in Hg as [Hp Hg]. apply lookup_lt_Some in Hg.
  assert (setitem_eq : forall a : list (option (str * V)),
    length a = length (array self) ->
    setitem a position (Some (key, data)) = Ok (<[Z.to_nat position := Some (key, data)]> a)).
  { intros a Ha. apply setitem_in_range. unfold len. lia. }
  assert (forall a : list (option (str * V)),
    length a = length (array self) ->
    getitem (<[Z.to_nat position := Some (key, data)]> a) position = Ok (Some (key, data)))
    as getitem_eq.
  { intros a Ha. apply getitem_Ok. split; [lia|].
    apply list_lookup_insert_eq. lia. }
  destruct item; simpl; rewrite setitem_eq by reflexivity; intros [= <-]; simpl;
    rewrite getitem_eq by reflexivity; reflexivity.
Qed.

(** C6. [delete(key)] of the fixed table, for a key that is not empty,
    never raises: it sets the slot of the key to [None] and takes one off
    [count], whatever the slot held, so that deleting a key [n] times in
    a row takes [n] off [count] and drives it below zero. *)
Theorem delete_absent_decrements self key :
  reachable PlayerStats self -> key <> [] ->
  (exists position,
     hash self key = Ok position /\ 0 <= position < 13 /\
     __delitem__ key self =
       (Ok tt, mk (<[Z.to_nat position := None]> (array self)) (count self - 1))) /\
  (forall n : nat, exists self',
     for_each (replicate n key) __delitem__ self = (Ok tt, self') /\
     count self' = count self - Z.of_nat n).
Proof.
  intros Hr Hk. pose proof (reachable_size self Hr) as Hs. split.
  - rewrite <- Hs. apply perfect_delitem_Ok; [exact Hk | lia].
  - intros n. destruct (perfect_delitem_repeat n self key Hk) as (self' & ? & _ & ?);
      [lia | eauto].
Qed.

(** C10. [delete] of the fixed table does not validate its key, and
    [hash] indexes [key[0]]: for the empty key the call raises the
    [IndexError] of that index, not a [KeyError], and leaves the table as
    it was. *)
Theorem delete_empty_key_IndexError self :
  hash self [] = Raise IndexError /\
  __delitem__ [] self = (Raise IndexError, self).
Proof.
  assert (hash self [] = Raise IndexError) as H.
  { unfold hash. rewrite seq_getitem_nil. reflexivity. }
  split; [exact H|]. unfold __delitem__, bind, call. rewrite H. reflexivity.
Qed.

End Facts.

(** The fresh table, with every key taken for a statistic, and the key
    [Goals]. *)
Lemma delete_absent_decrements_witness :
  let self : @t Z := mk (replicate 13 None) 0 in
  let key := of_string "Goals" in
  reachable (fun _ => true) self /\ key <> [] /\
  (exists position,
     hash self key = Ok position /\ 0 <= position < 13 /\
     __delitem__ key self =
       (Ok tt, mk (<[Z.to_nat position := None]> (array self)) (count self - 1))) /\
  (forall n : nat, exists self',
     for_each (replicate n key) __delitem__ self = (Ok tt, self') /\
     count self' = count self - Z.of_nat n).
Proof.
  intros self key.
  assert (reachable (fun _ => true) self) as Hr by (apply reach_init; reflexivity).
  assert (key <> []) as Hk by discriminate.
  split; [exact Hr|]. split; [exact Hk|].
  exact (delete_absent_decrements (fun _ => true) self key Hr Hk).
Defined.

End FixedKeyTable.
(** ** The dynamic table *)

Module DynamicHashTable.
Import HashyStepTable.
Section Facts.

Context {V : Type}.
Implicit Types (self cur : @t V) (key : str) (data : V) (item : @slot V).
Implicit Types (a : list (@slot V)).

(** *** The two hash functions *)

Lemma hash_loop_size self self' key value c :
  table_size self = table_size self' ->
  hash_loop self key value c = hash_loop self' key value c.
Proof.
  intros E. revert value c.
  induction key as [|char key IH]; intros value c; simpl; [reflexivity|].
  rewrite E. destruct (py_mod (ord char + c * value) _); simpl; try reflexivity.
  destruct (py_mod (c * HASH_BASE) _); simpl; auto.
Qed.

Lemma hash_size self self' key :
  table_size self = table_size self' -> hash self key = hash self' key.
Proof. apply hash_loop_size. Qed.

Lemma hash2_size self self' key :
  table_size self = table_size self' -> hash2 self key = hash2 self' key.
Proof. intros E. unfold hash2. rewrite (hash_size _ _ _ E), E. reflexivity. Qed.

Lemma hash_loop_Ok self key value c :
  2 <= table_size self -> 0 <= value < table_size self ->
  exists h, hash_loop self key value c = Ok h /\ 0 <= h < table_size self.
Proof.
  intros Hn. revert value c.
  induction key as [|char key IH]; intros value c Hv; simpl.
  - eauto.
  - rewrite !py_mod_Ok by lia. simpl. apply IH. apply Z.mod_pos_bound. lia.
Qed.

Lemma hash_Ok self key :
  2 <= table_size self ->
  exists h, hash self key = Ok h /\ 0 <= h < table_size self.
Proof. intros. apply hash_loop_Ok; lia. Qed.

Lemma hash2_Ok self key :
  2 <= table_size self ->
  exists s, hash2 self key = Ok s /\ 1 <= s <= table_size self - 1.
Proof.
  intros Hn. unfold hash2. destruct (hash_Ok self key Hn) as (h & -> & Hh). simpl.
  rewrite py_mod_Ok by lia. simpl. eexists. split; [reflexivity|].
  pose proof (Z.mod_pos_bound (h * 13 + len key) (table_size self - 1)). lia.
Qed.

(** Whatever the table, [hash] only raises [ZeroDivisionError]. *)
Lemma hash_loop_cases self key value c :
  (exists h, hash_loop self key value c = Ok h) \/
  hash_loop self key value c = Raise ZeroDivisionError.
Proof.
  revert value c. induction key as [|char key IH]; intros value c; simpl; [eauto|].
  unfold py_mod.
  destruct (Z.eqb_spec (table_size self) 0); simpl; [auto|].
  destruct (Z.eqb_spec (table_size self - 1) 0); simpl; [auto|]. apply IH.
Qed.

(** *** The probe *)

(** One turn of the loop. *)
Lemma probe_loop_eq fuel self key ins s i p :
  probe_loop fuel self key ins s i p =
    (item <~ getitem (array self) p ;;
     if is_None item then (if ins then Ok p else Raise KeyError)
     else if holds_key item key then Ok p
     else
       p' <~ py_mod (p + s) (table_size self) ;;
       if p' =? i then (if ins then Raise FullError else Raise KeyError)
       else match fuel with
            | O => OutOfFuel
            | S fuel' => probe_loop fuel' self key ins s i p'
            end).
Proof.
  destruct fuel; simpl; destruct (getitem (array self) p) as [[| |k v]| |];
    reflexivity.
Qed.

Lemma holds_key_not_None item key : holds_key item key = true -> is_None item = false.
Proof. destruct item; simpl; congruence. Qed.

Lemma probe_loop_ends fuel self key ins s i p q :
  probe_loop fuel self key ins s i p = Ok q -> ends_at self key ins q.
Proof.
  revert p. induction fuel as [|fuel IH]; intros p; rewrite probe_loop_eq;
    destruct (getitem (array self) p) as [item| |] eqn:Hg; simpl; try discriminate;
    (destruct (is_None item) eqn:Hn;
     [ destruct ins; [|discriminate]; intros [= <-]; exists item; auto | ]);
    (destruct (holds_key item key) eqn:Hk;
     [ intros [= <-]; exists item; auto | ]);
    (destruct (py_mod (p + s) (table_size self)) as [p'| |]; simpl; try discriminate);
    (destruct (p' =? i); [destruct ins; discriminate|]).
  - discriminate.
  - apply IH.
Qed.

(** Two runs of the loop that skip the same slots end at the same slot. *)
Lemma probe_loop_sim fuel self self' key ins ins' s i p q :
  len (array self) = len (array self') ->
  (forall p item,
     getitem (array self) p = Ok item ->
     is_None item = false -> holds_key item key = false ->
     exists item', getitem (array self') p = Ok item' /\
       is_None item' = false /\ holds_key item' key = false) ->
  ends_at self' key ins' q ->
  probe_loop fuel self key ins s i p = Ok q ->
  probe_loop fuel self' key ins' s i p = Ok q.
Proof.
  intros Hlen Hskip (item_q & Hq & Hend). revert p.
  assert (probe_loop_here : forall fuel, probe_loop fuel self' key ins' s i q = Ok q).
  { intros f. rewrite probe_loop_eq, Hq. simpl.
    destruct Hend as [Hk | [Hn ->]].
    - rewrite (holds_key_not_None _ _ Hk), Hk. reflexivity.
    - rewrite Hn. reflexivity. }
  induction fuel as [|fuel IH]; intros p H; rewrite probe_loop_eq in H;
    destruct (getitem (array self) p) as [item| |] eqn:Hg; simpl in H;
    try discriminate;
    (destruct (is_None item) eqn:Hn;
     [ destruct ins; [|discriminate]; injection H as <-; apply probe_loop_here | ]);
    (destruct (holds_key item key) eqn:Hk;
     [ injection H as <-; apply probe_loop_here | ]);
    destruct (Hskip p item Hg Hn Hk) as (item' & Hg' & Hn' & Hk');
    rewrite probe_loop_eq, Hg'; simpl; rewrite Hn', Hk';
    unfold table_size in *; rewrite <- Hlen;
    (destruct (py_mod (p + s) (len (array self))) as [p'| |]; simpl in *;
     try discriminate);
    (destruct (p' =? i); [destruct ins; discriminate|]).
  - discriminate.
  - apply IH. exact H.
Qed.

(** The position after [j] steps, in closed form. *)
Lemma probe_seq_closed self s h (j : nat) :
  0 < table_size self -> 0 <= h < table_size self ->
  probe_seq self s h j = (h + Z.of_nat j * s) mod table_size self.
Proof.
  intros Hn Hh. induction j as [|j IH].
  - simpl. rewrite Z.add_0_r, Z.mod_small; lia.
  - cbn [probe_seq]. rewrite IH, Zplus_mod_idemp_l. f_equal. lia.
Qed.

Lemma probe_seq_return self s h :
  0 < table_size self -> 0 <= h < table_size self ->
  probe_seq self s h (Z.to_nat (table_size self)) = h.
Proof.
  intros Hn Hh. rewrite probe_seq_closed by assumption.
  rewrite Z2Nat.id by lia. rewrite (Z.mul_comm _ s), Z_mod_plus_full.
  apply Z.mod_small. lia.
Qed.

Lemma probe_seq_range self s h (j : nat) :
  0 <= h < table_size self ->
  0 <= probe_seq self s h j < table_size self.
Proof.
  intros Hh. destruct j as [|j]; simpl; [exact Hh|].
  apply Z.mod_pos_bound. lia.
Qed.

(** The loop comes back to where it started before the fuel is used up. *)
Lemma probe_loop_fuel fuel self key ins s h (j : nat) :
  0 <= h < table_size self ->
  (j < length (array self))%nat -> (length (array self) <= S (j + fuel))%nat ->
  probe_loop fuel self key ins s h (probe_seq self s h j) <> OutOfFuel.
Proof.
  intros Hh. revert j. induction fuel as [|fuel IH]; intros j Hj Hf;
    rewrite probe_loop_eq;
    destruct (getitem_in_range (array self) (probe_seq self s h j)
                (probe_seq_range self s h j Hh)) as (item & -> & _);
    simpl;
    (destruct (is_None item); [destruct ins; discriminate|]);
    (destruct (holds_key item key); [discriminate|]);
    (rewrite py_mod_Ok by lia); simpl;
    change ((probe_seq self s h j + s) mod table_size self)
      with (probe_seq self s h (S j));
    (destruct (Z.eqb_spec (probe_seq self s h (S j)) h) as [|Hne];
      [destruct ins; discriminate|]).
  - exfalso. apply Hne. replace (S j) with (Z.to_nat (table_size self))
      by (unfold table_size, len; lia).
    apply probe_seq_return; lia.
  - apply IH; [|lia].
    destruct (decide (S j = length (array self))) as [E|]; [|lia].
    exfalso. apply Hne. replace (S j) with (Z.to_nat (table_size self))
      by (unfold table_size, len; lia).
    apply probe_seq_return; lia.
Qed.

Lemma hash_not_OutOfFuel self key : hash self key <> OutOfFuel.
Proof.
  unfold hash. destruct (hash_loop_cases self key 0 31415) as [[h ->] | ->];
    discriminate.
Qed.

Lemma hash2_not_OutOfFuel self key : hash2 self key <> OutOfFuel.
Proof.
  unfold hash2. pose proof (hash_not_OutOfFuel self key).
  destruct (hash self key) as [h| |]; simpl; try congruence.
  unfold py_mod. destruct (_ =? 0); discriminate.
Qed.

(** [_hashy_probe] always comes to an end. *)
Lemma _hashy_probe_terminates self key ins :
  _hashy_probe self key ins <> OutOfFuel.
Proof.
  unfold _hashy_probe.
  pose proof (hash_not_OutOfFuel self key) as Hh.
  pose proof (hash2_not_OutOfFuel self key) as Hs.
  destruct (Z.le_gt_cases 2 (table_size self)) as [Hn|Hn].
  - destruct (hash_Ok self key Hn) as (h & -> & Hb).
    destruct (hash2 self key) as [s| |]; simpl; try congruence.
    apply (probe_loop_fuel _ self key ins s h 0); unfold table_size, len in *; lia.
  - destruct (hash self key) as [h| |]; simpl; try congruence.
    destruct (hash2 self key) as [s| |] eqn:Es; simpl; try congruence.
    rewrite probe_loop_eq.
    destruct (getitem (array self) h) as [item| |] eqn:Hg; simpl; try discriminate.
    + exfalso. apply getitem_Ok in Hg as [_ Hg]. apply lookup_lt_Some in Hg.
      revert Es. unfold hash2. destruct (hash self key); simpl; try discriminate.
      unfold py_mod. destruct (Z.eqb_spec (table_size self - 1) 0); simpl;
        [discriminate|]. unfold table_size, len in *. lia.
    + exfalso. revert Hg. unfold getitem.
      destruct (_ && _); [destruct (_ !! _)|]; discriminate.
Qed.

(** *** A prime capacity: the probe goes through every slot *)

Lemma probe_seq_divide self s h (i j : nat) :
  Z.prime (table_size self) -> 1 <= s < table_size self ->
  0 <= h < table_size self ->
  probe_seq self s h i = probe_seq self s h j ->
  (table_size self | Z.of_nat i - Z.of_nat j).
Proof.
  intros Hp Hs Hh. rewrite !probe_seq_closed by lia. intros E.
  apply Z.cong_iff_ex in E as [k E].
  assert (table_size self | (Z.of_nat i - Z.of_nat j) * s) as Hd
    by (exists k; lia).
  apply Z.divide_prime_mul in Hd as [Hd | Hd]; [exact Hd | | exact Hp].
  apply Z.divide_pos_le in Hd; lia.
Qed.

Lemma probe_seq_inj self s h (i j : nat) :
  Z.prime (table_size self) -> 1 <= s < table_size self ->
  0 <= h < table_size self ->
  (i < length (array self))%nat -> (j < length (array self))%nat ->
  probe_seq self s h i = probe_seq self s h j -> i = j.
Proof.
  intros Hp Hs Hh Hi Hj E.
  destruct (probe_seq_divide self s h i j Hp Hs Hh E) as [k Hk].
  unfold table_size, len in *.
  assert (k = 0) by nia. lia.
Qed.

Lemma probe_seq_covers self s h p :
  Z.prime (table_size self) -> 1 <= s < table_size self ->
  0 <= h < table_size self -> 0 <= p < table_size self ->
  exists i : nat, (i < length (array self))%nat /\ probe_seq self s h i = p.
Proof.
  intros Hp Hs Hh Hr.
  set (n := length (array self)).
  set (visited := probe_seq self s h <$> seq 0 n).
  set (slots := Z.of_nat <$> seq 0 n).
  assert (visited ≡ₚ slots) as Hperm.
  { apply submseteq_length_Permutation.
    - apply NoDup_submseteq.
      + apply NoDup_fmap_2_strong; [|apply NoDup_seq].
        intros i j Hi Hj. apply elem_of_seq in Hi, Hj.
        apply probe_seq_inj; auto; lia.
      + intros x Hx. apply list_elem_of_fmap in Hx as (i & -> & Hi).
        pose proof (probe_seq_range self s h i Hh) as Hx.
        apply list_elem_of_fmap. exists (Z.to_nat (probe_seq self s h i)).
        split; [lia|]. apply elem_of_seq. unfold table_size, len in Hx. lia.
    - unfold visited, slots. rewrite !length_fmap. lia. }
  assert (p ∈ visited) as Hin.
  { rewrite Hperm. apply list_elem_of_fmap. exists (Z.to_nat p).
    split; [lia|]. apply elem_of_seq. unfold table_size, len in Hr. lia. }
  apply list_elem_of_fmap in Hin as (i & -> & Hi). apply elem_of_seq in Hi.
  exists i. split; [lia | reflexivity].
Qed.

(** What [_hashy_probe] can come to when the table has two slots or more. *)
Lemma probe_loop_cases fuel self key ins s i p :
  0 <= p < table_size self ->
  (exists q, probe_loop fuel self key ins s i p = Ok q /\ 0 <= q < table_size self) \/
  probe_loop fuel self key ins s i p = Raise (if ins then FullError else KeyError) \/
  probe_loop fuel self key ins s i p = OutOfFuel.
Proof.
  revert p. induction fuel as [|fuel IH]; intros p Hp; rewrite probe_loop_eq;
    destruct (getitem_in_range (array self) p Hp) as (item & -> & _); simpl;
    (destruct (is_None item); [destruct ins; eauto|]);
    (destruct (holds_key item key); [eauto|]);
    (rewrite py_mod_Ok by lia); simpl;
    (destruct (_ =? i); [destruct ins; auto|]).
  - auto.
  - apply IH. apply Z.mod_pos_bound. lia.
Qed.

Lemma _hashy_probe_cases self key ins :
  2 <= table_size self ->
  (exists q, _hashy_probe self key ins = Ok q /\ 0 <= q < table_size self) \/
  _hashy_probe self key ins = Raise (if ins then FullError else KeyError).
Proof.
  intros Hn. pose proof (_hashy_probe_terminates self key ins) as Ht. revert Ht.
  unfold _hashy_probe.
  destruct (hash_Ok self key Hn) as (h & -> & Hh).
  destruct (hash2_Ok self key Hn) as (s & -> & Hs). simpl.
  destruct (probe_loop_cases (length (array self)) self key ins s h h Hh)
    as [H | [H | H]]; auto. congruence.
Qed.

(** When the probe for an insertion gives up, every slot from the current
    one back round to the first one held something. *)
Lemma probe_loop_full fuel self key s h (j : nat) :
  0 <= h < table_size self ->
  probe_loop fuel self key true s h (probe_seq self s h j) = Raise FullError ->
  exists m : nat, (j <= m)%nat /\ probe_seq self s h (S m) = h /\
    forall i : nat, (j <= i <= m)%nat ->
      exists item, getitem (array self) (probe_seq self s h i) = Ok item /\
        is_None item = false.
Proof.
  intros Hh. revert j. induction fuel as [|fuel IH]; intros j H;
    rewrite probe_loop_eq in H;
    destruct (getitem_in_range (array self) (probe_seq self s h j)
                (probe_seq_range self s h j Hh)) as (item & Hg & _);
    rewrite Hg in H; simpl in H;
    (destruct (is_None item) eqn:Hn; [discriminate|]);
    (destruct (holds_key item key); [discriminate|]);
    (rewrite py_mod_Ok in H by lia); simpl in H;
    change ((probe_seq self s h j + s) mod table_size self)
      with (probe_seq self s h (S j)) in H;
    (destruct (Z.eqb_spec (probe_seq self s h (S j)) h) as [E|_];
     [ exists j; split; [lia|]; split; [exact E|];
       intros i Hi; replace i with j by lia; eauto | ]);
    try discriminate.
  destruct (IH (S j) H) as (m & Hm & Hret & Hall).
  exists m. split; [lia|]. split; [exact Hret|].
  intros i Hi. destruct (decide (i = j)) as [->|]; [eauto|]. apply Hall. lia.
Qed.

Lemma _hashy_probe_full self key item :
  Z.prime (table_size self) ->
  _hashy_probe self key true = Raise FullError ->
  item ∈ array self -> is_None item = false.
Proof.
  intros Hp H Hin. pose proof (Z.prime_ge_2 _ Hp) as Hn. revert H.
  unfold _hashy_probe.
  destruct (hash_Ok self key Hn) as (h & -> & Hh).
  destruct (hash2_Ok self key Hn) as (s & -> & Hs). simpl. intros H.
  destruct (probe_loop_full _ self key s h 0 Hh H) as (m & _ & Hret & Hall).
  assert (length (array self) <= S m)%nat as Hm.
  { destruct (probe_seq_divide self s h (S m) 0 Hp ltac:(lia) Hh Hret) as [k Hk].
    unfold table_size, len in *.
    assert (0 < k) by nia. nia. }
  apply list_elem_of_lookup in Hin as [p Hp'].
  pose proof (lookup_lt_Some _ _ _ Hp') as Hlt.
  destruct (probe_seq_covers self s h (Z.of_nat p) Hp ltac:(lia) Hh)
    as (i & Hi & Ei); [unfold table_size, len; lia|].
  destruct (Hall i ltac:(lia)) as (item' & Hg & Hnn).
  rewrite Ei in Hg. apply getitem_Ok in Hg as [_ Hg].
  rewrite Nat2Z.id in Hg. congruence.
Qed.

(** The loop reads the slots in the order of the sequence: it goes past
    the slots that hold another key or the mark of a deleted entry, and
    ends at the first slot that holds the key or [None]. *)
Lemma probe_loop_scan fuel self key ins s h (j0 j : nat) item :
  Z.prime (table_size self) -> 1 <= s < table_size self ->
  0 <= h < table_size self ->
  (j0 <= j)%nat -> (j < length (array self))%nat -> (j - j0 <= fuel)%nat ->
  (forall i : nat, (j0 <= i < j)%nat ->
     exists item', getitem (array self) (probe_seq self s h i) = Ok item' /\
       is_None item' = false /\ holds_key item' key = false) ->
  getitem (array self) (probe_seq self s h j) = Ok item ->
  is_None item = true \/ holds_key item key = true ->
  probe_loop fuel self key ins s h (probe_seq self s h j0) =
    if is_None item && negb ins then Raise KeyError
    else Ok (probe_seq self s h j).
Proof.
  intros Hp Hs Hh. revert j0.
  induction fuel as [|fuel IH]; intros j0 Hle Hj Hf Hskip Hg Hend;
    rewrite probe_loop_eq;
    (destruct (decide (j0 = j)) as [-> | Hne];
     [ rewrite Hg; simpl; destruct Hend as [Hn | Hk];
       [ rewrite Hn; destruct ins; reflexivity
       | rewrite (holds_key_not_None _ _ Hk), Hk; reflexivity ]
     | ]); [lia|].
  destruct (Hskip j0 ltac:(lia)) as (item' & -> & Hn' & Hk'). simpl.
  rewrite Hn', Hk', py_mod_Ok by lia. simpl.
  change ((probe_seq self s h j0 + s) mod table_size self)
    with (probe_seq self s h (S j0)).
  destruct (Z.eqb_spec (probe_seq self s h (S j0)) h) as [E | _].
  - exfalso. assert (S j0 = 0%nat); [|lia].
    apply (probe_seq_inj self s h (S j0) 0 Hp Hs Hh); [lia | lia | exact E].
  - apply IH; [lia | exact Hj | lia | | exact Hg | exact Hend].
    intros i Hi. apply Hskip. lia.
Qed.

(** When every slot holds another key or the mark of a deleted entry,
    the loop gives up. *)
Lemma probe_loop_skip fuel self key ins s i p :
  0 <= p < table_size self ->
  (forall item, item ∈ array self ->
     is_None item = false /\ holds_key item key = false) ->
  probe_loop fuel self key ins s i p = Raise (if ins then FullError else KeyError) \/
  probe_loop fuel self key ins s i p = OutOfFuel.
Proof.
  intros Hp Hall. revert p Hp.
  induction fuel as [|fuel IH]; intros p Hp; rewrite probe_loop_eq;
    destruct (getitem_in_range (array self) p Hp) as (item & -> & Hl); simpl;
    (destruct (Hall item) as [-> ->]; [apply list_elem_of_lookup; eauto|]);
    (rewrite py_mod_Ok by lia); simpl;
    (destruct (_ =? i); [destruct ins; auto|]).
  - auto.
  - apply IH. apply Z.mod_pos_bound. lia.
Qed.

(** C8. In a table of two slots or more, [hash2] gives a step from [1]
    to [capacity - 1], never [0], for every key. *)
Theorem hash2_range self key :
  2 <= table_size self ->
  exists s, hash2 self key = Ok s /\ 1 <= s <= table_size self - 1.
Proof. apply hash2_Ok. Qed.

(** C7. When the capacity is prime, the probe of a key, which starts at
    [hash(key)] and moves on by [hash2(key)] modulo the capacity, visits
    every slot before it first comes back to where it started, after as
    many steps as there are slots; and [_hashy_probe] comes to an end for
    every key: it returns an index of the table, or raises [KeyError]
    (when searching) or [FullError] (when inserting). The loop of
    [_hashy_probe] follows that sequence: it goes past the slots that hold
    another key or the mark of a deleted entry and ends at the first
    position of the sequence whose slot holds the key, which it returns,
    or [None], which it returns when inserting and answers with
    [KeyError] when searching; when no slot holds the key or [None] it
    raises; and an insertion only raises [FullError] when no slot is
    [None]. *)
Theorem probe_covers_and_terminates self key :
  Z.prime (table_size self) ->
  exists h s,
    hash self key = Ok h /\ hash2 self key = Ok s /\
    (forall p, 0 <= p < table_size self ->
       exists i : nat, (i < length (array self))%nat /\ probe_seq self s h i = p) /\
    (forall i : nat, (0 < i < length (array self))%nat -> probe_seq self s h i <> h) /\
    probe_seq self s h (length (array self)) = h /\
    (forall is_insert,
       (exists q, _hashy_probe self key is_insert = Ok q /\ 0 <= q < table_size self) \/
       _hashy_probe self key is_insert =
         Raise (if is_insert then FullError else KeyError)) /\
    (forall is_insert (j : nat) item,
       (j < length (array self))%nat ->
       (forall i : nat, (i < j)%nat ->
          exists item', getitem (array self) (probe_seq self s h i) = Ok item' /\
            is_None item' = false /\ holds_key item' key = false) ->
       getitem (array self) (probe_seq self s h j) = Ok item ->
       is_None item = true \/ holds_key item key = true ->
       _hashy_probe self key is_insert =
         if is_None item && negb is_insert then Raise KeyError
         else Ok (probe_seq self s h j)) /\
    (forall is_insert,
       (forall item, item ∈ array self ->
          is_None item = false /\ holds_key item key = false) ->
       _hashy_probe self key is_insert =
         Raise (if is_insert then FullError else KeyError)) /\
    (_hashy_probe self key true = Raise FullError ->
     forall item, item ∈ array self -> is_None item = false).
Proof.
  intros Hp. pose proof (Z.prime_ge_2 _ Hp) as Hn.
  destruct (hash_Ok self key Hn) as (h & Eh & Hh).
  destruct (hash2_Ok self key Hn) as (s & Es & Hs).
  exists h, s. split; [exact Eh|]. split; [exact Es|].
  split; [|split; [|split; [|split; [|split; [|split]]]]].
  - intros p Hr. apply probe_seq_covers; auto; lia.
  - intros i Hi E.
    assert (i = 0%nat); [|lia].
    apply (probe_seq_inj self s h i 0 Hp); auto; lia.
  - rewrite <- (probe_seq_return self s h) at 2 by lia.
    f_equal. unfold table_size, len. lia.
  - intros is_insert. apply _hashy_probe_cases. exact Hn.
  - intros is_insert j item Hj Hskip Hg Hend.
    unfold _hashy_probe. rewrite Eh, Es. cbn [rbind].
    apply (probe_loop_scan _ self key is_insert s h 0 j item Hp);
      [lia | exact Hh | lia | exact Hj | lia | | exact Hg | exact Hend].
    intros i Hi. apply Hskip. lia.
  - intros is_insert Hall.
    pose proof (_hashy_probe_terminates self key is_insert) as Ht. revert Ht.
    unfold _hashy_probe. rewrite Eh, Es. cbn [rbind].
    destruct (probe_loop_skip (length (array self)) self key is_insert s h h Hh Hall)
      as [-> | ->]; [reflexivity | congruence].
  - intros Hfull item. apply (_hashy_probe_full self key item Hp Hfull).
Qed.

(** *** The pairs of a table *)

Lemma elem_of_entries a k v :
  (k, v) ∈ entries a <-> exists p : nat, a !! p = Some (Occupied k v).
Proof.
  unfold entries. rewrite list_elem_of_omap. split.
  - intros (item & Hin & He). destruct item; simpl in He; try discriminate.
    injection He as -> ->. apply list_elem_of_lookup. exact Hin.
  - intros [p Hp]. exists (Occupied k v). split; [|reflexivity].
    apply list_elem_of_lookup. eauto.
Qed.

Lemma entries_replicate (n : nat) : entries (replicate n (@Empty V)) = [].
Proof. induction n as [|n IH]; simpl; [reflexivity|exact IH]. Qed.

Lemma len_app {A} (l1 l2 : list A) : len (l1 ++ l2) = len l1 + len l2.
Proof. unfold len. rewrite length_app. lia. Qed.

Lemma len_entries_insert a (q : nat) old new :
  a !! q = Some old ->
  len (entries (<[q := new]> a)) =
    len (entries a) - weight (entry old) + weight (entry new).
Proof.
  intros Hq. pose proof (lookup_lt_Some _ _ _ Hq) as Hlt.
  rewrite insert_take_drop by exact Hlt.
  pose proof (take_drop_middle a q old Hq) as Ha.
  set (a1 := take q a) in *. set (a2 := drop (S q) a) in *.
  rewrite <- Ha. unfold entries. rewrite !omap_app, !len_app. simpl.
  destruct (entry old), (entry new); unfold len; simpl; lia.
Qed.

Lemma len_entries_le a : len (entries a) <= len a.
Proof.
  unfold len. induction a as [|item a IH]; simpl; [lia|].
  destruct (entry item); simpl; lia.
Qed.

Lemma used_cons item a : used (item :: a) = nonempty item + used a.
Proof.
  unfold used, nonempty, len. rewrite filter_cons.
  destruct (decide (is_None item = false)) as [-> | H]; simpl; [lia|].
  destruct (is_None item); [lia | congruence].
Qed.

Lemma used_app a1 a2 : used (a1 ++ a2) = used a1 + used a2.
Proof.
  induction a1 as [|item a1 IH]; simpl.
  - unfold used at 2, len. simpl. lia.
  - rewrite !used_cons, IH. lia.
Qed.

Lemma used_insert a (q : nat) old new :
  a !! q = Some old ->
  used (<[q := new]> a) = used a - nonempty old + nonempty new.
Proof.
  intros Hq. pose proof (lookup_lt_Some _ _ _ Hq) as Hlt.
  rewrite insert_take_drop by exact Hlt.
  pose proof (take_drop_middle a q old Hq) as Ha.
  set (a1 := take q a) in *. set (a2 := drop (S q) a) in *.
  rewrite <- Ha. rewrite !used_app, !used_cons. lia.
Qed.

Lemma used_replicate (n : nat) : used (replicate n (@Empty V)) = 0.
Proof.
  induction n as [|n IH]; simpl; [reflexivity|]. rewrite used_cons, IH. reflexivity.
Qed.

Lemma used_bounds a : 0 <= used a <= len a.
Proof.
  induction a as [|item a IH]; [unfold used, len; simpl; lia|].
  rewrite used_cons. unfold len in *. simpl. unfold nonempty.
  destruct (is_None item); lia.
Qed.

(** A table in which no slot is [None] has all its slots in use. *)
Lemma used_full a :
  (forall item, item ∈ a -> is_None item = false) -> used a = len a.
Proof.
  induction a as [|item a IH]; intros H; [reflexivity|].
  rewrite used_cons, IH.
  - unfold nonempty. rewrite (H item) by (left). unfold len. simpl. lia.
  - intros item' Hin. apply H. right. exact Hin.
Qed.

(** *** The steps of [__setitem__] and of [_rehash] *)

Lemma _hashy_probe_ends self key ins q :
  _hashy_probe self key ins = Ok q -> ends_at self key ins q.
Proof.
  unfold _hashy_probe.
  destruct (hash self key) as [h| |]; simpl; try discriminate.
  destruct (hash2 self key) as [s| |]; simpl; try discriminate.
  apply probe_loop_ends.
Qed.

Lemma _hashy_probe_size self self' key ins :
  table_size self = table_size self' ->
  _hashy_probe self key ins =
    (position <~ hash self' key ;;
     step_size <~ hash2 self' key ;;
     probe_loop (length (array self')) self key ins step_size position position).
Proof.
  intros E. unfold _hashy_probe.
  rewrite (hash_size _ _ _ E), (hash2_size _ _ _ E).
  replace (length (array self)) with (length (array self'))
    by (unfold table_size, len in E; lia).
  reflexivity.
Qed.

Lemma table_size_stored self q key data :
  table_size (stored self q key data) = table_size self.
Proof.
  unfold stored, table_size. simpl. rewrite len_insert.
  destruct (array self !! Z.to_nat q) as [[| |]|]; reflexivity.
Qed.

Lemma array_stored self q key data :
  array (stored self q key data) = <[Z.to_nat q := Occupied key data]> (array self).
Proof. reflexivity. Qed.

Lemma setitem_unfold fuel key data self :
  __setitem__ fuel key data self =
    match _hashy_probe self key true with
    | Ok position =>
        let self1 := stored self position key data in
        if 2 * table_size self1 <? 3 * count self1 then
          match fuel with
          | O => (OutOfFuel, self1)
          | S fuel' => _rehash fuel' self1
          end
        else (Ok tt, self1)
    | Raise e => (Raise e, self)
    | OutOfFuel => (OutOfFuel, self)
    end.
Proof.
  destruct (_hashy_probe self key true) as [q| |] eqn:Hp;
    [| destruct fuel; simpl; unfold bind, call; rewrite Hp; reflexivity ..].
  destruct (_hashy_probe_ends _ _ _ _ Hp) as (item & Hg & _).
  pose proof Hg as Hg'. apply getitem_Ok in Hg' as [Hq Hl].
  pose proof (lookup_lt_Some _ _ _ Hl) as Hlt.
  assert (forall c, setitem (array (set_count c self)) q (Occupied key data)
                    = Ok (<[Z.to_nat q := Occupied key data]> (array self))) as Hset.
  { intros c. apply setitem_in_range. simpl. unfold len. lia. }
  assert (setitem (array self) q (Occupied key data)
          = Ok (<[Z.to_nat q := Occupied key data]> (array self))) as Hset'.
  { apply setitem_in_range. unfold len. lia. }
  unfold stored. rewrite Hl.
  destruct fuel; simpl; unfold bind, call, modify, ret, timeout, _rehash;
    rewrite Hp, Hg; destruct item; simpl; rewrite ?Hset, ?Hset'; simpl;
    unfold __len__; simpl; destruct (_ <? _); reflexivity.
Qed.

Lemma rehash_unfold fuel self :
  _rehash fuel self =
    match TABLE_SIZES self !! S (size_index self) with
    | None => (Raise FullError, set_size_index (S (size_index self)) self)
    | Some n =>
        if n <=? 0 then (Raise ValueError, set_size_index (S (size_index self)) self)
        else for_each (array self) (reinsert fuel) (fresh self n)
    end.
Proof.
  unfold _rehash, _rehash_with, bind, call, modify, raise.
  cbn beta iota delta [size_index set_size_index TABLE_SIZES fst snd].
  destruct (TABLE_SIZES self !! S (size_index self)) as [n|] eqn:Hn.
  - pose proof (lookup_lt_Some _ _ _ Hn) as Hlt.
    rewrite bool_decide_eq_false_2 by lia.
    cbn beta iota delta [size_index set_size_index TABLE_SIZES fst snd].
    rewrite seq_getitem_nat, Hn.
    cbn [rbind]. unfold ArrayR. destruct (n <=? 0); reflexivity.
  - apply lookup_ge_None in Hn. rewrite bool_decide_eq_true_2 by lia. reflexivity.
Qed.

(** *** Writing a pair keeps the table well formed *)

Lemma _hashy_probe_sim self self' key ins ins' q :
  len (array self) = len (array self') ->
  (forall p item,
     getitem (array self) p = Ok item ->
     is_None item = false -> holds_key item key = false ->
     exists item', getitem (array self') p = Ok item' /\
       is_None item' = false /\ holds_key item' key = false) ->
  ends_at self' key ins' q ->
  _hashy_probe self key ins = Ok q ->
  _hashy_probe self' key ins' = Ok q.
Proof.
  intros Hlen Hskip Hend.
  rewrite (_hashy_probe_size self' self key ins') by (symmetry; exact Hlen).
  unfold _hashy_probe.
  destruct (hash self key) as [h| |]; simpl; try discriminate.
  destruct (hash2 self key) as [s| |]; simpl; try discriminate.
  apply probe_loop_sim; assumption.
Qed.

Lemma ends_at_inv self key ins q :
  ends_at self key ins q ->
  0 <= q /\
  ((exists data, array self !! Z.to_nat q = Some (Occupied key data)) \/
   (array self !! Z.to_nat q = Some Empty /\ ins = true)).
Proof.
  intros (item & Hg & H). apply getitem_Ok in Hg as [Hq Hl]. split; [exact Hq|].
  destruct item as [| |k v]; simpl in H.
  - right. destruct H as [? | [_ ?]]; [discriminate | auto].
  - destruct H as [? | [? _]]; discriminate.
  - destruct H as [H | [? _]]; [|discriminate].
    apply bool_decide_eq_true in H as ->. eauto.
Qed.

(** A search that succeeds is where an insertion would write. *)
Lemma lookup_then_insert self key q :
  _hashy_probe self key false = Ok q -> _hashy_probe self key true = Ok q.
Proof.
  intros H. apply (_hashy_probe_sim self self key false true q); auto.
  - intros p item Hg Hn Hk. eauto.
  - destruct (_hashy_probe_ends _ _ _ _ H) as (item & Hg & [Hk | [_ ?]]);
      [|discriminate]. exists item. auto.
Qed.

Lemma wf_insert_position self key data q (p : nat) :
  wf self -> _hashy_probe self key true = Ok q ->
  array self !! p = Some (Occupied key data) -> q = Z.of_nat p.
Proof.
  intros Hwf Hq Hp. apply Hwf, lookup_then_insert in Hp. congruence.
Qed.

(** Slots that a search for [key] skips in [a] are skipped in [a'] as
    well, when [a'] is [a] with a slot that did not hold [key] replaced
    by something that is not [None] and does not hold [key] either. *)
Lemma skip_insert a (q : nat) new key p item :
  (forall old, a !! q = Some old -> is_None old = false ->
     holds_key old key = false ->
     is_None new = false /\ holds_key new key = false) ->
  getitem a p = Ok item -> is_None item = false -> holds_key item key = false ->
  exists item', getitem (<[q := new]> a) p = Ok item' /\
    is_None item' = false /\ holds_key item' key = false.
Proof.
  intros Hnew Hg Hn Hk. apply getitem_Ok in Hg as [Hp Hl].
  destruct (decide (q = Z.to_nat p)) as [-> | Hne].
  - exists new. destruct (Hnew item Hl Hn Hk) as [? ?].
    split; [|auto]. apply getitem_Ok. split; [exact Hp|].
    apply list_lookup_insert_eq. eapply lookup_lt_Some. exact Hl.
  - exists item. split; [|auto]. apply getitem_Ok. split; [exact Hp|].
    rewrite list_lookup_insert_ne by exact Hne. exact Hl.
Qed.

Lemma wf_stored self key data q :
  wf self -> _hashy_probe self key true = Ok q -> wf (stored self q key data).
Proof.
  intros Hwf Hq.
  destruct (ends_at_inv _ _ _ _ (_hashy_probe_ends _ _ _ _ Hq)) as [Hq0 Hold].
  assert (Z.to_nat q < length (array self))%nat as Hlt
    by (destruct Hold as [[? H] | [H _]]; apply lookup_lt_Some in H; exact H).
  intros p k v. rewrite array_stored. intros Hp.
  destruct (decide (Z.to_nat q = p)) as [<- | Hne].
  - rewrite list_lookup_insert_eq in Hp by exact Hlt. injection Hp as <- <-.
    rewrite Z2Nat.id by exact Hq0.
    apply (_hashy_probe_sim self _ key true false q); auto.
    + rewrite array_stored, len_insert. reflexivity.
    + intros p' item Hg Hn Hk. rewrite array_stored.
      apply (skip_insert _ _ _ _ _ _ ) with (4 := Hk) (3 := Hn) (2 := Hg).
      intros old Ho Hno Hko. exfalso.
      destruct Hold as [[d Hd] | [He _]]; rewrite Ho in *.
      * injection Hd as ->. simpl in Hko. rewrite bool_decide_eq_true_2 in Hko;
          [discriminate | reflexivity].
      * injection He as ->. discriminate.
    + exists (Occupied key data). split.
      * apply getitem_Ok. split; [exact Hq0|]. rewrite array_stored.
        apply list_lookup_insert_eq. exact Hlt.
      * left. simpl. apply bool_decide_eq_true_2. reflexivity.
  - rewrite list_lookup_insert_ne in Hp by exact Hne.
    assert (k <> key) as Hk.
    { intros ->. pose proof (wf_insert_position _ _ _ _ _ Hwf Hq Hp). lia. }
    apply (_hashy_probe_sim self _ k false false (Z.of_nat p)); auto.
    + rewrite array_stored, len_insert. reflexivity.
    + intros p' item Hg Hn Hk'. rewrite array_stored.
      apply (skip_insert _ _ _ _ _ _ ) with (4 := Hk') (3 := Hn) (2 := Hg).
      intros old Ho Hno Hko. split; [reflexivity|]. simpl.
      apply bool_decide_eq_false_2. congruence.
    + exists (Occupied k v). split.
      * apply getitem_Ok. split; [lia|]. rewrite array_stored, Nat2Z.id.
        rewrite list_lookup_insert_ne by exact Hne. exact Hp.
      * left. simpl. apply bool_decide_eq_true_2. reflexivity.
    + apply (Hwf p k v). exact Hp.
Qed.

Lemma updated_stored self key data q :
  wf self -> _hashy_probe self key true = Ok q ->
  updated (array (stored self q key data)) (array self) key data.
Proof.
  intros Hwf Hq k v.
  destruct (ends_at_inv _ _ _ _ (_hashy_probe_ends _ _ _ _ Hq)) as [Hq0 Hold].
  assert (Z.to_nat q < length (array self))%nat as Hlt
    by (destruct Hold as [[? H] | [H _]]; apply lookup_lt_Some in H; exact H).
  rewrite !elem_of_entries, array_stored. split.
  - intros [p Hp]. destruct (decide (Z.to_nat q = p)) as [<- | Hne].
    + rewrite list_lookup_insert_eq in Hp by exact Hlt. injection Hp as <- <-. auto.
    + rewrite list_lookup_insert_ne in Hp by exact Hne. right. split; [|eauto].
      intros ->. pose proof (wf_insert_position _ _ _ _ _ Hwf Hq Hp). lia.
  - intros [[-> ->] | [Hk [p Hp]]].
    + exists (Z.to_nat q). apply list_lookup_insert_eq. exact Hlt.
    + exists p. rewrite list_lookup_insert_ne; [exact Hp|].
      intros <-. destruct Hold as [[d Hd] | [He _]]; congruence.
Qed.

Lemma count_stored self key data q :
  count self = len (entries (array self)) ->
  _hashy_probe self key true = Ok q ->
  count (stored self q key data) = len (entries (array (stored self q key data))).
Proof.
  intros Hc Hq.
  destruct (ends_at_inv _ _ _ _ (_hashy_probe_ends _ _ _ _ Hq)) as [Hq0 Hold].
  rewrite array_stored. unfold stored.
  destruct Hold as [[d Hd] | [He _]].
  - rewrite (len_entries_insert _ _ _ _ Hd), Hd. simpl. lia.
  - rewrite (len_entries_insert _ _ _ _ He), He. simpl. lia.
Qed.

Lemma inv_stored self key data q :
  inv self -> _hashy_probe self key true = Ok q -> inv (stored self q key data).
Proof.
  intros [Hwf Hc] Hq. split; [apply wf_stored | apply count_stored]; assumption.
Qed.

Lemma stored_fields self key data q :
  TABLE_SIZES (stored self q key data) = TABLE_SIZES self /\
  size_index (stored self q key data) = size_index self.
Proof.
  unfold stored. destruct (array self !! Z.to_nat q) as [[| |]|]; auto.
Qed.

Lemma inv_fresh self n : inv (fresh self n).
Proof.
  split.
  - intros p k v. simpl. intros H. apply lookup_replicate in H as [? _]. discriminate.
  - simpl. rewrite entries_replicate. reflexivity.
Qed.

(** The probe only looks at the array. *)
Lemma probe_loop_array fuel self self' key ins s i p :
  array self = array self' ->
  probe_loop fuel self key ins s i p = probe_loop fuel self' key ins s i p.
Proof.
  intros E. revert p. induction fuel as [|fuel IH]; intros p;
    rewrite !probe_loop_eq; unfold table_size; rewrite E; [reflexivity|].
  destruct (getitem (array self') p) as [item| |]; simpl; try reflexivity.
  destruct (is_None item); [reflexivity|].
  destruct (holds_key item key); [reflexivity|].
  destruct (py_mod _ _) as [p'| |]; simpl; try reflexivity.
  destruct (p' =? i); [reflexivity|]. apply IH.
Qed.

Lemma _hashy_probe_array self self' key ins :
  array self = array self' ->
  _hashy_probe self key ins = _hashy_probe self' key ins.
Proof.
  intros E.
  rewrite (_hashy_probe_size self self' key ins) by (unfold table_size; rewrite E; reflexivity).
  unfold _hashy_probe.
  destruct (hash self' key) as [h| |]; simpl; try reflexivity.
  destruct (hash2 self' key) as [s| |]; simpl; try reflexivity.
  apply probe_loop_array. exact E.
Qed.

Lemma inv_array self self' :
  array self = array self' -> count self = count self' -> inv self -> inv self'.
Proof.
  intros Ea Ec [Hwf Hc]. split.
  - intros p k v Hp. rewrite <- (_hashy_probe_array self self' k false Ea).
    apply (Hwf p k v). rewrite Ea. exact Hp.
  - rewrite <- Ea, <- Ec. exact Hc.
Qed.

Lemma inv_set_size_index self i : inv self -> inv (set_size_index i self).
Proof. apply inv_array; reflexivity. Qed.

(** The keys of a well-formed table are all different. *)
Lemma wf_NoDup_keys self : wf self -> NoDup (entries (array self)).*1.
Proof.
  intros Hwf.
  assert (forall (p1 p2 : nat) k v1 v2,
    array self !! p1 = Some (Occupied k v1) ->
    array self !! p2 = Some (Occupied k v2) -> p1 = p2) as Hd.
  { intros p1 p2 k v1 v2 H1 H2. apply Hwf in H1, H2. rewrite H1 in H2.
    injection H2. lia. }
  clear Hwf. revert Hd. generalize (array self). intros a.
  induction a as [|item a IH]; intros Hd; simpl; [constructor|].
  assert (NoDup (entries a).*1) as Hnd.
  { apply IH. intros p1 p2 k v1 v2 H1 H2.
    specialize (Hd (S p1) (S p2) k v1 v2 H1 H2). lia. }
  destruct item as [| |k v]; simpl; try exact Hnd.
  constructor; [|exact Hnd].
  intros Hin. apply list_elem_of_fmap in Hin as ([k' v'] & Hk & Hin).
  simpl in Hk. subst k'. apply elem_of_entries in Hin as [p Hp].
  specialize (Hd 0%nat (S p) k v v' eq_refl Hp). discriminate.
Qed.

(** *** What [__setitem__] and [_rehash] do to a well-formed table *)

Lemma reinsert_spec fuel items :
  setitem_spec_at V fuel ->
  forall cur r self',
    inv cur -> NoDup (entries items).*1 ->
    (forall k, k ∈ (entries items).*1 -> k ∉ (entries (array cur)).*1) ->
    for_each items (reinsert fuel) cur = (r, self') ->
    inv self' /\ TABLE_SIZES self' = TABLE_SIZES cur /\
    (size_index cur <= size_index self')%nat /\
    (r = Ok tt ->
     forall x, x ∈ entries (array self') <-> x ∈ entries (array cur) \/ x ∈ entries items).
Proof.
  intros Hset. induction items as [|item items IH]; intros cur r self' Hinv Hnd Hdis.
  - simpl. unfold ret. intros [= <- <-]. split; [exact Hinv|].
    split; [reflexivity|]. split; [lia|]. intros _ x. rewrite elem_of_nil. tauto.
  - assert (forall r self',
      is_None item = true \/ item = Tombstone ->
      for_each (item :: items) (reinsert fuel) cur = (r, self') ->
      for_each items (reinsert fuel) cur = (r, self')) as Hskip.
    { intros r0 s0 Hitem. simpl. unfold bind at 1.
      destruct Hitem as [Hitem | ->]; [destruct item; try discriminate|]; auto. }
    destruct item as [| |k v].
    + intros H. apply Hskip in H; [|auto]. apply (IH cur r self'); assumption.
    + intros H. apply Hskip in H; [|auto]. apply (IH cur r self'); assumption.
    + clear Hskip. simpl in Hnd, Hdis. apply list.NoDup_cons in Hnd as [Hk Hnd].
      simpl. unfold bind at 1.
      destruct (__setitem__ fuel k v cur) as [r1 cur1] eqn:Hs.
      destruct (Hset cur k v r1 cur1 Hinv Hs) as (Hinv1 & Hsz1 & Hidx1 & Hupd1).
      assert (k ∉ (entries (array cur)).*1) as Hfresh by (apply Hdis; left).
      destruct r1 as [[]| |];
        [| intros [= <- <-]; split; [exact Hinv1|]; split; [exact Hsz1|];
           split; [exact Hidx1 | discriminate] ..].
      specialize (Hupd1 eq_refl). intros H.
      destruct (IH cur1 r self' Hinv1 Hnd) as (Hinv' & Hsz' & Hidx' & Hent'); auto.
      { intros k' Hk' Hin.
        apply list_elem_of_fmap in Hin as ([k'' v'] & E & Hin). simpl in E. subst k''.
        apply Hupd1 in Hin as [[-> _] | [_ Hin]]; [contradiction|].
        apply (Hdis k'); [right; exact Hk'|].
        apply list_elem_of_fmap. exists (k', v'). auto. }
      split; [exact Hinv'|]. split; [congruence|]. split; [lia|].
      intros Hr [k' v']. rewrite (Hent' Hr), (Hupd1 k' v'), elem_of_cons.
      split.
      * intros [[[-> ->] | [_ Hin]] | Hin]; auto.
      * intros [Hin | [[= -> ->] | Hin]]; [|auto ..].
        left. right. split; [|exact Hin].
        intros ->. apply Hfresh. apply list_elem_of_fmap. exists (k, v'). auto.
Qed.

Lemma rehash_spec fuel :
  setitem_spec_at V fuel ->
  forall self r self',
    inv self -> _rehash fuel self = (r, self') ->
    inv self' /\ TABLE_SIZES self' = TABLE_SIZES self /\
    (size_index self < size_index self')%nat /\
    (r = Ok tt -> forall x, x ∈ entries (array self') <-> x ∈ entries (array self)).
Proof.
  intros Hset self r self' Hinv. rewrite rehash_unfold.
  destruct (TABLE_SIZES self !! S (size_index self)) as [n|].
  - destruct (n <=? 0).
    + intros [= <- <-]. split; [apply inv_set_size_index; exact Hinv|].
      split; [reflexivity|]. split; [simpl; lia | discriminate].
    + intros H.
      destruct (reinsert_spec fuel (array self) Hset (fresh self n) r self')
        as (Hinv' & Hsz' & Hidx' & Hent'); auto.
      * apply inv_fresh.
      * apply wf_NoDup_keys, Hinv.
      * intros k _. simpl. rewrite entries_replicate. apply not_elem_of_nil.
      * split; [exact Hinv'|]. split; [exact Hsz'|]. split; [simpl in Hidx'; lia|].
        intros Hr x. rewrite (Hent' Hr). simpl. rewrite entries_replicate.
        split; [intros [H0 | H0]; [inversion H0 | exact H0] | auto].
  - intros [= <- <-]. split; [apply inv_set_size_index; exact Hinv|].
    split; [reflexivity|]. split; [simpl; lia | discriminate].
Qed.

Lemma setitem_spec fuel : setitem_spec_at V fuel.
Proof.
  induction fuel as [|fuel IH]; intros self key data r self' Hinv;
    rewrite setitem_unfold;
    (destruct (_hashy_probe self key true) as [q| |] eqn:Hq;
     [| intros [= <- <-]; split; [exact Hinv|]; split; [reflexivity|];
        split; [lia | discriminate] ..]);
    pose proof (inv_stored self key data q Hinv Hq) as Hinv1;
    pose proof (updated_stored self key data q (proj1 Hinv) Hq) as Hupd1;
    destruct (stored_fields self key data q) as [Hsz1 Hidx1];
    cbv zeta;
    (destruct (_ <? _);
     [| intros [= <- <-]; split; [exact Hinv1|]; split; [exact Hsz1|];
        split; [lia | intros _; exact Hupd1] ]).
  - intros [= <- <-]. split; [exact Hinv1|]. split; [exact Hsz1|].
    split; [lia | discriminate].
  - intros H.
    destruct (rehash_spec fuel IH _ r self' Hinv1 H) as (Hinv' & Hsz' & Hidx' & Hent').
    split; [exact Hinv'|]. split; [congruence|]. split; [lia|].
    intros Hr k v. rewrite (Hent' Hr). apply Hupd1.
Qed.

(** *** [__delitem__] *)

Lemma delitem_unfold key self :
  __delitem__ key self =
    match _hashy_probe self key false with
    | Ok position =>
        (Ok tt,
         set_count (count self - 1)
           (set_array (<[Z.to_nat position := Tombstone]> (array self)) self))
    | Raise e => (Raise e, self)
    | OutOfFuel => (OutOfFuel, self)
    end.
Proof.
  unfold __delitem__, bind, call, modify, raise.
  destruct (_hashy_probe self key false) as [q| |] eqn:Hq; try reflexivity.
  destruct (ends_at_inv _ _ _ _ (_hashy_probe_ends _ _ _ _ Hq))
    as [Hq0 [[d Hd] | [_ ?]]]; [|discriminate].
  rewrite (proj2 (getitem_Ok _ _ _) (conj Hq0 Hd)).
  rewrite setitem_in_range; [reflexivity|].
  apply lookup_lt_Some in Hd. unfold len. lia.
Qed.

Lemma inv_delitem key self r self' :
  inv self -> __delitem__ key self = (r, self') -> inv self'.
Proof.
  intros [Hwf Hc]. rewrite delitem_unfold.
  destruct (_hashy_probe self key false) as [q| |] eqn:Hq;
    try (intros [= <- <-]; split; assumption).
  destruct (ends_at_inv _ _ _ _ (_hashy_probe_ends _ _ _ _ Hq))
    as [Hq0 [[d Hd] | [_ ?]]]; [|discriminate].
  intros [= <- <-]. split.
  - intros p k v. simpl. intros Hp.
    destruct (decide (Z.to_nat q = p)) as [<- | Hne].
    { rewrite list_lookup_insert_eq in Hp by (eapply lookup_lt_Some; exact Hd).
      discriminate. }
    rewrite list_lookup_insert_ne in Hp by exact Hne.
    assert (k <> key) as Hk.
    { intros ->. apply Hwf in Hp. rewrite Hp in Hq. injection Hq. lia. }
    apply (_hashy_probe_sim self _ k false false (Z.of_nat p)).
    + simpl. rewrite len_insert. reflexivity.
    + intros p' item Hg Hn Hk'. simpl.
      apply (skip_insert _ _ _ _ _ _ ) with (4 := Hk') (3 := Hn) (2 := Hg).
      intros old Ho Hno Hko. auto.
    + exists (Occupied k v). split.
      * apply getitem_Ok. split; [lia|]. simpl. rewrite Nat2Z.id.
        rewrite list_lookup_insert_ne by exact Hne. exact Hp.
      * left. simpl. apply bool_decide_eq_true_2. reflexivity.
    + apply (Hwf p k v). exact Hp.
  - simpl. rewrite (len_entries_insert _ _ _ _ Hd). simpl. lia.
Qed.

(** *** Every state that can be reached is well formed *)

Lemma inv_init sizes self : __init__ sizes = Ok self -> inv self.
Proof.
  unfold __init__.
  destruct (seq_getitem _ 0) as [n| |]; simpl; try discriminate.
  unfold ArrayR. destruct (n <=? 0); simpl; try discriminate.
  intros [= <-]. split.
  - intros p k v. simpl. intros H. apply lookup_replicate in H as [? _]. discriminate.
  - simpl. rewrite entries_replicate. reflexivity.
Qed.

Lemma reachable_inv self : reachable self -> inv self.
Proof.
  induction 1 as [sizes self H | fuel key data self r self' _ IH H _
                  | key self r self' _ IH H].
  - exact (inv_init _ _ H).
  - exact (proj1 (setitem_spec fuel self key data r self' IH H)).
  - exact (inv_delitem _ _ _ _ IH H).
Qed.

(** A well-formed table gives back what it holds. *)
Lemma getitem_entries self key data :
  inv self -> (key, data) ∈ entries (array self) -> __getitem__ self key = Ok data.
Proof.
  intros [Hwf _] Hin. apply elem_of_entries in Hin as [p Hp].
  unfold __getitem__. rewrite (Hwf p key data Hp). simpl.
  rewrite (proj2 (getitem_Ok (array self) (Z.of_nat p) (Occupied key data)));
    [reflexivity|].
  split; [lia|]. rewrite Nat2Z.id. exact Hp.
Qed.

Lemma entries_getitem self key data :
  __getitem__ self key = Ok data -> (key, data) ∈ entries (array self).
Proof.
  unfold __getitem__.
  destruct (_hashy_probe self key false) as [q| |] eqn:Hq; simpl; try discriminate.
  destruct (ends_at_inv _ _ _ _ (_hashy_probe_ends _ _ _ _ Hq))
    as [Hq0 [[d Hd] | [_ ?]]]; [|discriminate].
  rewrite (proj2 (getitem_Ok _ _ _) (conj Hq0 Hd)). simpl. intros [= <-].
  apply elem_of_entries. eauto.
Qed.

(** *** The outcomes of [__setitem__] *)

Lemma reinsert_outcome fuel items :
  setitem_outcome_at V fuel ->
  forall cur r self',
    for_each items (reinsert fuel) cur = (r, self') ->
    TABLE_SIZES self' = TABLE_SIZES cur /\
    (size_index cur <= size_index self')%nat /\
    (sized cur -> sized self') /\
    (sized cur -> ladder_ok cur ->
     r = Ok tt \/ r = Raise FullError \/ r = OutOfFuel).
Proof.
  intros Hset. induction items as [|item items IH]; intros cur r self'.
  - simpl. unfold ret. intros [= <- <-]. auto.
  - simpl. unfold bind at 1.
    destruct (reinsert fuel item cur) as [r1 cur1] eqn:Hs.
    assert (TABLE_SIZES cur1 = TABLE_SIZES cur /\
            (size_index cur <= size_index cur1)%nat /\
            (sized cur -> sized cur1) /\
            (sized cur -> ladder_ok cur ->
             r1 = Ok tt \/ r1 = Raise FullError \/ r1 = OutOfFuel))
      as (Hsz1 & Hidx1 & Hsd1 & Hr1).
    { destruct item as [| |k v]; simpl in Hs;
        [injection Hs as <- <-; auto .. | exact (Hset _ _ _ _ _ Hs)]. }
    destruct r1 as [[]| |].
    + intros H. destruct (IH _ _ _ H) as (Hsz & Hidx & Hsd & Hr).
      split; [congruence|]. split; [lia|]. split; [auto|].
      intros Hc Hl. apply Hr; [auto|]. unfold ladder_ok. rewrite Hsz1. exact Hl.
    + intros [= <- <-]. auto.
    + intros [= <- <-]. auto.
Qed.

Lemma sized_fresh self n :
  TABLE_SIZES self !! S (size_index self) = Some n -> 0 < n -> sized (fresh self n).
Proof.
  intros Hn Hpos. unfold sized, table_size. simpl. rewrite len_replicate.
  rewrite Z2Nat.id by lia. apply list_elem_of_lookup. eauto.
Qed.

Lemma rehash_outcome fuel :
  setitem_outcome_at V fuel ->
  forall self r self',
    _rehash fuel self = (r, self') ->
    TABLE_SIZES self' = TABLE_SIZES self /\
    (size_index self < size_index self')%nat /\
    (sized self -> sized self') /\
    (sized self -> ladder_ok self ->
     r = Ok tt \/ r = Raise FullError \/ r = OutOfFuel).
Proof.
  intros Hset self r self'. rewrite rehash_unfold.
  destruct (TABLE_SIZES self !! S (size_index self)) as [n|] eqn:Hn.
  - destruct (Z.leb_spec n 0) as [Hle | Hpos].
    + intros [= <- <-]. simpl. split; [reflexivity|]. split; [lia|].
      split; [auto|]. intros _ Hl. exfalso.
      assert (2 <= n) by (apply Hl, list_elem_of_lookup; eauto). lia.
    + intros H. destruct (reinsert_outcome fuel _ Hset _ _ _ H)
        as (Hsz & Hidx & Hsd & Hr).
      pose proof (sized_fresh self n Hn Hpos) as Hf.
      split; [exact Hsz|]. split; [simpl in Hidx; lia|]. split; [auto|].
      intros _ Hl. apply Hr; [exact Hf | exact Hl].
  - intros [= <- <-]. simpl. split; [reflexivity|]. split; [lia|]. auto.
Qed.

Lemma sized_stored self q key data : sized self -> sized (stored self q key data).
Proof.
  unfold sized. rewrite table_size_stored, (proj1 (stored_fields self key data q)). auto.
Qed.

Lemma setitem_outcome fuel : setitem_outcome_at V fuel.
Proof.
  induction fuel as [|fuel IH]; intros self key data r self';
    rewrite setitem_unfold;
    (destruct (_hashy_probe self key true) as [q| |] eqn:Hq;
     [ destruct (stored_fields self key data q) as [Hsz1 Hidx1]; cbv zeta;
       (destruct (_ <? _);
        [| intros [= <- <-]; split; [exact Hsz1|]; split; [lia|];
           split; [apply sized_stored | auto] ])
     | intros [= <- <-]; split; [reflexivity|]; split; [lia|];
       split; [auto|]; intros Hs Hl;
       assert (2 <= table_size self) as Hn by (apply Hl, Hs);
       destruct (_hashy_probe_cases self key true Hn) as [(q' & E & _) | E];
       rewrite E in Hq; [discriminate | injection Hq as <-; auto]
     | intros [= <- <-]; split; [reflexivity|]; split; [lia|]; auto ]).
  - intros [= <- <-]. split; [exact Hsz1|]. split; [lia|].
    split; [apply sized_stored | auto].
  - intros H. destruct (rehash_outcome fuel IH _ _ _ H) as (Hsz & Hidx & Hsd & Hr).
    split; [congruence|]. split; [lia|].
    split; [intros Hs; apply Hsd, sized_stored, Hs|].
    intros Hs Hl. apply Hr; [apply sized_stored, Hs|].
    unfold ladder_ok. rewrite Hsz1. exact Hl.
Qed.

(** *** Enough fuel *)

Lemma reinsert_total fuel items :
  (forall self key data,
     enough fuel self -> (__setitem__ fuel key data self).1 <> OutOfFuel) ->
  forall cur, enough fuel cur ->
    (for_each items (reinsert fuel) cur).1 <> OutOfFuel.
Proof.
  intros Hset. induction items as [|item items IH]; intros cur Hf; [discriminate|].
  simpl. unfold bind at 1.
  destruct (reinsert fuel item cur) as [r1 cur1] eqn:Hs.
  destruct r1 as [[]| |]; [|discriminate|].
  - apply IH. destruct item as [| |k v]; simpl in Hs.
    + injection Hs as <-. exact Hf.
    + injection Hs as <-. exact Hf.
    + destruct (setitem_outcome fuel _ _ _ _ _ Hs) as (Hsz & Hidx & _).
      destruct Hf as [Hf1 Hf2]. split; [exact Hf1|]. rewrite Hsz. lia.
  - exfalso. destruct item as [| |k v]; simpl in Hs; try discriminate.
    apply (Hset cur k v Hf). rewrite Hs. reflexivity.
Qed.

Lemma setitem_total fuel self key data :
  enough fuel self -> (__setitem__ fuel key data self).1 <> OutOfFuel.
Proof.
  revert self key data. induction fuel as [|fuel IH]; intros self key data [Hf1 Hf2];
    [lia|].
  rewrite setitem_unfold.
  pose proof (_hashy_probe_terminates self key true) as Ht.
  destruct (_hashy_probe self key true) as [q| |]; [|discriminate|congruence].
  cbv zeta. destruct (_ <? _); [|discriminate].
  rewrite rehash_unfold.
  destruct (stored_fields self key data q) as [Hsz1 Hidx1]. rewrite Hsz1, Hidx1.
  destruct (TABLE_SIZES self !! S (size_index self)) as [n|] eqn:Hn; [|discriminate].
  destruct (n <=? 0); [discriminate|].
  apply lookup_lt_Some in Hn.
  apply reinsert_total.
  - intros s k d Hs. apply IH. exact Hs.
  - split; unfold fresh; cbn [TABLE_SIZES size_index]; rewrite ?Hsz1, ?Hidx1; lia.
Qed.

Lemma sized_init sizes self : __init__ sizes = Ok self -> sized self.
Proof.
  unfold __init__. set (l := if sizes is Some l then l else default_TABLE_SIZES).
  change (seq_getitem l 0) with (seq_getitem l (Z.of_nat 0)).
  rewrite (seq_getitem_nat l 0).
  destruct (l !! 0%nat) as [n|] eqn:Hn; simpl; try discriminate.
  unfold ArrayR. destruct (Z.leb_spec n 0); simpl; try discriminate.
  intros [= <-]. unfold sized, table_size. simpl.
  rewrite len_replicate, Z2Nat.id by lia. apply list_elem_of_lookup. eauto.
Qed.

Lemma delitem_fields key self r self' :
  __delitem__ key self = (r, self') ->
  TABLE_SIZES self' = TABLE_SIZES self /\ size_index self' = size_index self /\
  table_size self' = table_size self.
Proof.
  rewrite delitem_unfold.
  destruct (_hashy_probe self key false); intros [= <- <-]; auto.
  unfold table_size. simpl. rewrite len_insert. auto.
Qed.

Lemma reachable_sized self : reachable self -> sized self.
Proof.
  induction 1 as [sizes self H | fuel key data self r self' _ IH H _
                  | key self r self' _ IH H].
  - exact (sized_init _ _ H).
  - destruct (setitem_outcome fuel _ _ _ _ _ H) as (_ & _ & Hs & _). auto.
  - destruct (delitem_fields _ _ _ _ H) as (Hsz & _ & Hn).
    unfold sized. rewrite Hsz, Hn. exact IH.
Qed.

Lemma dynamic_set_get fuel self key data self' :
  reachable self -> __setitem__ fuel key data self = (Ok tt, self') ->
  __getitem__ self' key = Ok data.
Proof.
  intros Hr H. apply reachable_inv in Hr.
  destruct (setitem_spec fuel _ _ _ _ _ Hr H) as (Hinv' & _ & _ & Hupd).
  apply getitem_entries; [exact Hinv'|]. apply (Hupd eq_refl). auto.
Qed.

(** C9. In every state that can be reached [count] is at most the
    capacity. [__setitem__] calls [_rehash] exactly when it has found a
    slot and written the pair and [count] is then above two thirds of
    the capacity, and returns at once otherwise. [_rehash] moves
    [size_index] up and nothing else does: [size_index] goes up in
    [__setitem__] when the load is above two thirds after the write and
    stays as it is when it is not or when no slot was found, and
    [__delitem__] leaves [size_index] and the capacity alone. *)
Theorem rehash_exactly_above_two_thirds self :
  reachable self ->
  count self <= table_size self /\
  (forall fuel key data position,
     _hashy_probe self key true = Ok position ->
     let self1 := stored self position key data in
     __setitem__ (S fuel) key data self =
       if 2 * table_size self1 <? 3 * count self1
       then _rehash fuel self1 else (Ok tt, self1)) /\
  (forall fuel key data r self',
     __setitem__ fuel key data self = (r, self') -> r <> OutOfFuel ->
     ((size_index self < size_index self')%nat <->
      exists position,
        _hashy_probe self key true = Ok position /\
        2 * table_size (stored self position key data)
          < 3 * count (stored self position key data))) /\
  (forall key r self',
     __delitem__ key self = (r, self') ->
     size_index self' = size_index self /\ table_size self' = table_size self).
Proof.
  intros Hr. pose proof (reachable_inv self Hr) as [Hwf Hc].
  split; [|split; [|split]].
  - rewrite Hc. apply len_entries_le.
  - intros fuel key data position Hq. rewrite setitem_unfold, Hq. reflexivity.
  - intros fuel key data r self'. rewrite setitem_unfold.
    destruct (_hashy_probe self key true) as [q| |] eqn:Hq;
      [| intros [= <- <-] _; split; [lia | intros (? & ? & _); discriminate] ..].
    destruct (stored_fields self key data q) as [Hsz1 Hidx1]. cbv zeta.
    destruct (Z.ltb_spec (2 * table_size (stored self q key data))
                         (3 * count (stored self q key data))) as [Hlt | Hge].
    + destruct fuel as [|fuel]; [intros [= <- <-]; congruence|].
      intros H _. destruct (rehash_outcome fuel (setitem_outcome fuel) _ _ _ H)
        as (_ & Hidx & _).
      split; [eauto | lia].
    + intros [= <- <-] _. split; [lia|].
      intros (q' & [= <-] & Hlt). lia.
  - intros key r self' H. destruct (delitem_fields _ _ _ _ H) as (_ & ? & ?). auto.
Qed.

(** C4, as the code has it. On a table whose ladder has capacities of
    two slots or more, [set(k, v)] returns or raises [FullError]. When
    the probe found no slot, the table is as it was before the call. When
    the error comes from [_rehash], the pair has been written before:
    [size_index] has gone up, and if the ladder had no capacity left when
    the call was made, the table is the one right after the write, with
    [k] mapped to [v] and [count] brought up to date, and with
    [size_index] one higher. *)
Theorem set_fails_in_probe_or_after_write fuel self key data r self' :
  reachable self -> ladder_ok self -> enough fuel self ->
  __setitem__ fuel key data self = (r, self') ->
  r = Ok tt \/
  (r = Raise FullError /\
   ((_hashy_probe self key true = Raise FullError /\ self' = self) \/
    (exists position,
       _hashy_probe self key true = Ok position /\
       (size_index self < size_index self')%nat /\
       ((length (TABLE_SIZES self) <= S (size_index self))%nat ->
        self' = set_size_index (S (size_index self))
                  (stored self position key data))))).
Proof.
  intros Hr Hl Hf H. pose proof (reachable_sized self Hr) as Hs.
  pose proof (setitem_total fuel self key data Hf) as Ht. rewrite H in Ht. simpl in Ht.
  destruct (setitem_outcome fuel _ _ _ _ _ H) as (_ & _ & _ & Hout).
  destruct (Hout Hs Hl) as [-> | [-> | ->]]; [auto | | congruence].
  right. split; [reflexivity|]. revert H. rewrite setitem_unfold.
  destruct (_hashy_probe self key true) as [q| |] eqn:Hq; [| |discriminate].
  - destruct (stored_fields self key data q) as [Hsz1 Hidx1]. cbv zeta.
    destruct (_ <? _); [|discriminate].
    destruct fuel as [|fuel]; [discriminate|]. intros H.
    right. exists q. split; [reflexivity|].
    destruct (rehash_outcome fuel (setitem_outcome fuel) _ _ _ H) as (_ & Hidx & _).
    split; [lia|]. intros Hlast. revert H. rewrite rehash_unfold, Hsz1, Hidx1.
    rewrite (proj2 (lookup_ge_None (TABLE_SIZES self) (S (size_index self)))) by lia.
    intros [= <-]. reflexivity.
  - intros [= -> <-]. left. auto.
Qed.

(** *** Inserting a new key into a table of prime capacity *)

Lemma contents_keys self l key :
  contents self l -> key ∉ l.*1 -> key ∉ (entries (array self)).*1.
Proof.
  intros Hc Hk Hin. apply Hk.
  apply list_elem_of_fmap in Hin as (x & -> & Hin).
  apply list_elem_of_fmap. exists x. split; [reflexivity|]. apply Hc. exact Hin.
Qed.

Lemma insert_finds_slot self key :
  Z.prime (table_size self) -> used (array self) < table_size self ->
  exists q, _hashy_probe self key true = Ok q.
Proof.
  intros Hp Hu. pose proof (Z.prime_ge_2 _ Hp) as Hn.
  destruct (_hashy_probe_cases self key true Hn) as [(q & Hq & _) | Hfull]; [eauto|].
  exfalso. rewrite (used_full (array self)) in Hu; [unfold table_size in Hu; lia|].
  intros item. apply (_hashy_probe_full self key item Hp Hfull).
Qed.

Lemma insert_new_slot self key q :
  _hashy_probe self key true = Ok q -> key ∉ (entries (array self)).*1 ->
  array self !! Z.to_nat q = Some Empty.
Proof.
  intros Hq Hk.
  destruct (ends_at_inv _ _ _ _ (_hashy_probe_ends _ _ _ _ Hq))
    as [_ [[d Hd] | [He _]]]; [|exact He].
  exfalso. apply Hk. apply list_elem_of_fmap. exists (key, d).
  split; [reflexivity|]. apply elem_of_entries. eauto.
Qed.

(** The state after the write of a new key. *)
Lemma stored_new self key data q l :
  inv self -> _hashy_probe self key true = Ok q ->
  contents self l -> key ∉ l.*1 ->
  let self1 := stored self q key data in
  inv self1 /\ contents self1 ((key, data) :: l) /\
  count self1 = count self + 1 /\
  used (array self1) = used (array self) + 1 /\
  table_size self1 = table_size self /\
  size_index self1 = size_index self /\
  TABLE_SIZES self1 = TABLE_SIZES self.
Proof.
  intros Hinv Hq Hc Hk self1. subst self1.
  pose proof (insert_new_slot self key q Hq (contents_keys _ _ _ Hc Hk)) as He.
  destruct (stored_fields self key data q) as [Hsz Hidx].
  split; [apply inv_stored; assumption|]. split; [|split; [|split; [|split]]]; auto.
  - intros [k v]. rewrite (updated_stored self key data q (proj1 Hinv) Hq k v).
    rewrite elem_of_cons, <- (Hc (k, v)). split.
    + intros [[-> ->] | [_ H]]; auto.
    + intros [[= -> ->] | H]; [auto|]. right. split; [|exact H].
      intros ->. apply Hk. apply list_elem_of_fmap. exists (key, v).
      split; [reflexivity|]. apply Hc. exact H.
  - unfold stored. rewrite He. reflexivity.
  - rewrite array_stored, (used_insert _ _ _ _ He). unfold nonempty. simpl. lia.
  - apply table_size_stored.
Qed.

(** Below the load of two thirds the pair is written and that is all. *)
Lemma insert_new self key data l :
  inv self -> Z.prime (table_size self) -> used (array self) < table_size self ->
  contents self l -> key ∉ l.*1 ->
  3 * (count self + 1) <= 2 * table_size self ->
  exists self1,
    (forall fuel, __setitem__ fuel key data self = (Ok tt, self1)) /\
    inv self1 /\ contents self1 ((key, data) :: l) /\
    count self1 = count self + 1 /\
    used (array self1) = used (array self) + 1 /\
    table_size self1 = table_size self /\
    size_index self1 = size_index self /\
    TABLE_SIZES self1 = TABLE_SIZES self.
Proof.
  intros Hinv Hp Hu Hc Hk Hload.
  destruct (insert_finds_slot self key Hp Hu) as [q Hq].
  pose proof (stored_new self key data q l Hinv Hq Hc Hk) as Hnew.
  exists (stored self q key data). split; [|exact Hnew].
  destruct Hnew as (_ & _ & Hcount & _ & Hsize & _).
  intros fuel. rewrite setitem_unfold, Hq. cbv zeta.
  destruct (Z.ltb_spec (2 * table_size (stored self q key data))
              (3 * count (stored self q key data))); [lia | reflexivity].
Qed.

(** [_rehash] puts the pairs of the old array into a table that is large
    enough for them. *)
Lemma reinsert_new items :
  forall cur l,
    inv cur -> Z.prime (table_size cur) -> used (array cur) = count cur ->
    contents cur l -> NoDup (entries items).*1 ->
    (forall k, k ∈ (entries items).*1 -> k ∉ l.*1) ->
    3 * (count cur + len (entries items)) <= 2 * table_size cur ->
    exists self',
      (forall fuel, for_each items (reinsert fuel) cur = (Ok tt, self')) /\
      inv self' /\ contents self' (entries items ++ l) /\
      count self' = count cur + len (entries items) /\
      used (array self') = count self' /\
      table_size self' = table_size cur /\
      size_index self' = size_index cur /\
      TABLE_SIZES self' = TABLE_SIZES cur.
Proof.
  induction items as [|item items IH]; intros cur l Hinv Hp Hu Hc Hnd Hdis Hload.
  - exists cur. split; [intros fuel; reflexivity|]. split; [exact Hinv|].
    split; [exact Hc|]. unfold len. simpl.
    split; [lia|]. split; [exact Hu|]. auto.
  - destruct item as [| |k v].
    + destruct (IH cur l) as (self' & Hrun & H); auto. exists self'.
      split; [|exact H]. intros fuel. simpl. unfold bind at 1. apply Hrun.
    + destruct (IH cur l) as (self' & Hrun & H); auto. exists self'.
      split; [|exact H]. intros fuel. simpl. unfold bind at 1. apply Hrun.
    + simpl in Hnd, Hdis, Hload. apply list.NoDup_cons in Hnd as [Hk Hnd].
      assert (len ((k, v) :: entries items) = 1 + len (entries items)) as Hlen
        by (unfold len; simpl; lia).
      rewrite Hlen in Hload.
      assert (0 <= len (entries items)) by (unfold len; lia).
      pose proof (Z.prime_ge_2 _ Hp).
      destruct (insert_new cur k v l) as (cur1 & Hset & Hinv1 & Hc1 & Hcount1 &
        Hused1 & Hsize1 & Hidx1 & Hsz1); auto; try lia.
      { apply Hdis. left. }
      destruct (IH cur1 ((k, v) :: l)) as (self' & Hrun & Hinv' & Hc' & Hcount' &
        Hused' & Hsize' & Hidx' & Hsz'); auto; try lia; try congruence.
      { intros k' Hk'. simpl. apply not_elem_of_cons. split.
        - intros ->. contradiction.
        - apply Hdis. right. exact Hk'. }
      exists self'. split; [|split; [exact Hinv'|split]].
      * intros fuel. simpl. unfold bind at 1. rewrite Hset. apply Hrun.
      * intros x. rewrite (Hc' x). simpl.
        rewrite elem_of_app, !elem_of_cons, elem_of_app. tauto.
      * simpl. rewrite Hlen. repeat split; try congruence; lia.
Qed.

(** Above the load of two thirds the table moves to the next capacity. *)
Lemma insert_new_grow self key data l n :
  inv self -> Z.prime (table_size self) -> used (array self) < table_size self ->
  contents self l -> key ∉ l.*1 ->
  2 * table_size self < 3 * (count self + 1) ->
  TABLE_SIZES self !! S (size_index self) = Some n -> Z.prime n ->
  3 * (count self + 1) <= 2 * n ->
  exists self2,
    (forall fuel, __setitem__ (S fuel) key data self = (Ok tt, self2)) /\
    inv self2 /\ (forall x, x ∈ entries (array self2) <-> x ∈ (key, data) :: l) /\
    count self2 = count self + 1 /\
    used (array self2) = count self2 /\
    table_size self2 = n /\
    size_index self2 = S (size_index self) /\
    TABLE_SIZES self2 = TABLE_SIZES self.
Proof.
  intros Hinv Hp Hu Hc Hk Hload Hn Hpn Hload'.
  destruct (insert_finds_slot self key Hp Hu) as [q Hq].
  destruct (stored_new self key data q l Hinv Hq Hc Hk)
    as (Hinv1 & Hc1 & Hcount1 & Hused1 & Hsize1 & Hidx1 & Hsz1).
  set (self1 := stored self q key data) in *.
  pose proof (Z.prime_ge_2 _ Hpn) as Hn2.
  destruct (reinsert_new (array self1) (fresh self1 n) [])
    as (self2 & Hrun & Hinv2 & Hc2 & Hcount2 & Hused2 & Hsize2 & Hidx2 & Hsz2).
  - apply inv_fresh.
  - unfold table_size. simpl. rewrite len_replicate, Z2Nat.id by lia. exact Hpn.
  - simpl. apply used_replicate.
  - intros x. simpl. rewrite entries_replicate. reflexivity.
  - apply wf_NoDup_keys, Hinv1.
  - intros k _. simpl. apply not_elem_of_nil.
  - rewrite <- (proj2 Hinv1). unfold table_size, fresh. cbn [array count].
    rewrite len_replicate, Z2Nat.id by lia. lia.
  - exists self2. split; [|split; [exact Hinv2|split]].
    + intros fuel. rewrite setitem_unfold, Hq. cbv zeta. fold self1.
      destruct (Z.ltb_spec (2 * table_size self1) (3 * count self1)); [|lia].
      rewrite rehash_unfold, Hsz1, Hidx1, Hn.
      destruct (Z.leb_spec n 0); [lia|]. apply Hrun.
    + intros x. rewrite (Hc2 x), app_nil_r. apply Hc1.
    + rewrite <- (proj2 Hinv1) in Hcount2.
      unfold table_size, fresh in Hsize2. cbn [array] in Hsize2.
      rewrite len_replicate, Z2Nat.id in Hsize2 by lia.
      unfold fresh in *. cbn [count size_index TABLE_SIZES] in *.
      split; [lia|]. split; [exact Hused2|]. split; [exact Hsize2|].
      split; congruence.
Qed.

(** C1. A table with the ladder [5, 13] takes three keys that differ
    without a rehash: [size_index] stays [0] and the capacity [5]. A
    fourth key brings [count] to four, above two thirds of five, and
    [_rehash] is called once: [size_index] is then [1], the capacity
    [13], [len] is [4], and each of the four keys is found with the
    value that was set for it. *)
Theorem growth_from_5_to_13 (k1 k2 k3 k4 : str) (v1 v2 v3 v4 : V) (fuel : nat) :
  NoDup [k1; k2; k3; k4] ->
  exists t0 t1 t2 t3 t4 : @t V,
    __init__ (Some [5; 13]) = Ok t0 /\
    __setitem__ (S fuel) k1 v1 t0 = (Ok tt, t1) /\
    __setitem__ (S fuel) k2 v2 t1 = (Ok tt, t2) /\
    __setitem__ (S fuel) k3 v3 t2 = (Ok tt, t3) /\
    Forall (fun t => size_index t = 0%nat /\ table_size t = 5) [t0; t1; t2; t3] /\
    __len__ t3 = 3 /\
    __setitem__ (S fuel) k4 v4 t3 = (Ok tt, t4) /\
    size_index t4 = 1%nat /\ table_size t4 = 13 /\ __len__ t4 = 4 /\
    __getitem__ t4 k1 = Ok v1 /\ __getitem__ t4 k2 = Ok v2 /\
    __getitem__ t4 k3 = Ok v3 /\ __getitem__ t4 k4 = Ok v4.
Proof.
  intros Hnd.
  assert (k1 <> k2 /\ k1 <> k3 /\ k1 <> k4 /\ k2 <> k3 /\ k2 <> k4 /\ k3 <> k4)
    as (H12 & H13 & H14 & H23 & H24 & H34).
  { repeat (apply list.NoDup_cons in Hnd as [? Hnd]).
    repeat match goal with
           | H : _ ∉ _ :: _ |- _ => apply not_elem_of_cons in H as [? ?]
           end.
    auto 10. }
  set (t0 := mk [5; 13] 0 (replicate 5 (@Empty V)) 0).
  assert (inv t0) as Hinv0 by (apply (inv_init (Some [5; 13])); reflexivity).
  assert (contents t0 []) as Hc0 by (intros x; reflexivity).
  assert (table_size t0 = 5) as Hs0 by reflexivity.
  assert (count t0 = 0) as Hn0 by reflexivity.
  assert (used (array t0) = 0) as Hu0 by reflexivity.
  assert (size_index t0 = 0%nat) as Hi0 by reflexivity.
  destruct (insert_new t0 k1 v1 []) as (t1 & E1 & Hinv1 & Hc1 & Hn1 & Hu1 & Hs1 & Hi1 & Hz1);
    auto; try lia.
  { rewrite Hs0. exact prime_5. }
  { apply not_elem_of_nil. }
  destruct (insert_new t1 k2 v2 [(k1, v1)])
    as (t2 & E2 & Hinv2 & Hc2 & Hn2 & Hu2 & Hs2 & Hi2 & Hz2); auto; try lia.
  { rewrite Hs1, Hs0. exact prime_5. }
  { simpl. rewrite !not_elem_of_cons. repeat split; try congruence. apply not_elem_of_nil. }
  destruct (insert_new t2 k3 v3 [(k2, v2); (k1, v1)])
    as (t3 & E3 & Hinv3 & Hc3 & Hn3 & Hu3 & Hs3 & Hi3 & Hz3); auto; try lia.
  { rewrite Hs2, Hs1, Hs0. exact prime_5. }
  { simpl. rewrite !not_elem_of_cons. repeat split; try congruence. apply not_elem_of_nil. }
  destruct (insert_new_grow t3 k4 v4 [(k3, v3); (k2, v2); (k1, v1)] 13)
    as (t4 & E4 & Hinv4 & Hc4 & Hn4 & Hu4 & Hs4 & Hi4 & Hz4); auto; try lia.
  { rewrite Hs3, Hs2, Hs1, Hs0. exact prime_5. }
  { simpl. rewrite !not_elem_of_cons. repeat split; try congruence. apply not_elem_of_nil. }
  { rewrite Hz3, Hz2, Hz1, Hi3, Hi2, Hi1. reflexivity. }
  { exact prime_13. }
  exists t0, t1, t2, t3, t4.
  split; [reflexivity|]. split; [apply E1|]. split; [apply E2|]. split; [apply E3|].
  split.
  { repeat (apply List.Forall_cons; [split; lia|]). apply List.Forall_nil. }
  split; [unfold __len__; lia|]. split; [apply E4|].
  split; [lia|]. split; [exact Hs4|]. split; [unfold __len__; lia|].
  repeat split; apply getitem_entries; try exact Hinv4; apply Hc4;
    rewrite !elem_of_cons; auto 10.
Qed.

(** *** Runs of calls *)

Lemma enough_default self : enough (S (length (TABLE_SIZES self))) self.
Proof. split; lia. Qed.

Lemma reachable_step (o : @op V) self : reachable self -> reachable (step o self).
Proof.
  intros Hr. destruct o as [key data | key]; unfold step.
  - destruct (__setitem__ (S (length (TABLE_SIZES self))) key data self)
      as [r self'] eqn:H.
    apply (reach_set _ key data self r self' Hr H).
    pose proof (setitem_total _ self key data (enough_default self)) as Ht.
    rewrite H in Ht. exact Ht.
  - destruct (__delitem__ key self) as [r self'] eqn:H.
    exact (reach_del key self r self' Hr H).
Qed.

Lemma reachable_run (ops : list (@op V)) self :
  reachable self -> reachable (run ops self).
Proof.
  revert self. induction ops as [|o ops IH]; intros self Hr; [exact Hr|].
  apply IH, reachable_step, Hr.
Qed.

End Facts.

(** *** The properties on the tables of the examples *)

Import Examples.

(** C8 and C7 for the fresh table of five slots and the key [a]. *)
Lemma hash2_range_witness :
  2 <= table_size five_slots /\
  exists s, hash2 five_slots a = Ok s /\
    1 <= s <= table_size five_slots - 1.
Proof.
  assert (2 <= table_size five_slots) as H by (vm_compute; discriminate).
  split; [exact H|]. exact (hash2_range five_slots a H).
Defined.

Lemma probe_covers_and_terminates_witness :
  Z.prime (table_size five_slots) /\
  exists h s,
    hash five_slots a = Ok h /\
    hash2 five_slots a = Ok s /\
    (forall p, 0 <= p < table_size five_slots ->
       exists i : nat, (i < length (array five_slots))%nat /\
         probe_seq five_slots s h i = p) /\
    (forall i : nat, (0 < i < length (array five_slots))%nat ->
       probe_seq five_slots s h i <> h) /\
    probe_seq five_slots s h (length (array five_slots)) = h /\
    (forall is_insert,
       (exists q, _hashy_probe five_slots a is_insert = Ok q /\
          0 <= q < table_size five_slots) \/
       _hashy_probe five_slots a is_insert =
         Raise (if is_insert then FullError else KeyError)) /\
    (forall is_insert (j : nat) item,
       (j < length (array five_slots))%nat ->
       (forall i : nat, (i < j)%nat ->
          exists item',
            getitem (array five_slots) (probe_seq five_slots s h i) = Ok item' /\
            is_None item' = false /\ holds_key item' a = false) ->
       getitem (array five_slots) (probe_seq five_slots s h j) = Ok item ->
       is_None item = true \/ holds_key item a = true ->
       _hashy_probe five_slots a is_insert =
         if is_None item && negb is_insert then Raise KeyError
         else Ok (probe_seq five_slots s h j)) /\
    (forall is_insert,
       (forall item, item ∈ array five_slots ->
          is_None item = false /\ holds_key item a = false) ->
       _hashy_probe five_slots a is_insert =
         Raise (if is_insert then FullError else KeyError)) /\
    (_hashy_probe five_slots a true = Raise FullError ->
     forall item, item ∈ array five_slots -> is_None item = false).
Proof.
  assert (Z.prime (table_size five_slots)) as H by exact prime_5.
  split; [exact H|].
  exact (probe_covers_and_terminates five_slots a H).
Defined.

Lemma reachable_five_slots : reachable five_slots.
Proof. apply (reach_init (Some [5; 13])). reflexivity. Qed.

Lemma reachable_three_of_five : reachable three_of_five.
Proof. apply reachable_run, (reach_init (Some [5])). reflexivity. Qed.

(** C1 for the keys [a], [b], [c] and [d]. *)
Lemma growth_from_5_to_13_witness :
  NoDup [a; b; c; d] /\
  exists t0 t1 t2 t3 t4 : @t Z,
    __init__ (Some [5; 13]) = Ok t0 /\
    __setitem__ 1 a 1 t0 = (Ok tt, t1) /\
    __setitem__ 1 b 2 t1 = (Ok tt, t2) /\
    __setitem__ 1 c 3 t2 = (Ok tt, t3) /\
    Forall (fun t => size_index t = 0%nat /\ table_size t = 5) [t0; t1; t2; t3] /\
    __len__ t3 = 3 /\
    __setitem__ 1 d 4 t3 = (Ok tt, t4) /\
    size_index t4 = 1%nat /\ table_size t4 = 13 /\ __len__ t4 = 4 /\
    __getitem__ t4 a = Ok 1 /\ __getitem__ t4 b = Ok 2 /\
    __getitem__ t4 c = Ok 3 /\ __getitem__ t4 d = Ok 4.
Proof.
  assert (NoDup [a; b; c; d]) as H by (apply (bool_decide_unpack _); vm_compute; exact I).
  split; [exact H|].
  exact (growth_from_5_to_13 a b c d 1 2 3 4 0 H).
Defined.

(** C2. A [set(k, v)] that succeeds is followed by a [get(k)] that returns
    [v]: in the fixed table for every key, and so for every key of the
    enumeration, and in every state of the dynamic table that can be
    reached, for every string. *)
Theorem set_then_get {V : Type} (PlayerStats : str -> bool)
    (fixed fixed' : @HashyPerfectionTable.t V) (self self' : @t V)
    (fuel : nat) (key : str) (data : V) :
  (HashyPerfectionTable.__setitem__ PlayerStats key data fixed = (Ok tt, fixed') ->
   HashyPerfectionTable.__getitem__ PlayerStats fixed' key = Ok data) /\
  (reachable self -> __setitem__ fuel key data self = (Ok tt, self') ->
   __getitem__ self' key = Ok data).
Proof.
  split.
  - apply FixedKeyTable.perfect_set_get.
  - apply dynamic_set_get.
Qed.

(** C2 for the key [Goals] in the two fresh tables. *)
Lemma set_then_get_witness :
  let fixed' := HashyPerfectionTable.mk (<[11%nat := Some (Goals, 7)]> (replicate 13 None)) 1 in
  let self' := (__setitem__ 1 Goals 7 five_slots).2 in
  (HashyPerfectionTable.__setitem__ only_Goals Goals 7 thirteen_slots = (Ok tt, fixed') /\
   HashyPerfectionTable.__getitem__ only_Goals fixed' Goals = Ok 7) /\
  (reachable five_slots /\ __setitem__ 1 Goals 7 five_slots = (Ok tt, self') /\
   __getitem__ self' Goals = Ok 7).
Proof.
  intros fixed' self'.
  assert (HashyPerfectionTable.__setitem__ only_Goals Goals 7 thirteen_slots = (Ok tt, fixed'))
    as H1 by (vm_compute; reflexivity).
  assert (__setitem__ 1 Goals 7 five_slots = (Ok tt, self')) as H2
    by (vm_compute; reflexivity).
  pose proof (set_then_get only_Goals thirteen_slots fixed' five_slots self' 1 Goals 7)
    as [Hf Hd].
  split; [split; [exact H1 | exact (Hf H1)]|].
  split; [exact reachable_five_slots|]. split; [exact H2|].
  exact (Hd reachable_five_slots H2).
Defined.

(** C3, where the code parts from it. The table with the ladder [5, 13]
    in which [a] was set and deleted five times has a capacity left on its
    ladder and no pair in it, and yet [set] raises [FullError] on it: every
    slot holds the mark of a deleted entry, which the probe for an
    insertion never takes. *)
Theorem FullError_with_ladder_left :
  reachable five_tombstones /\
  TABLE_SIZES five_tombstones = [5; 13] /\
  size_index five_tombstones = 0%nat /\
  count five_tombstones = 0 /\
  array five_tombstones = replicate 5 Tombstone /\
  __setitem__ 2 a 1 five_tombstones = (Raise FullError, five_tombstones).
Proof.
  split; [apply reachable_run, reachable_five_slots|].
  repeat split; vm_compute; reflexivity.
Qed.

(** C4 does not hold as it is stated: on the table with the ladder [5]
    that holds [a], [b] and [c], [set(d, 4)] raises [FullError] and leaves
    another table behind, in which [d] is found, [count] is four and
    [size_index] is one. *)
Lemma failed_set_changes_table :
  reachable three_of_five /\
  __setitem__ 2 d 4 three_of_five =
    (Raise FullError,
     mk [5] 1 [Occupied d 4; Empty; Occupied a 1; Occupied b 2; Occupied c 3] 4) /\
  three_of_five = mk [5] 0 [Empty; Empty; Occupied a 1; Occupied b 2; Occupied c 3] 3 /\
  __getitem__ three_of_five d = Raise KeyError /\
  __getitem__ (__setitem__ 2 d 4 three_of_five).2 d = Ok 4.
Proof.
  split; [exact reachable_three_of_five|].
  repeat split; vm_compute; reflexivity.
Qed.

(** C4, as the code has it, on the same table. *)
Lemma set_fails_in_probe_or_after_write_witness :
  let self' := mk [5] 1 [Occupied d 4; Empty; Occupied a 1; Occupied b 2; Occupied c 3] 4 in
  let r : result unit := Raise FullError in
  reachable three_of_five /\ ladder_ok three_of_five /\ enough 2 three_of_five /\
  __setitem__ 2 d 4 three_of_five = (r, self') /\
  (r = Ok tt \/
   (r = Raise FullError /\
    ((_hashy_probe three_of_five d true = Raise FullError /\ self' = three_of_five) \/
     (exists position,
        _hashy_probe three_of_five d true = Ok position /\
        (size_index three_of_five < size_index self')%nat /\
        ((length (TABLE_SIZES three_of_five) <= S (size_index three_of_five))%nat ->
         self' = set_size_index (S (size_index three_of_five))
                   (stored three_of_five position d 4)))))).
Proof.
  intros self' r.
  assert (ladder_ok three_of_five) as Hl.
  { intros n Hn. apply list_elem_of_In in Hn. vm_compute in Hn. lia. }
  assert (enough 2 three_of_five) as Hf by (split; vm_compute; lia).
  assert (__setitem__ 2 d 4 three_of_five = (r, self')) as H
    by (vm_compute; reflexivity).
  split; [exact reachable_three_of_five|]. split; [exact Hl|]. split; [exact Hf|].
  split; [exact H|].
  exact (set_fails_in_probe_or_after_write 2 three_of_five d 4 r self'
           reachable_three_of_five Hl Hf H).
Defined.

(** C5, where the code parts from it. In the dynamic table [keys] and
    [values] subscript whatever is not [None]: on a table with a deleted
    entry they raise [TypeError]. In the fixed table they look at the
    first [count] slots only: with the one key [Goals] set, which is in
    slot eleven, they return thirteen times [None]. *)
Theorem keys_and_values_miss_slots (PlayerStats : str -> bool) :
  PlayerStats Goals = true ->
  (reachable one_tombstone /\
   keys one_tombstone = Raise TypeError /\ values one_tombstone = Raise TypeError) /\
  (exists fixed : @HashyPerfectionTable.t Z,
     HashyPerfectionTable.__setitem__ PlayerStats Goals 7 thirteen_slots = (Ok tt, fixed) /\
     HashyPerfectionTable.array fixed !! 11%nat = Some (Some (Goals, 7)) /\
     HashyPerfectionTable.keys fixed = Ok (replicate 13 None) /\
     HashyPerfectionTable.values fixed = Ok (replicate 13 None)).
Proof.
  intros HG. split.
  - split; [apply reachable_run, (reach_init None); reflexivity|].
    split; vm_compute; reflexivity.
  - exists (HashyPerfectionTable.mk (<[11%nat := Some (Goals, 7)]> (replicate 13 None)) 1).
    split; [|repeat split; vm_compute; reflexivity].
    unfold HashyPerfectionTable.__setitem__, bind, call, HashyPerfectionTable._is_valid_key.
    rewrite HG. vm_compute. reflexivity.
Qed.

(** C5 with the enumeration that has the one value [Goals]. *)
Lemma keys_and_values_miss_slots_witness :
  only_Goals Goals = true /\
  (reachable one_tombstone /\
   keys one_tombstone = Raise TypeError /\ values one_tombstone = Raise TypeError) /\
  (exists fixed : @HashyPerfectionTable.t Z,
     HashyPerfectionTable.__setitem__ only_Goals Goals 7 thirteen_slots = (Ok tt, fixed) /\
     HashyPerfectionTable.array fixed !! 11%nat = Some (Some (Goals, 7)) /\
     HashyPerfectionTable.keys fixed = Ok (replicate 13 None) /\
     HashyPerfectionTable.values fixed = Ok (replicate 13 None)).
Proof.
  assert (only_Goals Goals = true) as H by (vm_compute; reflexivity).
  split; [exact H|]. exact (keys_and_values_miss_slots only_Goals H).
Defined.

(** C9 for the fresh table of five slots. *)
Lemma rehash_exactly_above_two_thirds_witness :
  reachable five_slots /\
  count five_slots <= table_size five_slots /\
  (forall fuel key data position,
     _hashy_probe five_slots key true = Ok position ->
     let self1 := stored five_slots position key data in
     __setitem__ (S fuel) key data five_slots =
       if 2 * table_size self1 <? 3 * count self1
       then _rehash fuel self1 else (Ok tt, self1)) /\
  (forall fuel key data r self',
     __setitem__ fuel key data five_slots = (r, self') -> r <> OutOfFuel ->
     ((size_index five_slots < size_index self')%nat <->
      exists position,
        _hashy_probe five_slots key true = Ok position /\
        2 * table_size (stored five_slots position key data)
          < 3 * count (stored five_slots position key data))) /\
  (forall key r self',
     __delitem__ key five_slots = (r, self') ->
     size_index self' = size_index five_slots /\
     table_size self' = table_size five_slots).
Proof.
  split; [exact reachable_five_slots|].
  exact (rehash_exactly_above_two_thirds five_slots reachable_five_slots).
Defined.

End DynamicHashTable.

(** * Further properties *)

(** ** The dynamic table: deletion, membership and listing *)

Module DynamicHashTableMore.
Import HashyStepTable StepTableVocabulary DynamicHashTable.
Section Facts.

Context {V : Type}.
Implicit Types (self cur : @t V) (key : str) (data : V) (item : @slot V).
Implicit Types (a : list (@slot V)).

(** A probe that finds a slot ran in a table of two slots or more. *)
Lemma probe_Ok_size self key ins q :
  _hashy_probe self key ins = Ok q -> 2 <= table_size self.
Proof.
  intros Hq. destruct (_hashy_probe_ends _ _ _ _ Hq) as (item & Hg & _).
  apply getitem_Ok in Hg as [Hq0 Hl]. apply lookup_lt_Some in Hl.
  revert Hq. unfold _hashy_probe, hash2.
  destruct (hash self key) as [h| |]; simpl; try discriminate.
  unfold py_mod. destruct (Z.eqb_spec (table_size self - 1) 0) as [E|E]; simpl;
    [discriminate|]. intros _. unfold table_size, len in *. lia.
Qed.

Lemma getitem_cases {A} (l : list A) p :
  (0 <= p < len l /\ exists x, getitem l p = Ok x /\ l !! Z.to_nat p = Some x) \/
  (~ 0 <= p < len l /\ getitem l p = Raise IndexError).
Proof.
  destruct (decide (0 <= p < len l)) as [H | H].
  - left. split; [exact H|]. apply getitem_in_range. exact H.
  - right. split; [exact H|]. unfold getitem.
    destruct (Z.leb_spec 0 p); destruct (Z.ltb_spec p (len l)); simpl; try reflexivity.
    lia.
Qed.

(** Two runs of the loop over arrays whose slots look the same to a search
    for [key] come to the same end. *)
Lemma probe_loop_same fuel self self' key ins s i p :
  len (array self) = len (array self') ->
  (forall p item item',
     getitem (array self) p = Ok item -> getitem (array self') p = Ok item' ->
     is_None item = is_None item' /\ holds_key item key = holds_key item' key) ->
  probe_loop fuel self key ins s i p = probe_loop fuel self' key ins s i p.
Proof.
  intros Hlen Hsame. revert p. induction fuel as [|fuel IH]; intros p;
    rewrite !probe_loop_eq; unfold table_size; rewrite <- Hlen;
    (destruct (getitem_cases (array self) p) as [[Hp (item & Hg & _)] | [Hp Hg]];
     destruct (getitem_cases (array self') p) as [[Hp' (item' & Hg' & _)] | [Hp' Hg']];
     try (exfalso; lia); rewrite Hg, Hg'; [|reflexivity]);
    simpl; destruct (Hsame p item item' Hg Hg') as [<- <-];
    (destruct (is_None item); [reflexivity|]);
    (destruct (holds_key item key); [reflexivity|]);
    (destruct (py_mod _ _) as [p'| |]; simpl; try reflexivity);
    (destruct (p' =? i); [reflexivity|]).
  apply IH.
Qed.

Lemma _hashy_probe_same self self' key ins :
  len (array self) = len (array self') ->
  (forall p item item',
     getitem (array self) p = Ok item -> getitem (array self') p = Ok item' ->
     is_None item = is_None item' /\ holds_key item key = holds_key item' key) ->
  _hashy_probe self key ins = _hashy_probe self' key ins.
Proof.
  intros Hlen Hsame.
  rewrite (_hashy_probe_size self self' key ins) by exact Hlen.
  unfold _hashy_probe.
  destruct (hash self' key) as [h| |]; simpl; try reflexivity.
  destruct (hash2 self' key) as [s| |]; simpl; try reflexivity.
  apply probe_loop_same; assumption.
Qed.

(** The table that [__delitem__] leaves when it found the key at [q]. *)
Lemma delitem_Ok key self self' :
  __delitem__ key self = (Ok tt, self') ->
  exists q data,
    _hashy_probe self key false = Ok q /\ 0 <= q /\
    array self !! Z.to_nat q = Some (Occupied key data) /\
    self' = set_count (count self - 1)
              (set_array (<[Z.to_nat q := Tombstone]> (array self)) self).
Proof.
  rewrite delitem_unfold.
  destruct (_hashy_probe self key false) as [q| |] eqn:Hq; try discriminate.
  intros [= <-].
  destruct (ends_at_inv _ _ _ _ (_hashy_probe_ends _ _ _ _ Hq))
    as [Hq0 [[d Hd] | [_ ?]]]; [|discriminate].
  exists q, d. auto.
Qed.

(** A key that is in no slot is not found. *)
Lemma lookup_absent self key :
  2 <= table_size self -> key ∉ (entries (array self)).*1 ->
  _hashy_probe self key false = Raise KeyError.
Proof.
  intros Hn Hk.
  destruct (_hashy_probe_cases self key false Hn) as [(q & Hq & _) | H]; [|exact H].
  exfalso. apply Hk.
  destruct (ends_at_inv _ _ _ _ (_hashy_probe_ends _ _ _ _ Hq))
    as [_ [[d Hd] | [_ ?]]]; [|discriminate].
  apply list_elem_of_fmap. exists (key, d). split; [reflexivity|].
  apply elem_of_entries. eauto.
Qed.

Lemma keys_of_entries a key :
  key ∈ (entries a).*1 <-> exists (p : nat) data, a !! p = Some (Occupied key data).
Proof.
  rewrite list_elem_of_fmap. split.
  - intros ([k d] & -> & Hin). apply elem_of_entries in Hin as [p Hp]. eauto.
  - intros (p & d & Hp). exists (key, d). split; [reflexivity|].
    apply elem_of_entries. eauto.
Qed.

(** X1. In a table that can be reached, after [del self[key]] has returned
    the key is gone: [get] raises [KeyError], [key in self] is [False], and
    [len] is one less. *)
Theorem delete_then_absent self key self' :
  reachable self -> __delitem__ key self = (Ok tt, self') ->
  __getitem__ self' key = Raise KeyError /\
  __contains__ self' key = Ok false /\
  __len__ self' = __len__ self - 1.
Proof.
  intros Hr Hd. pose proof (reachable_inv self Hr) as [Hwf Hc].
  destruct (delitem_Ok _ _ _ Hd) as (q & d & Hq & Hq0 & Hl & ->).
  pose proof (probe_Ok_size _ _ _ _ Hq) as Hn.
  assert (_hashy_probe
            (set_count (count self - 1)
               (set_array (<[Z.to_nat q := Tombstone]> (array self)) self))
            key false = Raise KeyError) as Hgone.
  { apply lookup_absent.
    - unfold table_size. simpl. rewrite len_insert. exact Hn.
    - simpl. rewrite keys_of_entries. intros (p & d' & Hp).
      destruct (decide (Z.to_nat q = p)) as [<- | Hne].
      + rewrite list_lookup_insert_eq in Hp by (eapply lookup_lt_Some; exact Hl).
        discriminate.
      + rewrite list_lookup_insert_ne in Hp by exact Hne.
        apply Hwf in Hp. rewrite Hp in Hq. injection Hq. lia. }
  unfold __contains__, __getitem__. rewrite Hgone. auto.
Qed.

(** X2. Deleting a key leaves every other key as it was: [get] of another
    key gives the same value, or the same error, after the deletion as
    before it. *)
Theorem delete_keeps_other_keys self key self' key' :
  reachable self -> __delitem__ key self = (Ok tt, self') -> key' <> key ->
  __getitem__ self' key' = __getitem__ self key'.
Proof.
  intros Hr Hd Hne. destruct (delitem_Ok _ _ _ Hd) as (q & d & Hq & Hq0 & Hl & ->).
  set (self' := set_count _ _).
  assert (forall p item item',
    getitem (array self') p = Ok item -> getitem (array self) p = Ok item' ->
    (is_None item = is_None item' /\ holds_key item key' = holds_key item' key') /\
    (holds_key item' key' = true -> item = item')) as Hsame.
  { intros p item item' Hg Hg'. apply getitem_Ok in Hg as [Hp Hg], Hg' as [_ Hg'].
    simpl in Hg. destruct (decide (Z.to_nat q = Z.to_nat p)) as [E | E].
    - rewrite <- E in *. rewrite Hl in Hg'. injection Hg' as <-.
      rewrite list_lookup_insert_eq in Hg by (eapply lookup_lt_Some; exact Hl).
      injection Hg as <-. simpl. rewrite bool_decide_eq_false_2 by congruence.
      split; [auto | discriminate].
    - rewrite list_lookup_insert_ne in Hg by exact E. rewrite Hg in Hg'.
      injection Hg' as <-. auto. }
  assert (len (array self') = len (array self)) as Hlen by (simpl; apply len_insert).
  unfold __getitem__.
  rewrite (_hashy_probe_same self' self key' false Hlen)
    by (intros p item item' Hg Hg'; apply (Hsame p item item' Hg Hg')).
  destruct (_hashy_probe self key' false) as [r| |] eqn:Hr'; cbn [rbind];
    try reflexivity.
  destruct (_hashy_probe_ends _ _ _ _ Hr') as (item' & Hg' & [Hk | [_ ?]]);
    [|discriminate].
  destruct (getitem_cases (array self') r) as [[_ (item & Hg & _)] | [Hp _]].
  - rewrite Hg, Hg'. destruct (Hsame r item item' Hg Hg') as [_ ->]; auto.
  - exfalso. apply getitem_Ok in Hg' as [? Hg']. apply lookup_lt_Some in Hg'.
    rewrite Hlen in Hp. unfold len in Hp. lia.
Qed.

(** X3. A key that no slot holds is not found, in a table of two slots or
    more: [get] and [del] raise [KeyError], [del] leaves the table as it
    is, and [key in self] is [False]. *)
Theorem absent_key_KeyError self key :
  2 <= table_size self -> key ∉ (entries (array self)).*1 ->
  __getitem__ self key = Raise KeyError /\
  __delitem__ key self = (Raise KeyError, self) /\
  __contains__ self key = Ok false.
Proof.
  intros Hn Hk. pose proof (lookup_absent self key Hn Hk) as H.
  unfold __contains__, __getitem__. rewrite delitem_unfold, H. auto.
Qed.

Lemma getitem_iff_entries self key data :
  inv self -> __getitem__ self key = Ok data <-> (key, data) ∈ entries (array self).
Proof.
  intros Hinv. split; [apply entries_getitem | apply getitem_entries; exact Hinv].
Qed.

(** X4. A [set] that succeeds changes the value of its key and of no other
    key, whether it rehashed or not: another key is found with a value
    after the call exactly when it was found with that value before. *)
Theorem set_keeps_other_keys fuel self key data self' key' data' :
  reachable self -> __setitem__ fuel key data self = (Ok tt, self') -> key' <> key ->
  __getitem__ self' key' = Ok data' <-> __getitem__ self key' = Ok data'.
Proof.
  intros Hr Hs Hne. pose proof (reachable_inv self Hr) as Hinv.
  destruct (setitem_spec fuel _ _ _ _ _ Hinv Hs) as (Hinv' & _ & _ & Hupd).
  rewrite !getitem_iff_entries by assumption. rewrite (Hupd eq_refl key' data').
  split; [intros [[? _] | [_ ?]]; [contradiction | assumption] | auto].
Qed.

(** The number of pairs of a table whose pairs are those of [a] with
    [(key, data)] put in. *)
Lemma len_updated a' a key data :
  NoDup (entries a').*1 -> NoDup (entries a).*1 -> updated a' a key data ->
  (key ∈ (entries a).*1 -> len (entries a') = len (entries a)) /\
  (key ∉ (entries a).*1 -> len (entries a') = len (entries a) + 1).
Proof.
  intros Hnd' Hnd Hupd. split.
  - intros Hin. apply list_elem_of_fmap in Hin as ([k d] & E & Hin). simpl in E. subst k.
    apply elem_of_Permutation in Hin as [rest Hperm].
    assert (NoDup (((key, d) :: rest).*1)) as Hnd0 by (rewrite <- Hperm; exact Hnd).
    simpl in Hnd0. apply list.NoDup_cons in Hnd0 as [Hk Hrest].
    assert (entries a' ≡ₚ (key, data) :: rest) as Hperm'.
    { apply NoDup_Permutation.
      - eapply NoDup_fmap_1. exact Hnd'.
      - apply list.NoDup_cons. split; [|eapply NoDup_fmap_1; exact Hrest].
        intros Hin. apply Hk. apply list_elem_of_fmap. exists (key, data). auto.
      - intros [k v]. rewrite (Hupd k v), Hperm, !elem_of_cons. split.
        + intros [[-> ->] | [Hne [[= -> ->] | Hin]]]; auto. contradiction.
        + intros [[= -> ->] | Hin]; [auto|]. right. split; [|auto].
          intros ->. apply Hk. apply list_elem_of_fmap. exists (key, v). auto. }
    unfold len. rewrite Hperm', Hperm. reflexivity.
  - intros Hk.
    assert (entries a' ≡ₚ (key, data) :: entries a) as Hperm'.
    { apply NoDup_Permutation.
      - eapply NoDup_fmap_1. exact Hnd'.
      - apply list.NoDup_cons. split; [|eapply NoDup_fmap_1; exact Hnd].
        intros Hin. apply Hk. apply list_elem_of_fmap. exists (key, data). auto.
      - intros [k v]. rewrite (Hupd k v), !elem_of_cons. split.
        + intros [[-> ->] | [Hne Hin]]; auto.
        + intros [[= -> ->] | Hin]; [auto|]. right. split; [|auto].
          intros ->. apply Hk. apply list_elem_of_fmap. exists (key, v). auto. }
    unfold len. rewrite Hperm'. simpl. lia.
Qed.

(** X5. After a [set] that succeeds, [len] is what it was when the key
    was in the table before, and one more when it was not, whether the
    table was rehashed or not. *)
Theorem set_len fuel self key data self' :
  reachable self -> __setitem__ fuel key data self = (Ok tt, self') ->
  ((exists old, __getitem__ self key = Ok old) -> __len__ self' = __len__ self) /\
  ((forall old, __getitem__ self key <> Ok old) -> __len__ self' = __len__ self + 1).
Proof.
  intros Hr Hs. pose proof (reachable_inv self Hr) as Hinv.
  destruct (setitem_spec fuel _ _ _ _ _ Hinv Hs) as (Hinv' & _ & _ & Hupd).
  destruct (len_updated _ _ _ _ (wf_NoDup_keys _ (proj1 Hinv'))
              (wf_NoDup_keys _ (proj1 Hinv)) (Hupd eq_refl)) as [Hin Hout].
  unfold __len__. rewrite (proj2 Hinv'), (proj2 Hinv). split.
  - intros [old Hold]. apply Hin. apply list_elem_of_fmap. exists (key, old).
    split; [reflexivity|]. apply getitem_iff_entries; assumption.
  - intros Hno. apply Hout. intros Hk.
    apply list_elem_of_fmap in Hk as ([k d] & E & Hk). simpl in E. subst k.
    apply (Hno d). apply getitem_iff_entries; assumption.
Qed.

(** X6. In a table that can be reached and has two slots or more,
    [key in self] never raises: when a slot holds the key it is [True] and
    [get] returns a value, and when no slot holds the key it is [False] and
    [get] raises [KeyError]. *)
Theorem contains_iff_present self key :
  reachable self -> 2 <= table_size self ->
  (key ∈ (entries (array self)).*1 ->
   __contains__ self key = Ok true /\ exists data, __getitem__ self key = Ok data) /\
  (key ∉ (entries (array self)).*1 ->
   __contains__ self key = Ok false /\ __getitem__ self key = Raise KeyError).
Proof.
  intros Hr Hn. pose proof (reachable_inv self Hr) as Hinv. split.
  - intros Hk. apply list_elem_of_fmap in Hk as ([k d] & E & Hk). simpl in E. subst k.
    apply (getitem_entries self key d Hinv) in Hk.
    unfold __contains__. rewrite Hk. eauto.
  - intros Hk. pose proof (lookup_absent self key Hn Hk) as H.
    unfold __contains__, __getitem__. rewrite H. auto.
Qed.

(** *** Listing the table *)

Lemma range_table_size self :
  range (table_size self) = map Z.of_nat (seq 0 (length (array self))).
Proof. unfold range, table_size, len. rewrite Nat2Z.id. reflexivity. Qed.

Lemma getitem_nat a (i : nat) item :
  a !! i = Some item -> getitem a (Z.of_nat i) = Ok item.
Proof. intros H. apply getitem_Ok. rewrite Nat2Z.id. split; [lia | exact H]. Qed.

(** The loop of [keys] and of [values] from slot [i] on, when no slot
    from there on holds the mark of a deleted entry. *)
Lemma collect_no_tombstone {A} (proj : @slot V -> result A) (f : str * V -> A) self :
  (forall k d, proj (Occupied k d) = Ok (f (k, d))) ->
  forall (m i : nat) res,
    (i + m = length (array self))%nat -> Tombstone ∉ drop i (array self) ->
    collect proj self (map Z.of_nat (seq i m)) res =
      Ok (res ++ (f <$> entries (drop i (array self)))).
Proof.
  intros Hproj. induction m as [|m IH]; intros i res Hlen Hno.
  - rewrite drop_ge by lia. simpl. rewrite app_nil_r. reflexivity.
  - destruct (array self !! i) as [item|] eqn:Hi;
      [|apply lookup_ge_None in Hi; lia].
    rewrite (drop_S _ _ _ Hi) in *. cbn [seq map collect].
    rewrite (getitem_nat _ _ _ Hi). cbn [rbind].
    apply not_elem_of_cons in Hno as [Hitem Hno].
    destruct item as [| |k d]; [| congruence |].
    + apply IH; [lia | exact Hno].
    + rewrite Hproj. cbn [rbind]. rewrite IH; [|lia|exact Hno].
      simpl. rewrite <- app_assoc. reflexivity.
Qed.

Lemma collect_tombstone {A} (proj : @slot V -> result A) (f : str * V -> A) self :
  (forall k d, proj (Occupied k d) = Ok (f (k, d))) ->
  proj Tombstone = Raise TypeError ->
  forall (m i : nat) res,
    (i + m = length (array self))%nat -> Tombstone ∈ drop i (array self) ->
    collect proj self (map Z.of_nat (seq i m)) res = Raise TypeError.
Proof.
  intros Hproj Htomb. induction m as [|m IH]; intros i res Hlen Hin.
  - rewrite drop_ge in Hin by lia. inversion Hin.
  - destruct (array self !! i) as [item|] eqn:Hi;
      [|apply lookup_ge_None in Hi; lia].
    rewrite (drop_S _ _ _ Hi) in Hin. cbn [seq map collect].
    rewrite (getitem_nat _ _ _ Hi). cbn [rbind].
    apply elem_of_cons in Hin as [<- | Hin].
    + rewrite Htomb. reflexivity.
    + destruct item as [| |k d].
      * apply IH; [lia | exact Hin].
      * rewrite Htomb. reflexivity.
      * rewrite Hproj. cbn [rbind]. apply IH; [lia | exact Hin].
Qed.

(** X7. [keys] and [values] of the dynamic table: when no slot holds the
    mark of a deleted entry they return the keys and the values of the
    occupied slots in the order of the slots, so that the two lists line
    up; as soon as one slot holds the mark, both raise [TypeError]. *)
Theorem keys_values_listing self :
  (Tombstone ∉ array self ->
   keys self = Ok (entries (array self)).*1 /\
   values self = Ok (entries (array self)).*2) /\
  (Tombstone ∈ array self ->
   keys self = Raise TypeError /\ values self = Raise TypeError).
Proof.
  unfold keys, values. rewrite range_table_size. split; intros H; split.
  - apply (collect_no_tombstone item_key fst self); auto.
  - apply (collect_no_tombstone item_data snd self); auto.
  - apply (collect_tombstone item_key fst self); auto.
  - apply (collect_tombstone item_data snd self); auto.
Qed.

(** *** What [__setitem__] never leaves behind *)

Lemma no_tombstone_stored self q key data :
  Tombstone ∉ array self -> Tombstone ∉ array (stored self q key data).
Proof.
  intros H Hin. rewrite array_stored in Hin.
  apply list_elem_of_lookup in Hin as [p Hp].
  rewrite list_lookup_insert in Hp. destruct (decide _); [discriminate|].
  apply H. apply list_elem_of_lookup. eauto.
Qed.

Lemma no_tombstone_fresh self n : Tombstone ∉ array (fresh self n).
Proof. simpl. intros H. apply elem_of_replicate in H as [? _]. discriminate. Qed.

Lemma reinsert_no_tombstone fuel items :
  (forall self key data r self',
     Tombstone ∉ array self -> __setitem__ fuel key data self = (r, self') ->
     Tombstone ∉ array self') ->
  forall cur r self',
    Tombstone ∉ array cur -> for_each items (reinsert fuel) cur = (r, self') ->
    Tombstone ∉ array self'.
Proof.
  intros Hset. induction items as [|item items IH]; intros cur r self' Hno.
  - simpl. unfold ret. intros [= _ <-]. exact Hno.
  - simpl. unfold bind at 1.
    destruct (reinsert fuel item cur) as [r1 cur1] eqn:Hs.
    assert (Tombstone ∉ array cur1) as Hno1.
    { destruct item as [| |k v]; simpl in Hs;
        [injection Hs as _ <-; exact Hno .. | exact (Hset _ _ _ _ _ Hno Hs)]. }
    destruct r1 as [[]| |]; [apply IH; exact Hno1 | intros [= _ <-]; exact Hno1 ..].
Qed.

Lemma setitem_no_tombstone fuel self key data r self' :
  Tombstone ∉ array self -> __setitem__ fuel key data self = (r, self') ->
  Tombstone ∉ array self'.
Proof.
  revert self key data r self'.
  induction fuel as [|fuel IH]; intros self key data r self' Hno;
    rewrite setitem_unfold;
    (destruct (_hashy_probe self key true) as [q| |];
     [| intros [= _ <-]; exact Hno ..]);
    pose proof (no_tombstone_stored self q key data Hno) as Hno1; cbv zeta;
    (destruct (_ <? _); [| intros [= _ <-]; exact Hno1 ]).
  - intros [= _ <-]. exact Hno1.
  - rewrite rehash_unfold.
    destruct (TABLE_SIZES _ !! _) as [n|]; [|intros [= _ <-]; exact Hno1].
    destruct (n <=? 0); [intros [= _ <-]; exact Hno1|].
    apply (reinsert_no_tombstone fuel _ IH). apply no_tombstone_fresh.
Qed.

Lemma rehash_Ok_no_tombstone fuel self self' :
  _rehash fuel self = (Ok tt, self') -> Tombstone ∉ array self'.
Proof.
  rewrite rehash_unfold.
  destruct (TABLE_SIZES _ !! _) as [n|]; [|discriminate].
  destruct (n <=? 0); [discriminate|].
  apply (reinsert_no_tombstone fuel _ (setitem_no_tombstone fuel)).
  apply no_tombstone_fresh.
Qed.

(** X8. [__setitem__] never writes the mark of a deleted entry, and a
    [set] that rehashed and succeeded leaves none behind: after a [set]
    that moved [size_index] no slot holds the mark, and [keys] and [values] return the keys and the values of the
    table. *)
Theorem growth_drops_tombstones fuel self key data self' :
  __setitem__ fuel key data self = (Ok tt, self') ->
  (size_index self < size_index self')%nat ->
  (Tombstone ∉ array self') /\
  keys self' = Ok (entries (array self')).*1 /\
  values self' = Ok (entries (array self')).*2.
Proof.
  intros Hs Hidx.
  assert (Tombstone ∉ array self') as Hno.
  { revert Hs Hidx. rewrite setitem_unfold.
    destruct (_hashy_probe self key true) as [q| |]; try discriminate.
    destruct (stored_fields self key data q) as [_ Hidx1]. cbv zeta.
    destruct (_ <? _); [|intros [= <-]; lia].
    destruct fuel as [|fuel]; [discriminate|].
    intros H _. exact (rehash_Ok_no_tombstone _ _ _ H). }
  split; [exact Hno|]. unfold keys, values. rewrite range_table_size. split.
  - apply (collect_no_tombstone item_key fst self'); auto.
  - apply (collect_no_tombstone item_data snd self'); auto.
Qed.

(** *** The load after a [set] *)

Lemma reinsert_load fuel items :
  (forall self key data self',
     __setitem__ fuel key data self = (Ok tt, self') ->
     0 < table_size self' /\ 3 * count self' <= 2 * table_size self') ->
  forall cur self',
    0 < table_size cur /\ 3 * count cur <= 2 * table_size cur ->
    for_each items (reinsert fuel) cur = (Ok tt, self') ->
    0 < table_size self' /\ 3 * count self' <= 2 * table_size self'.
Proof.
  intros Hset. induction items as [|item items IH]; intros cur self' Hcur.
  - simpl. unfold ret. intros [= <-]. exact Hcur.
  - simpl. unfold bind at 1.
    destruct (reinsert fuel item cur) as [r1 cur1] eqn:Hs.
    destruct r1 as [[]| |]; try discriminate.
    apply IH. destruct item as [| |k v]; simpl in Hs;
      [injection Hs as <-; exact Hcur .. | exact (Hset _ _ _ _ Hs)].
Qed.

Lemma setitem_load fuel self key data self' :
  __setitem__ fuel key data self = (Ok tt, self') ->
  0 < table_size self' /\ 3 * count self' <= 2 * table_size self'.
Proof.
  revert self key data self'.
  induction fuel as [|fuel IH]; intros self key data self';
    rewrite setitem_unfold;
    (destruct (_hashy_probe self key true) as [q| |] eqn:Hq; try discriminate);
    pose proof (probe_Ok_size _ _ _ _ Hq) as Hn;
    pose proof (table_size_stored self q key data) as Hsize; cbv zeta;
    (destruct (Z.ltb_spec (2 * table_size (stored self q key data))
                 (3 * count (stored self q key data)));
     [| intros [= <-]; lia ]).
  - discriminate.
  - rewrite rehash_unfold.
    destruct (TABLE_SIZES _ !! _) as [n|]; [|discriminate].
    destruct (Z.leb_spec n 0); [discriminate|].
    apply (reinsert_load fuel _ IH).
    unfold table_size. simpl. rewrite len_replicate. lia.
Qed.

(** X9. After every [set] that succeeds the table holds at most two
    thirds of its capacity in pairs, whatever the table was before and
    whether it was rehashed or not, so that [is_full] is [False]. *)
Theorem set_leaves_room fuel self key data self' :
  __setitem__ fuel key data self = (Ok tt, self') ->
  3 * __len__ self' <= 2 * table_size self' /\ is_full self' = false.
Proof.
  intros Hs. destruct (setitem_load _ _ _ _ _ Hs) as [Hpos Hload].
  split; [exact Hload|]. unfold is_full. apply Z.eqb_neq. unfold __len__ in *. lia.
Qed.

(** *** A table that never deleted only fails when the ladder is used up *)

Lemma used_no_tombstone a : Tombstone ∉ a -> used a = len (entries a).
Proof.
  induction a as [|item a IH]; intros H; [reflexivity|].
  apply not_elem_of_cons in H as [Hitem H]. rewrite used_cons, (IH H).
  destruct item; simpl; unfold nonempty, len; simpl; try lia. congruence.
Qed.

Lemma healthy_init sizes self :
  __init__ sizes = Ok self -> (forall n, n ∈ TABLE_SIZES self -> Z.prime n) ->
  healthy self.
Proof.
  intros H Hl. pose proof (inv_init _ _ H) as Hinv.
  pose proof (sized_init _ _ H) as Hs. revert H Hl Hinv Hs. unfold __init__.
  destruct (seq_getitem _ 0) as [n| |]; simpl; try discriminate.
  unfold ArrayR. destruct (Z.leb_spec n 0); simpl; try discriminate.
  intros [= <-] Hl Hinv Hs. split; [exact Hinv|]. split; [|split; [|split]].
  - simpl. intros Hin. apply elem_of_replicate in Hin as [? _]. discriminate.
  - apply Hl. exact Hs.
  - unfold table_size. simpl. rewrite len_replicate. lia.
  - exact Hl.
Qed.

Lemma healthy_fresh self n :
  (forall m, m ∈ TABLE_SIZES self -> Z.prime m) ->
  TABLE_SIZES self !! S (size_index self) = Some n -> healthy (fresh self n).
Proof.
  intros Hl Hn.
  assert (Z.prime n) as Hp by (apply Hl, list_elem_of_lookup; eauto).
  pose proof (Z.prime_ge_2 _ Hp).
  split; [apply inv_fresh|]. split; [apply no_tombstone_fresh|].
  unfold table_size. simpl. rewrite len_replicate, Z2Nat.id by lia.
  split; [exact Hp|]. split; [lia | exact Hl].
Qed.

Lemma reinsert_healthy fuel items :
  (forall self key data r self',
     healthy self -> enough fuel self ->
     __setitem__ fuel key data self = (r, self') -> healthy_outcome r self') ->
  forall cur r self',
    healthy cur -> enough fuel cur ->
    for_each items (reinsert fuel) cur = (r, self') -> healthy_outcome r self'.
Proof.
  intros Hset. induction items as [|item items IH]; intros cur r self' Hh Hf.
  - simpl. unfold ret. intros [= <- <-]. left. auto.
  - simpl. unfold bind at 1.
    destruct (reinsert fuel item cur) as [r1 cur1] eqn:Hs.
    destruct item as [| |k v]; simpl in Hs.
    + injection Hs as <- <-. apply IH; assumption.
    + injection Hs as <- <-. apply IH; assumption.
    + destruct (Hset _ _ _ _ _ Hh Hf Hs) as [[-> Hh1] | [-> Hfull]].
      * apply IH; [exact Hh1|].
        destruct (setitem_outcome fuel _ _ _ _ _ Hs) as (Hsz & Hidx & _).
        destruct Hf as [Hf1 Hf2]. split; [exact Hf1|]. rewrite Hsz. lia.
      * intros [= <- <-]. right. auto.
Qed.

Lemma setitem_healthy fuel self key data r self' :
  healthy self -> enough fuel self ->
  __setitem__ fuel key data self = (r, self') -> healthy_outcome r self'.
Proof.
  revert self key data r self'.
  induction fuel as [|fuel IH]; intros self key data r self' Hh [Hf1 Hf2]; [lia|].
  destruct Hh as (Hinv & Hno & Hp & Hload & Hl).
  pose proof (Z.prime_ge_2 _ Hp) as Hn.
  destruct (insert_finds_slot self key Hp) as [q Hq].
  { rewrite (used_no_tombstone _ Hno). destruct Hinv as [_ <-]. lia. }
  rewrite setitem_unfold, Hq. cbv zeta.
  destruct (stored_fields self key data q) as [Hsz1 Hidx1].
  assert (forall m, m ∈ TABLE_SIZES (stored self q key data) -> Z.prime m) as Hl1
    by (rewrite Hsz1; exact Hl).
  destruct (Z.ltb_spec (2 * table_size (stored self q key data))
              (3 * count (stored self q key data))) as [Hgrow | Hfit].
  - rewrite rehash_unfold, Hsz1, Hidx1.
    destruct (TABLE_SIZES self !! S (size_index self)) as [n|] eqn:Hn'.
    + assert (Z.prime n) as Hpn by (apply Hl, list_elem_of_lookup; eauto).
      pose proof (Z.prime_ge_2 _ Hpn).
      destruct (Z.leb_spec n 0); [lia|].
      apply lookup_lt_Some in Hn' as Hlt.
      apply reinsert_healthy; [exact IH | |].
      * apply healthy_fresh; [exact Hl1 | rewrite Hsz1, Hidx1; exact Hn'].
      * split; unfold fresh; cbn [TABLE_SIZES size_index]; rewrite ?Hsz1, ?Hidx1; lia.
    + intros [= <- <-]. right. split; [reflexivity|].
      apply lookup_ge_None in Hn'. cbn [TABLE_SIZES size_index set_size_index].
      rewrite ?Hsz1, ?Hidx1. lia.
  - intros [= <- <-]. left. split; [reflexivity|].
    split; [apply inv_stored; assumption|].
    split; [apply no_tombstone_stored; exact Hno|].
    rewrite table_size_stored in *. auto.
Qed.

(** X10. A table that is created with a ladder of primes and only has keys
    set never fails for want of a slot. [__init__] with such a ladder gives
    a table that is well formed, has no mark of a deleted entry, a prime
    capacity and at most two thirds of its slots taken; on such a table,
    with enough fuel, [self[key] = data] either succeeds and leaves such a
    table again, or raises [FullError] with [size_index] at the end of the
    ladder or past it. *)
Theorem set_only_ladder_end_FullError :
  (forall sizes self,
     __init__ sizes = Ok self -> (forall n, n ∈ TABLE_SIZES self -> Z.prime n) ->
     healthy self) /\
  (forall fuel self key data r self',
     healthy self -> enough fuel self ->
     __setitem__ fuel key data self = (r, self') ->
     (r = Ok tt /\ healthy self') \/
     (r = Raise FullError /\
      (length (TABLE_SIZES self') <= size_index self')%nat)).
Proof.
  split; [exact healthy_init | exact setitem_healthy].
Qed.

(** *** The fuel does not matter once it is enough *)

Lemma reinsert_fuel_mono fuel fuel' items :
  (forall self key data r self',
     __setitem__ fuel key data self = (r, self') -> r <> OutOfFuel ->
     __setitem__ fuel' key data self = (r, self')) ->
  forall cur r self',
    for_each items (reinsert fuel) cur = (r, self') -> r <> OutOfFuel ->
    for_each items (reinsert fuel') cur = (r, self').
Proof.
  intros Hset. induction items as [|item items IH]; intros cur r self'.
  - simpl. auto.
  - simpl. unfold bind at 1 2.
    destruct (reinsert fuel item cur) as [r1 cur1] eqn:Hs.
    assert (r1 <> OutOfFuel -> reinsert fuel' item cur = (r1, cur1)) as Hs'.
    { destruct item as [| |k v]; simpl in *; auto. }
    destruct r1 as [[]| |].
    + rewrite Hs' by discriminate. apply IH.
    + rewrite Hs' by discriminate. auto.
    + intros [= <- <-] Hr. congruence.
Qed.

Lemma setitem_fuel_mono fuel :
  forall fuel' self key data r self',
    (fuel <= fuel')%nat ->
    __setitem__ fuel key data self = (r, self') -> r <> OutOfFuel ->
    __setitem__ fuel' key data self = (r, self').
Proof.
  induction fuel as [|fuel IH]; intros fuel' self key data r self' Hle;
    rewrite !setitem_unfold;
    destruct (_hashy_probe self key true) as [q| |]; auto; cbv zeta;
    destruct (_ <? _); auto.
  - intros [= <- <-] Hr. congruence.
  - destruct fuel' as [|fuel']; [lia|].
    rewrite !rehash_unfold.
    destruct (TABLE_SIZES _ !! _) as [n|]; auto.
    destruct (n <=? 0); auto.
    apply reinsert_fuel_mono. intros s k d r1 s1. apply IH. lia.
Qed.

(** X11. The result of [self[key] = data] does not depend on the bound on
    the nesting of [__setitem__] and [_rehash], once the bound is enough:
    two bounds that are enough give the same result and the same table,
    and the result is not that of a run that was cut short. *)
Theorem set_fuel_irrelevant fuel1 fuel2 self key data :
  enough fuel1 self -> enough fuel2 self ->
  __setitem__ fuel1 key data self = __setitem__ fuel2 key data self /\
  (__setitem__ fuel1 key data self).1 <> OutOfFuel.
Proof.
  intros H1 H2. split; [|apply setitem_total; exact H1].
  pose proof (setitem_total _ _ key data H1) as T1.
  pose proof (setitem_total _ _ key data H2) as T2.
  destruct (__setitem__ fuel1 key data self) as [r1 s1] eqn:E1.
  destruct (__setitem__ fuel2 key data self) as [r2 s2] eqn:E2.
  destruct (Nat.le_ge_cases fuel1 fuel2) as [Hle | Hle].
  - rewrite (setitem_fuel_mono _ _ _ _ _ _ _ Hle E1 T1) in E2. congruence.
  - rewrite (setitem_fuel_mono _ _ _ _ _ _ _ Hle E2 T2) in E1. congruence.
Qed.

(** *** Searches in any table *)

Lemma getitem_outcome self key :
  2 <= table_size self ->
  (exists data, __getitem__ self key = Ok data /\
     (key, data) ∈ entries (array self)) \/
  __getitem__ self key = Raise KeyError.
Proof.
  intros Hn. unfold __getitem__.
  destruct (_hashy_probe_cases self key false Hn) as [(q & Hq & _) | ->]; [|auto].
  rewrite Hq. left.
  destruct (ends_at_inv _ _ _ _ (_hashy_probe_ends _ _ _ _ Hq))
    as [Hq0 [[d Hd] | [_ ?]]]; [|discriminate].
  exists d. simpl. rewrite (proj2 (getitem_Ok _ _ _) (conj Hq0 Hd)).
  split; [reflexivity|]. apply elem_of_entries. eauto.
Qed.

(** X12. Whatever the slots of a table of two slots or more hold, a search
    ends and raises nothing but [KeyError]: [self[key]] gives a value that
    some slot holds together with [key], or raises [KeyError];
    [key in self] gives [True] or [False]; [del self[key]] returns, or
    raises [KeyError] and leaves the table as it was. *)
Theorem search_raises_only_KeyError self key :
  2 <= table_size self ->
  ((exists data, __getitem__ self key = Ok data /\
      (key, data) ∈ entries (array self)) \/
   __getitem__ self key = Raise KeyError) /\
  (exists b, __contains__ self key = Ok b) /\
  ((exists self', __delitem__ key self = (Ok tt, self')) \/
   __delitem__ key self = (Raise KeyError, self)).
Proof.
  intros Hn. split; [apply getitem_outcome; exact Hn|]. split.
  - unfold __contains__.
    destruct (getitem_outcome self key Hn) as [(d & -> & _) | ->]; eauto.
  - rewrite delitem_unfold.
    destruct (_hashy_probe_cases self key false Hn) as [(q & -> & _) | ->]; eauto.
Qed.

(** *** A table of one slot *)

Lemma probe_one_slot self key ins :
  table_size self = 1 -> _hashy_probe self key ins = Raise ZeroDivisionError.
Proof.
  intros H1. unfold _hashy_probe, hash2, hash.
  destruct key as [|char key]; simpl; rewrite H1; reflexivity.
Qed.

(** X13. A table of one slot cannot be used: the step of the probe is a
    remainder modulo the capacity less one, so every [self[key]],
    [self[key] = data], [del self[key]] and [key in self] raises
    [ZeroDivisionError], and the table stays as it is. *)
Theorem one_slot_ZeroDivisionError fuel self key data :
  table_size self = 1 ->
  __getitem__ self key = Raise ZeroDivisionError /\
  __contains__ self key = Raise ZeroDivisionError /\
  __setitem__ fuel key data self = (Raise ZeroDivisionError, self) /\
  __delitem__ key self = (Raise ZeroDivisionError, self).
Proof.
  intros H1.
  assert (__getitem__ self key = Raise ZeroDivisionError) as Hg
    by (unfold __getitem__; rewrite probe_one_slot by exact H1; reflexivity).
  split; [exact Hg|]. split; [unfold __contains__; rewrite Hg; reflexivity|].
  rewrite setitem_unfold, delitem_unfold, !probe_one_slot by exact H1. auto.
Qed.

(** *** A new table *)

Lemma collect_empty {A} (proj : @slot V -> result A) self :
  (forall item, item ∈ array self -> item = Empty) ->
  forall (m i : nat) res,
    (i + m <= length (array self))%nat ->
    collect proj self (map Z.of_nat (seq i m)) res = Ok res.
Proof.
  intros He. induction m as [|m IH]; intros i res Hlen; [reflexivity|].
  simpl. destruct (lookup_lt_is_Some_2 (array self) i) as [item Hi]; [lia|].
  rewrite (getitem_nat _ _ _ Hi). simpl.
  rewrite (He item) by (apply list_elem_of_lookup; eauto).
  apply IH. lia.
Qed.

(** X14. A new table is empty. When [__init__] returns, [len] is [0],
    [is_empty] holds, [is_full] does not, the array has the first capacity
    of the ladder and [keys] and [values] are empty lists; if the capacity
    is two or more, no key is found. With an empty ladder [__init__]
    raises [IndexError]. *)
Theorem new_table_empty :
  (forall sizes self,
     __init__ sizes = Ok self ->
     __len__ self = 0 /\ is_empty self = true /\ is_full self = false /\
     seq_getitem (TABLE_SIZES self) 0 = Ok (table_size self) /\
     size_index self = 0%nat /\
     keys self = Ok [] /\ values self = Ok [] /\
     (2 <= table_size self ->
      forall key, __getitem__ self key = Raise KeyError /\
                  __contains__ self key = Ok false /\
                  __delitem__ key self = (Raise KeyError, self))) /\
  @__init__ V (Some []) = Raise IndexError.
Proof.
  split; [|reflexivity]. intros sizes self. unfold __init__.
  set (l := if sizes is Some l then l else default_TABLE_SIZES).
  destruct (seq_getitem l 0) as [n| |] eqn:Hl; simpl; try discriminate.
  unfold ArrayR. destruct (Z.leb_spec n 0); simpl; try discriminate.
  intros [= <-].
  assert (forall item : @slot V, item ∈ replicate (Z.to_nat n) Empty -> item = Empty) as He
    by (intros item Hin; apply elem_of_replicate in Hin as [-> _]; reflexivity).
  unfold __len__, is_empty, is_full, table_size, keys, values. simpl.
  rewrite len_replicate, Z2Nat.id by lia.
  split; [reflexivity|]. split; [reflexivity|].
  split; [destruct n; [lia | reflexivity | lia]|]. split; [exact Hl|].
  split; [reflexivity|].
  unfold range. split; [|split].
  - apply collect_empty; [exact He|]. unfold table_size, len. simpl.
    rewrite length_replicate. lia.
  - apply collect_empty; [exact He|]. unfold table_size, len. simpl.
    rewrite length_replicate. lia.
  - intros Hn key.
    set (self := {| TABLE_SIZES := l; size_index := 0;
                    array := replicate (Z.to_nat n) Empty; count := 0 |}).
    assert (_hashy_probe self key false = Raise KeyError) as Hp.
    { apply lookup_absent.
      - unfold table_size. simpl. rewrite len_replicate. lia.
      - simpl. rewrite entries_replicate. apply not_elem_of_nil. }
    unfold __contains__, __getitem__. rewrite delitem_unfold, Hp. auto.
Qed.

(** *** Slots are only freed by a rehash *)

(** X15. A slot that held a pair is not given back. In a table that can
    be reached, [del self[key]] leaves
    the number of slots that are not [None] as it is, and a [set] that
    succeeds without a rehash leaves that number as it is when the key was
    in the table, and takes one more slot when it was not. *)
Theorem slots_not_reclaimed self key :
  reachable self ->
  (forall self',
     __delitem__ key self = (Ok tt, self') ->
     used (array self') = used (array self)) /\
  (forall fuel data self',
     __setitem__ fuel key data self = (Ok tt, self') ->
     size_index self' = size_index self ->
     (key ∈ (entries (array self)).*1 -> used (array self') = used (array self)) /\
     (key ∉ (entries (array self)).*1 -> used (array self') = used (array self) + 1)).
Proof.
  intros Hr. destruct (reachable_inv self Hr) as [Hwf _]. split.
  - intros self' Hd. destruct (delitem_Ok _ _ _ Hd) as (q & d & _ & _ & Hq & ->).
    simpl. rewrite (used_insert _ _ _ _ Hq). unfold nonempty. simpl. lia.
  - intros fuel data self' Hs Hidx.
    assert (exists q, _hashy_probe self key true = Ok q /\
                      self' = stored self q key data) as (q & Hq & ->).
    { revert Hs. rewrite setitem_unfold.
      destruct (_hashy_probe self key true) as [q| |]; try discriminate.
      cbv zeta. destruct (_ <? _).
      - destruct fuel as [|fuel]; [discriminate|]. intros Hs. exfalso.
        destruct (rehash_outcome fuel (setitem_outcome fuel) _ _ _ Hs) as (_ & Hlt & _).
        rewrite (proj2 (stored_fields self key data q)) in Hlt. lia.
      - intros [= <-]. eauto. }
    rewrite array_stored.
    destruct (ends_at_inv _ _ _ _ (_hashy_probe_ends _ _ _ _ Hq))
      as [Hq0 [[d Hd] | [He _]]].
    + rewrite (used_insert _ _ _ _ Hd). unfold nonempty. simpl.
      split; [intros _; lia|].
      intros Hk. exfalso. apply Hk, keys_of_entries. eauto.
    + rewrite (used_insert _ _ _ _ He). unfold nonempty. simpl.
      split; [|intros _; lia].
      intros Hk. exfalso.
      apply keys_of_entries in Hk as (p & d & Hp).
      pose proof (lookup_then_insert _ _ _ (Hwf p key d Hp)) as Hq'.
      rewrite Hq in Hq'. injection Hq' as ->. rewrite Nat2Z.id in He. congruence.
Qed.

End Facts.

(** *** The properties on the tables of the examples *)

Import Examples MoreExamples.

Lemma reachable_three_set : reachable three_set.
Proof. apply reachable_run, (reach_init (Some [5; 13])). reflexivity. Qed.

Lemma reachable_three_and_tombstone : reachable three_and_tombstone.
Proof. apply reachable_run, (reach_init (Some [5; 13])). reflexivity. Qed.

Lemma primes_5_13 n : n ∈ [5; 13] -> Z.prime n.
Proof.
  intros H. apply elem_of_cons in H as [-> | H]; [exact prime_5|].
  apply elem_of_cons in H as [-> | H]; [exact prime_13|].
  apply elem_of_nil in H. contradiction.
Qed.

(** X1 and X2 for the key [a] of the table with the ladder [5] that holds
    [a], [b] and [c]. *)
Lemma delete_then_absent_witness :
  let self' := mk [5] 0 [Empty; Empty; Tombstone; Occupied b 2; Occupied c 3] 2 in
  reachable three_of_five /\ __delitem__ a three_of_five = (Ok tt, self') /\
  __getitem__ self' a = Raise KeyError /\
  __contains__ self' a = Ok false /\
  __len__ self' = __len__ three_of_five - 1.
Proof.
  intros self'.
  assert (__delitem__ a three_of_five = (Ok tt, self')) as H
    by (vm_compute; reflexivity).
  split; [exact reachable_three_of_five|]. split; [exact H|].
  exact (delete_then_absent three_of_five a self' reachable_three_of_five H).
Defined.

Lemma delete_keeps_other_keys_witness :
  let self' := mk [5] 0 [Empty; Empty; Tombstone; Occupied b 2; Occupied c 3] 2 in
  reachable three_of_five /\ __delitem__ a three_of_five = (Ok tt, self') /\
  b <> a /\ __getitem__ self' b = __getitem__ three_of_five b.
Proof.
  intros self'.
  assert (__delitem__ a three_of_five = (Ok tt, self')) as H
    by (vm_compute; reflexivity).
  assert (b <> a) as Hne by discriminate.
  split; [exact reachable_three_of_five|]. split; [exact H|]. split; [exact Hne|].
  exact (delete_keeps_other_keys three_of_five a self' b reachable_three_of_five H Hne).
Defined.

(** X3 for the key [d], which that table does not hold. *)
Lemma absent_key_KeyError_witness :
  2 <= table_size three_of_five /\ (d ∉ (entries (array three_of_five)).*1) /\
  __getitem__ three_of_five d = Raise KeyError /\
  __delitem__ d three_of_five = (Raise KeyError, three_of_five) /\
  __contains__ three_of_five d = Ok false.
Proof.
  assert (2 <= table_size three_of_five) as Hn by (vm_compute; discriminate).
  assert (d ∉ (entries (array three_of_five)).*1) as Hk
    by (apply (bool_decide_unpack _); vm_compute; exact I).
  split; [exact Hn|]. split; [exact Hk|].
  exact (absent_key_KeyError three_of_five d Hn Hk).
Defined.

(** X4, X5 and X9 for the [set] of [d] that takes the table with the
    ladder [5, 13] from five slots to thirteen. *)
Lemma set_keeps_other_keys_witness :
  let self' := (__setitem__ 3 d 4 three_set).2 in
  reachable three_set /\ __setitem__ 3 d 4 three_set = (Ok tt, self') /\ a <> d /\
  (__getitem__ self' a = Ok 1 <-> __getitem__ three_set a = Ok 1).
Proof.
  intros self'.
  assert (__setitem__ 3 d 4 three_set = (Ok tt, self')) as H
    by (vm_compute; reflexivity).
  assert (a <> d) as Hne by discriminate.
  split; [exact reachable_three_set|]. split; [exact H|]. split; [exact Hne|].
  exact (set_keeps_other_keys 3 three_set d 4 self' a 1 reachable_three_set H Hne).
Defined.

Lemma set_len_witness :
  let self' := (__setitem__ 3 d 4 three_set).2 in
  reachable three_set /\ __setitem__ 3 d 4 three_set = (Ok tt, self') /\
  ((exists old, __getitem__ three_set d = Ok old) ->
   __len__ self' = __len__ three_set) /\
  ((forall old, __getitem__ three_set d <> Ok old) ->
   __len__ self' = __len__ three_set + 1).
Proof.
  intros self'.
  assert (__setitem__ 3 d 4 three_set = (Ok tt, self')) as H
    by (vm_compute; reflexivity).
  split; [exact reachable_three_set|]. split; [exact H|].
  exact (set_len 3 three_set d 4 self' reachable_three_set H).
Defined.

Lemma set_leaves_room_witness :
  let self' := (__setitem__ 3 d 4 three_set).2 in
  __setitem__ 3 d 4 three_set = (Ok tt, self') /\
  3 * __len__ self' <= 2 * table_size self' /\ is_full self' = false.
Proof.
  intros self'.
  assert (__setitem__ 3 d 4 three_set = (Ok tt, self')) as H
    by (vm_compute; reflexivity).
  split; [exact H|].
  exact (set_leaves_room 3 three_set d 4 self' H).
Defined.

(** X6 for the key [a] of the table with the ladder [5]. *)
Lemma contains_iff_present_witness :
  reachable three_of_five /\ 2 <= table_size three_of_five /\
  (a ∈ (entries (array three_of_five)).*1 ->
   __contains__ three_of_five a = Ok true /\
   exists data, __getitem__ three_of_five a = Ok data) /\
  (a ∉ (entries (array three_of_five)).*1 ->
   __contains__ three_of_five a = Ok false /\
   __getitem__ three_of_five a = Raise KeyError).
Proof.
  assert (2 <= table_size three_of_five) as Hn by (vm_compute; discriminate).
  split; [exact reachable_three_of_five|]. split; [exact Hn|].
  exact (contains_iff_present three_of_five a reachable_three_of_five Hn).
Defined.

(** X7 for a table without a deleted entry and for one with. *)
Lemma keys_values_listing_witness :
  (Tombstone ∉ array three_of_five) /\ (Tombstone ∈ array one_tombstone) /\
  (keys three_of_five = Ok (entries (array three_of_five)).*1 /\
   values three_of_five = Ok (entries (array three_of_five)).*2) /\
  (keys one_tombstone = Raise TypeError /\ values one_tombstone = Raise TypeError).
Proof.
  assert (Tombstone ∉ array three_of_five) as Hno.
  { intros H. apply list_elem_of_In in H. vm_compute in H.
    repeat (destruct H as [H | H]; [discriminate|]). exact H. }
  assert (Tombstone ∈ array one_tombstone) as Hin.
  { apply list_elem_of_In. vm_compute. auto. }
  split; [exact Hno|]. split; [exact Hin|].
  split.
  - exact (proj1 (keys_values_listing three_of_five) Hno).
  - exact (proj2 (keys_values_listing one_tombstone) Hin).
Defined.

(** X8 for the [set] of [e] that rehashes a table with a deleted entry. *)
Lemma growth_drops_tombstones_witness :
  let self' := (__setitem__ 3 e 5 three_and_tombstone).2 in
  (Tombstone ∈ array three_and_tombstone) /\
  __setitem__ 3 e 5 three_and_tombstone = (Ok tt, self') /\
  (size_index three_and_tombstone < size_index self')%nat /\
  (Tombstone ∉ array self') /\
  keys self' = Ok (entries (array self')).*1 /\
  values self' = Ok (entries (array self')).*2.
Proof.
  intros self'.
  assert (Tombstone ∈ array three_and_tombstone) as Hin.
  { apply list_elem_of_In. vm_compute. auto. }
  assert (__setitem__ 3 e 5 three_and_tombstone = (Ok tt, self')) as H
    by (vm_compute; reflexivity).
  assert (size_index three_and_tombstone < size_index self')%nat as Hlt
    by (vm_compute; lia).
  split; [exact Hin|]. split; [exact H|]. split; [exact Hlt|].
  exact (growth_drops_tombstones 3 three_and_tombstone e 5 self' H Hlt).
Defined.

(** X10 for the new table with the ladder [5, 13]. *)
Lemma set_only_ladder_end_FullError_witness :
  let self' := (__setitem__ 3 a 1 five_slots).2 in
  __init__ (Some [5; 13]) = Ok five_slots /\
  (forall n, n ∈ TABLE_SIZES five_slots -> Z.prime n) /\
  enough 3 five_slots /\
  __setitem__ 3 a 1 five_slots = (Ok tt, self') /\
  healthy five_slots /\
  ((Ok tt = Ok tt /\ healthy self') \/
   (@Ok unit tt = Raise FullError /\
    (length (TABLE_SIZES self') <= size_index self')%nat)).
Proof.
  intros self'.
  assert (__init__ (Some [5; 13]) = Ok five_slots) as Hi by reflexivity.
  assert (forall n, n ∈ TABLE_SIZES five_slots -> Z.prime n) as Hl
    by exact primes_5_13.
  assert (enough 3 five_slots) as Hf by (split; vm_compute; lia).
  assert (__setitem__ 3 a 1 five_slots = (Ok tt, self')) as H
    by (vm_compute; reflexivity).
  pose proof (proj1 set_only_ladder_end_FullError (Some [5; 13]) five_slots Hi Hl) as Hh.
  split; [exact Hi|]. split; [exact Hl|]. split; [exact Hf|]. split; [exact H|].
  split; [exact Hh|].
  exact (proj2 set_only_ladder_end_FullError 3%nat five_slots a 1 (Ok tt) self' Hh Hf H).
Defined.

(** X11 for two bounds on the same table. *)
Lemma set_fuel_irrelevant_witness :
  enough 3 three_set /\ enough 7 three_set /\
  __setitem__ 3 d 4 three_set = __setitem__ 7 d 4 three_set /\
  (__setitem__ 3 d 4 three_set).1 <> OutOfFuel.
Proof.
  assert (enough 3 three_set) as H3 by (split; vm_compute; lia).
  assert (enough 7 three_set) as H7 by (split; vm_compute; lia).
  split; [exact H3|]. split; [exact H7|].
  exact (set_fuel_irrelevant 3 7 three_set d 4 H3 H7).
Defined.

(** X12 for a table that is not well formed: its count is not the number
    of its pairs, and the key [a] sits where no search for it looks. *)
Lemma search_raises_only_KeyError_witness :
  let self := mk [5] 0 [Occupied a 1; Tombstone; Empty; Empty; Occupied a 2] 7 in
  2 <= table_size self /\
  ((exists data, __getitem__ self a = Ok data /\
      (a, data) ∈ entries (array self)) \/
   __getitem__ self a = Raise KeyError) /\
  (exists b, __contains__ self a = Ok b) /\
  ((exists self', __delitem__ a self = (Ok tt, self')) \/
   __delitem__ a self = (Raise KeyError, self)).
Proof.
  intros self.
  assert (2 <= table_size self) as Hn by (vm_compute; discriminate).
  split; [exact Hn|].
  exact (search_raises_only_KeyError self a Hn).
Defined.

(** X13 for the new table with the ladder [1]. *)
Lemma one_slot_ZeroDivisionError_witness :
  __init__ (Some [1]) = Ok one_slot /\ table_size one_slot = 1 /\
  __getitem__ one_slot a = Raise ZeroDivisionError /\
  __contains__ one_slot a = Raise ZeroDivisionError /\
  __setitem__ 2 a 1 one_slot = (Raise ZeroDivisionError, one_slot) /\
  __delitem__ a one_slot = (Raise ZeroDivisionError, one_slot).
Proof.
  assert (table_size one_slot = 1) as H1 by reflexivity.
  split; [reflexivity|]. split; [exact H1|].
  exact (one_slot_ZeroDivisionError 2 one_slot a 1 H1).
Defined.

(** X14 for the ladder [5, 13]. *)
Lemma new_table_empty_witness :
  __init__ (Some [5; 13]) = Ok five_slots /\ 2 <= table_size five_slots /\
  __len__ five_slots = 0 /\ is_empty five_slots = true /\
  keys five_slots = Ok [] /\ values five_slots = Ok [] /\
  __getitem__ five_slots a = Raise KeyError /\
  __contains__ five_slots a = Ok false /\
  __delitem__ a five_slots = (Raise KeyError, five_slots).
Proof.
  assert (__init__ (Some [5; 13]) = Ok five_slots) as Hi by reflexivity.
  assert (2 <= table_size five_slots) as Hn by (vm_compute; discriminate).
  destruct (proj1 new_table_empty (Some [5; 13]) five_slots Hi)
    as (Hlen & He & _ & _ & _ & Hk & Hv & Hget).
  destruct (Hget Hn a) as (Hg & Hc & Hd).
  repeat (split; [assumption|]). assumption.
Defined.

(** X15 for the key [a] of the table with the ladder [5]. *)
Lemma slots_not_reclaimed_witness :
  reachable three_of_five /\
  (forall self',
     __delitem__ a three_of_five = (Ok tt, self') ->
     used (array self') = used (array three_of_five)) /\
  (forall fuel data self',
     __setitem__ fuel a data three_of_five = (Ok tt, self') ->
     size_index self' = size_index three_of_five ->
     (a ∈ (entries (array three_of_five)).*1 ->
      used (array self') = used (array three_of_five)) /\
     (a ∉ (entries (array three_of_five)).*1 ->
      used (array self') = used (array three_of_five) + 1)).
Proof.
  split; [exact reachable_three_of_five|].
  exact (slots_not_reclaimed three_of_five a reachable_three_of_five).
Defined.

End DynamicHashTableMore.

(** ** The fixed table: validation, collisions and listing *)

Module FixedKeyTableMore.
Import HashyPerfectionTable FixedTableVocabulary FixedKeyTable.
Section Facts.

Context {V : Type}.
Variable PlayerStats : str -> bool.
Implicit Types (self : @t V) (key : str) (data : V).
Implicit Types (a : list (option (str * V))).

(** *** The methods, step by step *)

Lemma perfect_hash_range self key p :
  hash self key = Ok p -> 0 <= p < table_size self.
Proof.
  unfold hash.
  destruct (seq_getitem key 0) as [c0| |]; simpl; try discriminate.
  destruct (seq_getitem key (-1)) as [c1| |]; simpl; try discriminate.
  destruct (seq_getitem key _) as [c2| |]; simpl; try discriminate.
  unfold py_mod. destruct (Z.eqb_spec (table_size self) 0) as [E|E]; [discriminate|].
  intros [= <-]. apply Z.mod_pos_bound. unfold table_size, len in *. lia.
Qed.

Lemma perfect_getitem_unfold self key :
  __getitem__ PlayerStats self key =
    if PlayerStats key then
      match hash self key with
      | Ok p =>
          match array self !! Z.to_nat p with
          | Some (Some (_, data)) => Ok data
          | _ => Raise KeyError
          end
      | Raise e => Raise e
      | OutOfFuel => OutOfFuel
      end
    else Raise KeyError.
Proof.
  unfold __getitem__, _is_valid_key. destruct (PlayerStats key); [|reflexivity].
  simpl. destruct (hash self key) as [p| |] eqn:Hh; try reflexivity. simpl.
  destruct (getitem_in_range (array self) p (perfect_hash_range _ _ _ Hh))
    as (item & -> & ->).
  destruct item as [[k d]|]; reflexivity.
Qed.

Lemma perfect_setitem_unfold self key data :
  __setitem__ PlayerStats key data self =
    if PlayerStats key then
      match hash self key with
      | Ok p =>
          (Ok tt,
           mk (<[Z.to_nat p := Some (key, data)]> (array self))
              (if array self !! Z.to_nat p is Some None
               then count self + 1 else count self))
      | Raise e => (Raise e, self)
      | OutOfFuel => (OutOfFuel, self)
      end
    else (Raise KeyError, self).
Proof.
  unfold __setitem__, _is_valid_key, bind, call, modify, ret.
  destruct (PlayerStats key); [|reflexivity].
  destruct (hash self key) as [p| |] eqn:Hh; try reflexivity.
  pose proof (perfect_hash_range _ _ _ Hh) as Hp.
  destruct (getitem_in_range (array self) p Hp) as (item & -> & ->).
  destruct item as [kv|]; simpl; rewrite setitem_in_range by exact Hp; reflexivity.
Qed.

Lemma perfect_delitem_unfold self key :
  __delitem__ key self =
    match hash self key with
    | Ok p => (Ok tt, mk (<[Z.to_nat p := None]> (array self)) (count self - 1))
    | Raise e => (Raise e, self)
    | OutOfFuel => (OutOfFuel, self)
    end.
Proof.
  unfold __delitem__, bind, call, modify.
  destruct (hash self key) as [p| |] eqn:Hh; try reflexivity.
  rewrite setitem_in_range by exact (perfect_hash_range _ _ _ Hh). reflexivity.
Qed.

Lemma perfect_contains_unfold self key :
  __contains__ PlayerStats self key =
    match __getitem__ PlayerStats self key with
    | Ok _ => Ok true
    | Raise KeyError => Ok false
    | Raise e => Raise e
    | OutOfFuel => OutOfFuel
    end.
Proof. reflexivity. Qed.

Lemma position_lt self key p :
  hash self key = Ok p -> (Z.to_nat p < length (array self))%nat.
Proof.
  intros Hh. pose proof (perfect_hash_range _ _ _ Hh). unfold table_size, len in *. lia.
Qed.

(** *** Only keys of the enumeration are stored *)

Lemma stored_keys_valid self :
  reachable PlayerStats self ->
  forall k d, Some (k, d) ∈ array self -> PlayerStats k = true.
Proof.
  induction 1 as [self H | key data self r self' _ IH H | key self r self' _ IH H];
    intros k d Hin.
  - injection H as <-. apply list_elem_of_In in Hin. simpl in Hin.
    intuition discriminate.
  - revert H. rewrite perfect_setitem_unfold.
    destruct (PlayerStats key) eqn:Hv; [|intros [= <- <-]; eauto].
    destruct (hash self key) as [p| |]; [| intros [= <- <-]; eauto ..].
    intros [= <- <-]. simpl in Hin.
    apply list_elem_of_lookup in Hin as [i Hi].
    destruct (decide (Z.to_nat p = i)) as [<- | Hne].
    + destruct (decide (Z.to_nat p < length (array self))%nat) as [Hlt | Hge].
      * rewrite list_lookup_insert_eq in Hi by exact Hlt. congruence.
      * rewrite list_insert_ge in Hi by lia.
        apply (IH k d), list_elem_of_lookup; eauto.
    + rewrite list_lookup_insert_ne in Hi by exact Hne.
      apply (IH k d), list_elem_of_lookup; eauto.
  - revert H. rewrite perfect_delitem_unfold.
    destruct (hash self key) as [p| |]; [| intros [= <- <-]; eauto ..].
    intros [= <- <-]. simpl in Hin.
    apply list_elem_of_lookup in Hin as [i Hi].
    destruct (decide (Z.to_nat p = i)) as [<- | Hne].
    + destruct (decide (Z.to_nat p < length (array self))%nat) as [Hlt | Hge].
      * rewrite list_lookup_insert_eq in Hi by exact Hlt. discriminate.
      * rewrite list_insert_ge in Hi by lia.
        apply (IH k d), list_elem_of_lookup; eauto.
    + rewrite list_lookup_insert_ne in Hi by exact Hne.
      apply (IH k d), list_elem_of_lookup; eauto.
Qed.

(** X16. The fixed table stores keys of the enumeration only. For a key
    that [PlayerStats] does not know, [self[key]] raises [KeyError],
    [key in self] is [False] and [self[key] = data] raises [KeyError] and
    leaves the table as it was; and in every table that can be reached,
    the key of every pair in a slot is one that [PlayerStats] knows. *)
Theorem only_valid_keys_stored self :
  reachable PlayerStats self ->
  (forall k d, Some (k, d) ∈ array self -> PlayerStats k = true) /\
  (forall key data,
     PlayerStats key = false ->
     __getitem__ PlayerStats self key = Raise KeyError /\
     __contains__ PlayerStats self key = Ok false /\
     __setitem__ PlayerStats key data self = (Raise KeyError, self)).
Proof.
  intros Hr. split; [exact (stored_keys_valid self Hr)|].
  intros key data Hv.
  rewrite perfect_contains_unfold, perfect_getitem_unfold, perfect_setitem_unfold, Hv.
  auto.
Qed.

(** *** Keys are not compared *)

Lemma perfect_set_same_hash self key data self' key' :
  __setitem__ PlayerStats key data self = (Ok tt, self') ->
  PlayerStats key' = true -> hash self key' = hash self key ->
  __getitem__ PlayerStats self' key' = Ok data.
Proof.
  intros Hs Hv' Hh. pose proof (perfect_setitem_size _ _ _ _ _ _ Hs) as Hsz.
  revert Hs. rewrite perfect_setitem_unfold.
  destruct (PlayerStats key) eqn:Hv; [|discriminate].
  destruct (hash self key) as [p| |] eqn:Hp; try discriminate.
  intros [= <-]. pose proof (position_lt _ _ _ Hp) as Hlt.
  set (self' := mk _ _) in *.
  rewrite perfect_getitem_unfold, Hv', (perfect_hash_size self' self key' Hsz), Hh.
  unfold self'. simpl. rewrite list_lookup_insert_eq by exact Hlt. reflexivity.
Qed.

(** X17. [get] and [delete] of the fixed table look at the slot of the
    hash and compare no keys. After [self[key] = data], a key of the
    enumeration with the same hash reads [data]; and deleting that other
    key takes [key] out of the table. *)
Theorem colliding_keys_share_slot self key data self' key' :
  __setitem__ PlayerStats key data self = (Ok tt, self') ->
  PlayerStats key' = true -> hash self key' = hash self key ->
  __getitem__ PlayerStats self' key' = Ok data /\
  exists self'',
    __delitem__ key' self' = (Ok tt, self'') /\
    __getitem__ PlayerStats self'' key = Raise KeyError /\
    __contains__ PlayerStats self'' key = Ok false.
Proof.
  intros Hs Hv' Hh. split; [exact (perfect_set_same_hash _ _ _ _ _ Hs Hv' Hh)|].
  pose proof (perfect_setitem_size _ _ _ _ _ _ Hs) as Hsz.
  revert Hs. rewrite perfect_setitem_unfold.
  destruct (PlayerStats key) eqn:Hv; [|discriminate].
  destruct (hash self key) as [p| |] eqn:Hp; try discriminate.
  intros [= <-]. pose proof (position_lt _ _ _ Hp) as Hlt.
  set (self' := mk _ _) in *.
  assert (hash self' key' = Ok p) as Hp'
    by (rewrite (perfect_hash_size self' self key' Hsz); congruence).
  assert (hash self' key = Ok p) as Hp''
    by (rewrite (perfect_hash_size self' self key Hsz); congruence).
  eexists. rewrite perfect_delitem_unfold, Hp'. split; [reflexivity|].
  set (self'' := mk _ _).
  assert (hash self'' key = Ok p) as Hq.
  { rewrite (perfect_hash_size self'' self' key); [exact Hp''|].
    unfold table_size, self''. simpl. apply len_insert. }
  rewrite perfect_contains_unfold, perfect_getitem_unfold, Hv, Hq.
  unfold self''. simpl.
  rewrite list_lookup_insert_eq
    by (unfold self'; simpl; rewrite length_insert; exact Hlt).
  auto.
Qed.

(** *** Other slots are left alone *)

Lemma getitem_same_slot self self' key :
  table_size self' = table_size self ->
  (forall p, hash self key = Ok p ->
     array self' !! Z.to_nat p = array self !! Z.to_nat p) ->
  __getitem__ PlayerStats self' key = __getitem__ PlayerStats self key.
Proof.
  intros Hsz Hslot. rewrite !perfect_getitem_unfold.
  rewrite (perfect_hash_size self' self key Hsz).
  destruct (PlayerStats key); [|reflexivity].
  destruct (hash self key) as [p| |]; try reflexivity.
  rewrite (Hslot p eq_refl). reflexivity.
Qed.

Lemma perfect_set_other_hash self key data r self' key' :
  hash self key' <> hash self key ->
  __setitem__ PlayerStats key data self = (r, self') ->
  __getitem__ PlayerStats self' key' = __getitem__ PlayerStats self key'.
Proof.
  intros Hne Hs.
  apply getitem_same_slot; [exact (perfect_setitem_size _ _ _ _ _ _ Hs)|].
  intros p' Hp'. revert Hs. rewrite perfect_setitem_unfold.
  destruct (PlayerStats key); [|intros [= <- <-]; reflexivity].
  destruct (hash self key) as [p| |] eqn:Hp; try (intros [= <- <-]; reflexivity).
  intros [= <- <-]. simpl. apply list_lookup_insert_ne.
  pose proof (perfect_hash_range _ _ _ Hp). pose proof (perfect_hash_range _ _ _ Hp').
  intros E. apply Hne. rewrite Hp'. f_equal. lia.
Qed.

(** X18. [set] and [delete] of the fixed table touch one slot: whatever
    their outcome, a key whose hash is not that of the key of the call
    reads afterwards what it read before. *)
Theorem fixed_set_delete_keep_other_slots self key key' :
  hash self key' <> hash self key ->
  (forall data r self',
     __setitem__ PlayerStats key data self = (r, self') ->
     __getitem__ PlayerStats self' key' = __getitem__ PlayerStats self key') /\
  (forall r self',
     __delitem__ key self = (r, self') ->
     __getitem__ PlayerStats self' key' = __getitem__ PlayerStats self key').
Proof.
  intros Hne. split.
  - intros data r self'. apply perfect_set_other_hash. exact Hne.
  - intros r self' Hd.
    apply getitem_same_slot; [exact (perfect_delitem_size _ _ _ _ Hd)|].
    intros p' Hp'. revert Hd. rewrite perfect_delitem_unfold.
    destruct (hash self key) as [p| |] eqn:Hp; try (intros [= <- <-]; reflexivity).
    intros [= <- <-]. simpl. apply list_lookup_insert_ne.
    pose proof (perfect_hash_range _ _ _ Hp). pose proof (perfect_hash_range _ _ _ Hp').
    intros E. apply Hne. rewrite Hp'. f_equal. lia.
Qed.

(** *** Deleting and counting *)

(** X19. After [del self[key]] of the fixed table has returned, the key is
    not found: [self[key]] raises [KeyError], [key in self] is [False],
    and the count that [__len__] returns is one less than before, so that
    [len(self)] is one less when the count was one or more, and raises
    [ValueError] when it was not. *)
Theorem fixed_delete_then_absent self key self' :
  __delitem__ key self = (Ok tt, self') ->
  __getitem__ PlayerStats self' key = Raise KeyError /\
  __contains__ PlayerStats self' key = Ok false /\
  __len__ self' = __len__ self - 1 /\
  builtin_len self' =
    (if __len__ self <? 1 then Raise ValueError else Ok (__len__ self - 1)).
Proof.
  intros Hd. pose proof (perfect_delitem_size _ _ _ _ Hd) as Hsz. revert Hd.
  rewrite perfect_delitem_unfold.
  destruct (hash self key) as [p| |] eqn:Hp; try discriminate.
  intros [= <-]. set (self' := mk _ _) in *.
  assert (__getitem__ PlayerStats self' key = Raise KeyError) as Hg.
  { rewrite perfect_getitem_unfold, (perfect_hash_size self' self key Hsz), Hp.
    unfold self'. simpl. rewrite list_lookup_insert_eq by exact (position_lt _ _ _ Hp).
    destruct (PlayerStats key); reflexivity. }
  split; [exact Hg|]. rewrite perfect_contains_unfold, Hg.
  split; [reflexivity|]. split; [reflexivity|].
  unfold builtin_len, __len__, self'. cbn [count].
  destruct (Z.ltb_spec (count self - 1) 0); destruct (Z.ltb_spec (count self) 1);
    try lia; reflexivity.
Qed.

(** X20. A [set] of the fixed table that succeeds leaves [len] as it is
    when the key read a value before, and adds one when the key was not
    found. *)
Theorem fixed_set_len self key data self' :
  __setitem__ PlayerStats key data self = (Ok tt, self') ->
  ((exists old, __getitem__ PlayerStats self key = Ok old) ->
   __len__ self' = __len__ self) /\
  (__getitem__ PlayerStats self key = Raise KeyError ->
   __len__ self' = __len__ self + 1).
Proof.
  rewrite perfect_setitem_unfold, perfect_getitem_unfold.
  destruct (PlayerStats key); [|discriminate].
  destruct (hash self key) as [p| |] eqn:Hp; try discriminate.
  intros [= <-]. unfold __len__. simpl.
  destruct (lookup_lt_is_Some_2 _ _ (position_lt _ _ _ Hp)) as [item ->].
  destruct item as [[k d]|]; split; try reflexivity.
  - discriminate.
  - intros [old ?]. discriminate.
Qed.

(** *** [len] and the pairs in the slots *)

Lemma pairs_app a1 a2 : pairs (a1 ++ a2) = pairs a1 ++ pairs a2.
Proof. unfold pairs. apply omap_app. Qed.

Lemma len_pairs_cons (item : option (str * V)) a :
  len (pairs (item :: a)) = (if item is Some _ then 1 else 0) + len (pairs a).
Proof. destruct item; unfold pairs, len; cbn; lia. Qed.

Lemma len_pairs_insert a (p : nat) (old new : option (str * V)) :
  a !! p = Some old ->
  len (pairs (<[p := new]> a)) =
    len (pairs a) - (if old is Some _ then 1 else 0) + (if new is Some _ then 1 else 0).
Proof.
  intros Hp. pose proof (lookup_lt_Some _ _ _ Hp) as Hlt.
  rewrite insert_take_drop by exact Hlt.
  pose proof (take_drop_middle a p old Hp) as Ha.
  set (a1 := take p a) in *. set (a2 := drop (S p) a) in *.
  rewrite <- Ha. rewrite !pairs_app, !DynamicHashTable.len_app, !len_pairs_cons. lia.
Qed.

Lemma len_pairs_le a : len (pairs a) <= len a.
Proof.
  induction a as [|item a IH]; [unfold len; simpl; lia|].
  rewrite len_pairs_cons. unfold len in *. simpl. destruct item; lia.
Qed.

Lemma pairs_all a :
  len (pairs a) = len a -> forall item, item ∈ a -> item <> None.
Proof.
  induction a as [|x a IH]; intros E item Hin; [apply elem_of_nil in Hin; contradiction|].
  rewrite len_pairs_cons in E. pose proof (len_pairs_le a) as Hle.
  unfold len in *. simpl in E.
  apply elem_of_cons in Hin as [-> | Hin].
  - destruct x; [discriminate | lia].
  - apply IH; [destruct x; lia | exact Hin].
Qed.

Lemma reachable_count self :
  reachable PlayerStats self -> count self <= len (pairs (array self)).
Proof.
  induction 1 as [self H | key data self r self' _ IH H | key self r self' _ IH H].
  - injection H as <-. vm_compute. discriminate.
  - revert H. rewrite perfect_setitem_unfold.
    destruct (PlayerStats key); [|intros [= <- <-]; exact IH].
    destruct (hash self key) as [p| |] eqn:Hp; [| intros [= <- <-]; exact IH ..].
    intros [= <- <-]. simpl.
    destruct (lookup_lt_is_Some_2 _ _ (position_lt _ _ _ Hp)) as [item Hi].
    rewrite (len_pairs_insert _ _ _ _ Hi), Hi. destruct item; lia.
  - revert H. rewrite perfect_delitem_unfold.
    destruct (hash self key) as [p| |] eqn:Hp; [| intros [= <- <-]; exact IH ..].
    intros [= <- <-]. simpl.
    destruct (lookup_lt_is_Some_2 _ _ (position_lt _ _ _ Hp)) as [item Hi].
    rewrite (len_pairs_insert _ _ _ _ Hi). destruct item; lia.
Qed.

(** X21. In every fixed table that can be reached, [len] is at most the
    number of slots that hold a pair, which is at most [13]; so when
    [is_full] holds, every slot holds a pair. *)
Theorem fixed_len_at_most_pairs self :
  reachable PlayerStats self ->
  __len__ self <= len (pairs (array self)) <= 13 /\
  (is_full self = true -> forall item, item ∈ array self -> item <> None).
Proof.
  intros Hr. pose proof (reachable_count self Hr) as Hc.
  pose proof (reachable_size _ self Hr) as Hs. unfold table_size in Hs.
  pose proof (len_pairs_le (array self)) as Hle. unfold __len__.
  split; [lia|]. unfold is_full. intros Hf. apply Z.eqb_eq in Hf.
  apply pairs_all. lia.
Qed.

(** *** The listing *)

Lemma listed_step {A} (done : list A) (y : A) (n : nat) :
  (length done < n)%nat ->
  <[length done := Some y]> ((Some <$> done) ++ replicate (n - length done) None) =
  (Some <$> (done ++ [y])) ++ replicate (n - length (done ++ [y])) None.
Proof.
  intros Hlt. rewrite length_app. simpl.
  replace (n - length done)%nat with (S (n - (length done + 1))) by lia.
  simpl. rewrite fmap_app. simpl. rewrite <- app_assoc. simpl.
  replace (length done) with (length (Some <$> done) + 0)%nat at 1
    by (rewrite length_fmap; lia).
  rewrite insert_app_r. reflexivity.
Qed.

Lemma collect_listed {A} (proj : str * V -> A) self :
  forall (m i : nat) (done : list A),
    (i + m <= length (array self))%nat -> (length done <= i)%nat ->
    collect proj self (map Z.of_nat (seq i m))
      ((Some <$> done) ++ replicate (length (array self) - length done) None)
      (Z.of_nat (length done)) =
    Ok (let found := done ++ (proj <$> pairs (take m (drop i (array self)))) in
        (Some <$> found) ++ replicate (length (array self) - length found) None).
Proof.
  induction m as [|m IH]; intros i done Hlen Hdone.
  - simpl. rewrite app_nil_r. reflexivity.
  - destruct (lookup_lt_is_Some_2 (array self) i) as [item Hi]; [lia|].
    cbn [seq map collect].
    rewrite (proj2 (getitem_Ok (array self) (Z.of_nat i) item))
      by (rewrite Nat2Z.id; split; [lia | exact Hi]).
    cbn [rbind]. rewrite (drop_S _ _ _ Hi). cbn [take].
    destruct item as [kv|].
    + rewrite setitem_in_range
        by (unfold len; rewrite length_app, length_fmap, length_replicate; lia).
      cbn [rbind]. rewrite Nat2Z.id, listed_step by lia.
      replace (Z.of_nat (length done) + 1) with (Z.of_nat (length (done ++ [proj kv])))
        by (rewrite length_app; simpl; lia).
      rewrite IH by (rewrite ?length_app; simpl; lia).
      cbv zeta. unfold pairs. simpl. rewrite <- !app_assoc. reflexivity.
    + rewrite IH by lia. reflexivity.
Qed.

(** X22. [keys] and [values] of a fixed table that can be reached: when
    the count is not negative they return an array of [13] slots, the
    keys, or the values, of the pairs among the first [len(self)] slots of
    the table, in the order of the slots, and [None] from there on; when
    the count is negative, as it is after the deletion of a key that was
    not in the table, [len(self)] raises [ValueError] and so do they. *)
Theorem fixed_keys_values_listing self :
  reachable PlayerStats self ->
  (0 <= __len__ self ->
   builtin_len self = Ok (__len__ self) /\
   keys self = Ok (listed fst self) /\ values self = Ok (listed snd self) /\
   length (listed fst self) = 13%nat /\ length (listed snd self) = 13%nat) /\
  (__len__ self < 0 ->
   builtin_len self = Raise ValueError /\
   keys self = Raise ValueError /\ values self = Raise ValueError).
Proof.
  intros Hr. pose proof (reachable_count self Hr) as Hc.
  pose proof (reachable_size _ self Hr) as Hs. unfold table_size in Hs.
  pose proof (len_pairs_le (array self)) as Hle.
  assert (forall A, ArrayR (@None A) (len (array self)) =
                    Ok (replicate (Z.to_nat (len (array self))) None)) as Harr
    by (intros A; unfold ArrayR; rewrite Hs; reflexivity).
  split.
  - intros Hpos.
    assert (builtin_len self = Ok (__len__ self)) as Hlen0
      by (unfold builtin_len; destruct (Z.ltb_spec (__len__ self) 0); [lia | reflexivity]).
    assert (forall {A} (proj : str * V -> A),
              collect proj self (range (__len__ self))
                (replicate (Z.to_nat (len (array self))) None) 0 =
              Ok (listed proj self)) as Hcol.
    { intros A proj. unfold range, listed.
      pose proof (collect_listed proj self (Z.to_nat (__len__ self)) 0 []) as H.
      simpl in H. rewrite Nat.sub_0_r in H. unfold len. rewrite Nat2Z.id.
      apply H; [|lia]. unfold __len__, len in *. lia. }
    assert (forall {A} (proj : str * V -> A), length (listed proj self) = 13%nat) as Hlen.
    { intros A proj. unfold listed. cbv zeta.
      rewrite length_app, !length_fmap, length_replicate.
      set (found := pairs _).
      assert (length found <= length (array self))%nat.
      { pose proof (len_pairs_le (take (Z.to_nat (__len__ self)) (array self))) as H.
        unfold len in H. rewrite length_take in H. subst found. lia. }
      unfold len in Hs. lia. }
    split; [exact Hlen0|].
    unfold keys, values. rewrite !Harr, Hlen0. cbn [rbind]. rewrite !Hcol. auto.
  - intros Hneg.
    assert (builtin_len self = Raise ValueError) as Hlen0
      by (unfold builtin_len; destruct (Z.ltb_spec (__len__ self) 0); [reflexivity | lia]).
    split; [exact Hlen0|].
    unfold keys, values. rewrite !Harr, Hlen0. auto.
Qed.

(** *** Membership *)

(** X23. [key in self] of a fixed table that can be reached raises for
    the empty key only, and only if the enumeration has it: for any other
    key it is [True] when the key is of the enumeration and the slot of
    its hash holds a pair, whatever the key of that pair, and [False]
    otherwise. *)
Theorem fixed_contains self key :
  reachable PlayerStats self ->
  (key <> [] ->
   exists p b,
     hash self key = Ok p /\ 0 <= p < 13 /\
     __contains__ PlayerStats self key = Ok b /\
     (b = true <->
      PlayerStats key = true /\
      exists k d, array self !! Z.to_nat p = Some (Some (k, d)))) /\
  __contains__ PlayerStats self [] =
    (if PlayerStats [] then Raise IndexError else Ok false).
Proof.
  intros Hr. pose proof (reachable_size _ self Hr) as Hs. split.
  - intros Hk. destruct (perfect_hash_Ok self key Hk) as (p & Hp & Hrange); [lia|].
    exists p. rewrite perfect_contains_unfold, perfect_getitem_unfold, Hp.
    destruct (PlayerStats key).
    + destruct (array self !! Z.to_nat p) as [[[k d]|]|] eqn:Hi;
        [exists true | exists false ..];
        (split; [reflexivity|]); (split; [lia|]); (split; [reflexivity|]).
      * split; [intros _; eauto | reflexivity].
      * split; [discriminate | intros [_ (k & d & ?)]; discriminate].
      * split; [discriminate | intros [_ (k & d & ?)]; discriminate].
    + exists false. split; [reflexivity|]. split; [lia|]. split; [reflexivity|].
      split; [discriminate | intros [? _]; discriminate].
  - rewrite perfect_contains_unfold, perfect_getitem_unfold.
    destruct (PlayerStats []); [|reflexivity].
    unfold hash. rewrite seq_getitem_nil. reflexivity.
Qed.

End Facts.

(** *** The properties on the tables of the examples *)

Import Examples MoreExamples.

Lemma reachable_thirteen_slots PlayerStats : reachable PlayerStats thirteen_slots.
Proof. apply reach_init. reflexivity. Qed.

Lemma reachable_one_stat : reachable any_key one_stat.
Proof.
  apply (reach_set any_key a 1 thirteen_slots (Ok tt) one_stat).
  - apply reachable_thirteen_slots.
  - vm_compute. reflexivity.
Qed.

(** X16 for the enumeration with the one value [Goals]. *)
Lemma only_valid_keys_stored_witness :
  reachable only_Goals thirteen_slots /\
  (forall k d, Some (k, d) ∈ array thirteen_slots -> only_Goals k = true) /\
  (forall key data,
     only_Goals key = false ->
     __getitem__ only_Goals thirteen_slots key = Raise KeyError /\
     __contains__ only_Goals thirteen_slots key = Ok false /\
     __setitem__ only_Goals key data thirteen_slots = (Raise KeyError, thirteen_slots)).
Proof.
  split; [exact (reachable_thirteen_slots only_Goals)|].
  exact (only_valid_keys_stored only_Goals thirteen_slots
           (reachable_thirteen_slots only_Goals)).
Defined.

(** X17 for the keys [a] and [n], which have the same hash. *)
Lemma colliding_keys_share_slot_witness :
  __setitem__ any_key a 1 thirteen_slots = (Ok tt, one_stat) /\
  any_key key_n = true /\ hash thirteen_slots key_n = hash thirteen_slots a /\
  __getitem__ any_key one_stat key_n = Ok 1 /\
  exists self'',
    __delitem__ key_n one_stat = (Ok tt, self'') /\
    __getitem__ any_key self'' a = Raise KeyError /\
    __contains__ any_key self'' a = Ok false.
Proof.
  assert (__setitem__ any_key a 1 thirteen_slots = (Ok tt, one_stat)) as Hs
    by (vm_compute; reflexivity).
  assert (any_key key_n = true) as Hv by reflexivity.
  assert (hash thirteen_slots key_n = hash thirteen_slots a) as Hh
    by (vm_compute; reflexivity).
  split; [exact Hs|]. split; [exact Hv|]. split; [exact Hh|].
  exact (colliding_keys_share_slot any_key thirteen_slots a 1 one_stat key_n Hs Hv Hh).
Defined.

(** X18 for the keys [a] and [b], which have not. *)
Lemma fixed_set_delete_keep_other_slots_witness :
  hash one_stat a <> hash one_stat b /\
  (forall data r self',
     __setitem__ any_key b data one_stat = (r, self') ->
     __getitem__ any_key self' a = __getitem__ any_key one_stat a) /\
  (forall r self',
     __delitem__ b one_stat = (r, self') ->
     __getitem__ any_key self' a = __getitem__ any_key one_stat a).
Proof.
  assert (hash one_stat a <> hash one_stat b) as Hne by (vm_compute; discriminate).
  split; [exact Hne|].
  exact (fixed_set_delete_keep_other_slots any_key one_stat b a Hne).
Defined.

Lemma reachable_minus_one : reachable any_key minus_one.
Proof.
  apply (reach_del any_key a thirteen_slots (Ok tt) minus_one).
  - apply reachable_thirteen_slots.
  - vm_compute. reflexivity.
Qed.

(** X19 for the key [a], deleted from the table that holds it and from
    the new table, and X20 for the same key. *)
Lemma fixed_delete_then_absent_witness :
  (__delitem__ a one_stat = (Ok tt, thirteen_slots) /\
   __getitem__ any_key thirteen_slots a = Raise KeyError /\
   __contains__ any_key thirteen_slots a = Ok false /\
   __len__ thirteen_slots = __len__ one_stat - 1 /\
   builtin_len thirteen_slots =
     (if __len__ one_stat <? 1 then Raise ValueError else Ok (__len__ one_stat - 1))) /\
  (__delitem__ a thirteen_slots = (Ok tt, minus_one) /\
   __getitem__ any_key minus_one a = Raise KeyError /\
   __contains__ any_key minus_one a = Ok false /\
   __len__ minus_one = __len__ thirteen_slots - 1 /\
   builtin_len minus_one =
     (if __len__ thirteen_slots <? 1 then Raise ValueError
      else Ok (__len__ thirteen_slots - 1))).
Proof.
  assert (__delitem__ a one_stat = (Ok tt, thirteen_slots)) as Hd
    by (vm_compute; reflexivity).
  assert (__delitem__ a thirteen_slots = (Ok tt, minus_one)) as Hd'
    by (vm_compute; reflexivity).
  split.
  - split; [exact Hd|].
    exact (fixed_delete_then_absent any_key one_stat a thirteen_slots Hd).
  - split; [exact Hd'|].
    exact (fixed_delete_then_absent any_key thirteen_slots a minus_one Hd').
Defined.

Lemma fixed_set_len_witness :
  __setitem__ any_key a 1 thirteen_slots = (Ok tt, one_stat) /\
  ((exists old, __getitem__ any_key thirteen_slots a = Ok old) ->
   __len__ one_stat = __len__ thirteen_slots) /\
  (__getitem__ any_key thirteen_slots a = Raise KeyError ->
   __len__ one_stat = __len__ thirteen_slots + 1).
Proof.
  assert (__setitem__ any_key a 1 thirteen_slots = (Ok tt, one_stat)) as Hs
    by (vm_compute; reflexivity).
  split; [exact Hs|].
  exact (fixed_set_len any_key thirteen_slots a 1 one_stat Hs).
Defined.

(** X21 and X23 for the table that holds [a], and X22 for that table and
    for the one with a negative count. *)
Lemma fixed_len_at_most_pairs_witness :
  reachable any_key one_stat /\
  __len__ one_stat <= len (pairs (array one_stat)) <= 13 /\
  (is_full one_stat = true -> forall item, item ∈ array one_stat -> item <> None).
Proof.
  split; [exact reachable_one_stat|].
  exact (fixed_len_at_most_pairs any_key one_stat reachable_one_stat).
Defined.

Lemma fixed_keys_values_listing_witness :
  (reachable any_key one_stat /\ 0 <= __len__ one_stat /\
   builtin_len one_stat = Ok (__len__ one_stat) /\
   keys one_stat = Ok (listed fst one_stat) /\
   values one_stat = Ok (listed snd one_stat) /\
   length (listed fst one_stat) = 13%nat /\ length (listed snd one_stat) = 13%nat) /\
  (reachable any_key minus_one /\ __len__ minus_one < 0 /\
   builtin_len minus_one = Raise ValueError /\
   keys minus_one = Raise ValueError /\ values minus_one = Raise ValueError).
Proof.
  assert (0 <= __len__ one_stat) as Hpos by (vm_compute; discriminate).
  assert (__len__ minus_one < 0) as Hneg by (vm_compute; reflexivity).
  split.
  - split; [exact reachable_one_stat|]. split; [exact Hpos|].
    exact (proj1 (fixed_keys_values_listing any_key one_stat reachable_one_stat) Hpos).
  - split; [exact reachable_minus_one|]. split; [exact Hneg|].
    exact (proj2 (fixed_keys_values_listing any_key minus_one reachable_minus_one) Hneg).
Defined.

Lemma fixed_contains_witness :
  reachable any_key one_stat /\
  (key_n <> [] ->
   exists p b,
     hash one_stat key_n = Ok p /\ 0 <= p < 13 /\
     __contains__ any_key one_stat key_n = Ok b /\
     (b = true <->
      any_key key_n = true /\
      exists k d, array one_stat !! Z.to_nat p = Some (Some (k, d)))) /\
  __contains__ any_key one_stat [] =
    (if any_key [] then Raise IndexError else Ok false).
Proof.
  split; [exact reachable_one_stat|].
  exact (fixed_contains any_key one_stat key_n reachable_one_stat).
Defined.

End FixedKeyTableMore.

(** ** The player and its table of statistics *)

Module PlayerFacts.
Import HashyPerfectionTable FixedKeyTable FixedKeyTableMore.
Section Facts.

Context {PlayerStats PlayerPosition : Type}.
Variable value : PlayerStats -> str.
Variable members : list PlayerStats.
Implicit Types (self : @Player.t PlayerPosition) (s statistic : PlayerStats).
Implicit Types (table : @HashyPerfectionTable.t Z).

(** The table of statistics Player.by_value value membersates its keys against the values of the
    enumeration. *)

Lemma by_value_member s :
  s ∈ members -> Player.by_value value members (value s) = true.
Proof.
  intros Hin. apply bool_decide_eq_true, list_elem_of_fmap. eauto.
Qed.

Lemma player_setitem_unfold statistic v self :
  Player.__setitem__ value members statistic v self =
    let r := __setitem__ (Player.by_value value members) (value statistic) v
               (Player.player_statistics self) in
    (r.1, Player.set_player_statistics r.2 self).
Proof.
  unfold Player.__setitem__.
  destruct (__setitem__ _ _ _ _) as [r table]. reflexivity.
Qed.

Lemma player_set_Ok s v self :
  s ∈ members -> value s <> [] -> 0 < table_size (Player.player_statistics self) ->
  exists table,
    __setitem__ (Player.by_value value members) (value s) v
      (Player.player_statistics self) = (Ok tt, table) /\
    table_size table = table_size (Player.player_statistics self) /\
    Player.__setitem__ value members s v self =
      (Ok tt, Player.set_player_statistics table self).
Proof.
  intros Hin Hne Hsz.
  destruct (perfect_hash_Ok (Player.player_statistics self) (value s) Hne Hsz) as (p & Hp & _).
  pose proof (perfect_setitem_unfold (Player.by_value value members)
                (Player.player_statistics self) (value s) v) as Hs.
  rewrite (by_value_member s Hin), Hp in Hs.
  eexists. split; [exact Hs|].
  split; [exact (perfect_setitem_size _ _ _ _ _ _ Hs)|].
  rewrite player_setitem_unfold, Hs. reflexivity.
Qed.

(** X24. Setting a statistic of a player and reading it gives the value
    back, and leaves the name, the position and the age of the player and
    every statistic with another hash as they are. *)
Theorem player_set_get s v self :
  s ∈ members -> value s <> [] -> 0 < table_size (Player.player_statistics self) ->
  exists self',
    Player.__setitem__ value members s v self = (Ok tt, self') /\
    Player.__getitem__ value members self' s = Ok v /\
    Player.get_name self' = Player.get_name self /\
    Player.get_position self' = Player.get_position self /\
    Player.age self' = Player.age self /\
    forall s',
      hash (Player.player_statistics self) (value s') <> hash (Player.player_statistics self) (value s) ->
      Player.__getitem__ value members self' s' =
      Player.__getitem__ value members self s'.
Proof.
  intros Hin Hne Hsz.
  destruct (player_set_Ok s v self Hin Hne Hsz) as (table & Ht & _ & Hs).
  eexists. split; [exact Hs|]. unfold Player.__getitem__. simpl.
  split; [exact (perfect_set_get _ _ _ _ _ Ht)|].
  repeat (split; [reflexivity|]).
  intros s' Hh. exact (perfect_set_other_hash _ _ _ _ _ _ _ Hh Ht).
Qed.

(** *** Resetting *)

Lemma reset_loop (l : list PlayerStats) :
  (forall s, s ∈ l -> s ∈ members /\ value s <> []) ->
  forall self, 0 < table_size (Player.player_statistics self) ->
    exists self',
      for_each l (fun stat => Player.__setitem__ value members stat 0) self
        = (Ok tt, self') /\
      table_size (Player.player_statistics self') = table_size (Player.player_statistics self) /\
      Player.name self' = Player.name self /\
      Player.position self' = Player.position self /\
      Player.age self' = Player.age self /\
      forall s, s ∈ members -> value s <> [] ->
        s ∈ l \/ Player.__getitem__ value members self s = Ok 0 ->
        Player.__getitem__ value members self' s = Ok 0.
Proof.
  induction l as [|x l IH]; intros Hl self Hsz.
  - exists self. simpl. unfold ret. repeat (split; [reflexivity|]).
    intros s _ _ [Hin | H]; [apply elem_of_nil in Hin; contradiction | exact H].
  - destruct (Hl x) as [Hx Hxne]; [left|].
    destruct (player_set_Ok x 0 self Hx Hxne Hsz) as (table & Ht & Htsz & Hs).
    set (self1 := Player.set_player_statistics table self) in *.
    destruct (IH (fun s Hin => Hl s ltac:(right; exact Hin)) self1)
      as (self' & Hloop & Hsz' & Hn & Hp & Ha & Hget).
    { unfold self1. simpl. lia. }
    exists self'. simpl. unfold bind at 1. rewrite Hs, Hloop.
    split; [reflexivity|]. split; [rewrite Hsz'; exact Htsz|].
    split; [exact Hn|]. split; [exact Hp|]. split; [exact Ha|].
    intros s Hin Hne Hs0. apply (Hget s Hin Hne).
    destruct Hs0 as [Hs0 | Hs0].
    + apply elem_of_cons in Hs0 as [-> | Hs0]; [right | left; exact Hs0].
      exact (perfect_set_get _ _ _ _ _ Ht).
    + right. unfold Player.__getitem__ in *. simpl.
      destruct (perfect_hash_Ok (Player.player_statistics self) (value s) Hne Hsz)
        as (p & Hp' & _).
      destruct (perfect_hash_Ok (Player.player_statistics self) (value x) Hxne Hsz)
        as (q & Hq & _).
      destruct (decide (p = q)) as [-> | Hpq].
      * apply (perfect_set_same_hash _ _ _ _ _ _ Ht (by_value_member s Hin)).
        congruence.
      * rewrite <- Hs0. apply (perfect_set_other_hash _ _ _ _ _ _ _) with (2 := Ht).
        congruence.
Qed.

(** X25. [reset_stats] sets every statistic to [0] and nothing else: if
    no member of the enumeration has the empty string for its value, the
    call returns, every statistic reads [0] afterwards, whether two of
    them share a slot or not, and the name, the position and the age are
    as before. *)
Theorem reset_stats_zero self :
  (forall s, s ∈ members -> value s <> []) ->
  0 < table_size (Player.player_statistics self) ->
  exists self',
    Player.reset_stats value members self = (Ok tt, self') /\
    Player.get_name self' = Player.get_name self /\
    Player.get_position self' = Player.get_position self /\
    Player.age self' = Player.age self /\
    forall s, s ∈ members -> Player.__getitem__ value members self' s = Ok 0.
Proof.
  intros Hne Hsz.
  destruct (reset_loop members (fun s Hin => conj Hin (Hne s Hin)) self Hsz)
    as (self' & Hloop & _ & Hn & Hp & Ha & Hget).
  exists self'. split; [exact Hloop|]. split; [exact Hn|]. split; [exact Hp|].
  split; [exact Ha|].
  intros s Hin. apply (Hget s Hin (Hne s Hin)). left. exact Hin.
Qed.

(** X26. A player under [18] cannot be built: [__init__] raises
    [ValueError]. From [18] on, if no member of the enumeration has the
    empty string for its value, [__init__] returns a player with the name,
    the position and the age it was given, whose statistics all read
    [0]. *)
Theorem new_player (name : str) (position : PlayerPosition) (age : Z) :
  (age < 18 ->
   Player.__init__ value members name position age = Raise ValueError) /\
  (18 <= age -> (forall s, s ∈ members -> value s <> []) ->
   exists self,
     Player.__init__ value members name position age = Ok self /\
     Player.get_name self = name /\
     Player.get_position self = position /\
     Player.age self = age /\
     table_size (Player.get_statistics self) = 13 /\
     forall s, s ∈ members -> Player.__getitem__ value members self s = Ok 0).
Proof.
  unfold Player.__init__. split.
  - intros Hage. destruct (Z.ltb_spec age 18); [reflexivity | lia].
  - intros Hage Hne. destruct (Z.ltb_spec age 18); [lia|].
    change (@__init__ Z) with (Ok (@mk Z (replicate 13 None) 0)). cbn [rbind].
    set (self0 := Player.mk name position age _).
    destruct (reset_loop members (fun s Hin => conj Hin (Hne s Hin)) self0)
      as (self' & Hloop & Hsz & Hn & Hp & Ha & Hget).
    { vm_compute. reflexivity. }
    exists self'. unfold Player.reset_stats. rewrite Hloop.
    split; [reflexivity|]. split; [exact Hn|]. split; [exact Hp|].
    split; [exact Ha|]. split; [exact Hsz|].
    intros s Hin. apply (Hget s Hin (Hne s Hin)). left. exact Hin.
Qed.

End Facts.

(** *** The properties on a player with three statistics *)

Import ExampleStats.

Lemma values_not_empty s : s ∈ members -> value s <> [].
Proof. intros _. destruct s; discriminate. Qed.

Lemma GOALS_member : GOALS ∈ members.
Proof. left. Qed.

(** X24 for the statistic [GOALS]. *)
Lemma player_set_get_witness :
  GOALS ∈ members /\ value GOALS <> [] /\
  0 < table_size (Player.player_statistics ann) /\
  exists self',
    Player.__setitem__ value members GOALS 7 ann = (Ok tt, self') /\
    Player.__getitem__ value members self' GOALS = Ok 7 /\
    Player.get_name self' = Player.get_name ann /\
    Player.get_position self' = Player.get_position ann /\
    Player.age self' = Player.age ann /\
    forall s',
      hash (Player.player_statistics ann) (value s') <>
      hash (Player.player_statistics ann) (value GOALS) ->
      Player.__getitem__ value members self' s' =
      Player.__getitem__ value members ann s'.
Proof.
  assert (value GOALS <> []) as Hne by discriminate.
  assert (0 < table_size (Player.player_statistics ann)) as Hsz
    by (vm_compute; reflexivity).
  split; [exact GOALS_member|]. split; [exact Hne|]. split; [exact Hsz|].
  exact (player_set_get value members GOALS 7 ann GOALS_member Hne Hsz).
Defined.

(** X25 and X26 for the three statistics. *)
Lemma reset_stats_zero_witness :
  (forall s, s ∈ members -> value s <> []) /\
  0 < table_size (Player.player_statistics ann) /\
  exists self',
    Player.reset_stats value members ann = (Ok tt, self') /\
    Player.get_name self' = Player.get_name ann /\
    Player.get_position self' = Player.get_position ann /\
    Player.age self' = Player.age ann /\
    forall s, s ∈ members -> Player.__getitem__ value members self' s = Ok 0.
Proof.
  assert (0 < table_size (Player.player_statistics ann)) as Hsz
    by (vm_compute; reflexivity).
  split; [exact values_not_empty|]. split; [exact Hsz|].
  exact (reset_stats_zero value members ann values_not_empty Hsz).
Defined.

Lemma new_player_witness :
  17 < 18 /\ 18 <= 20 /\ (forall s, s ∈ members -> value s <> []) /\
  Player.__init__ value members (of_string "Ann") tt 17 = Raise ValueError /\
  exists self,
    Player.__init__ value members (of_string "Ann") tt 20 = Ok self /\
    Player.get_name self = of_string "Ann" /\
    Player.get_position self = tt /\
    Player.age self = 20 /\
    table_size (Player.get_statistics self) = 13 /\
    forall s, s ∈ members -> Player.__getitem__ value members self s = Ok 0.
Proof.
  assert (17 < 18) as H17 by lia.
  assert (18 <= 20) as H20 by lia.
  split; [exact H17|]. split; [exact H20|]. split; [exact values_not_empty|].
  split.
  - exact (proj1 (new_player value members (of_string "Ann") tt 17) H17).
  - exact (proj2 (new_player value members (of_string "Ann") tt 20) H20
             values_not_empty).
Defined.

End PlayerFacts.
